(** * A two-fighter canvas game: Fighter tick, combat resolver, AI controller

    Shallow embedding of the two variants of the game:
    - [Base]     : src/game5.js (two keyboard-driven fighters);
    - [Enhanced] : the second source file (dodge, combo, AI opponent).

    Number model.  Every JavaScript number is an IEEE-754 double.  The
    fields that only ever hold integers (health, cooldowns, counters,
    wall-clock milliseconds) are modelled in [Z].  Coordinates, sizes
    and velocities stay abstract over an interface [JSNum] with two
    instances: [float] (binary64, the arithmetic the program really
    runs) and [Q] (exact rationals, on which the laws of an ordered
    field hold).  Statements that only follow the control flow are
    proved for every instance.  Geometric statements are proved in
    exact arithmetic for all inputs and in binary64 on the states the
    pages can reach, where abscissae are integer pixels and the
    vertical state runs through the finitely many states of a jump;
    the vertical velocity accumulates the non-representable constant
    0.7, and there the two instances differ. *)

From stdpp Require Import gmap strings list.
From Stdlib Require Import ZArith QArith Qabs Lqa Lia.
From Stdlib Require Import PrimFloat SpecFloat FloatOps FloatAxioms.

Close Scope Q_scope.
Local Open Scope Z_scope.

(** ** JavaScript numbers *)

Class JSNum (num : Type) : Type := {
  ofZ  : Z -> num;              (* an integer literal or integer value *)
  lit  : Z -> positive -> num;  (* the decimal literal n/d, e.g. 0.7 = lit 7 10 *)
  nadd : num -> num -> num;
  nsub : num -> num -> num;
  nmul : num -> num -> num;
  ndiv : num -> num -> num;
  nopp : num -> num;
  nabs : num -> num;            (* Math.abs *)
  nlt  : num -> num -> bool;    (* a < b *)
  nle  : num -> num -> bool;    (* a <= b *)
  neqb : num -> num -> bool     (* a === b *)
}.

Declare Scope js_scope.
Delimit Scope js_scope with js.
Notation "a + b" := (nadd a b) : js_scope.
Notation "a - b" := (nsub a b) : js_scope.
Notation "a * b" := (nmul a b) : js_scope.
Notation "a / b" := (ndiv a b) : js_scope.
Notation "- a" := (nopp a) : js_scope.
Notation "a <? b" := (nlt a b) : js_scope.
Notation "a <=? b" := (nle a b) : js_scope.
Notation "a >? b" := (nlt b a) : js_scope.
Notation "a >=? b" := (nle b a) : js_scope.
Notation "a =? b" := (neqb a b) : js_scope.

(** Exact rationals. *)
Definition Qltb (a b : Q) : bool :=
  match Qcompare a b with Lt => true | _ => false end.

#[export] Instance QNum : JSNum Q := {|
  ofZ := inject_Z;
  lit := Qmake;
  nadd := Qplus; nsub := Qminus; nmul := Qmult; ndiv := Qdiv;
  nopp := Qopp; nabs := Qabs;
  nlt := Qltb; nle := Qle_bool; neqb := Qeq_bool
|}.

(** binary64: the nearest double to an integer, and a decimal literal as
    the correctly rounded quotient of two integers. *)
Definition float_of_Z (z : Z) : float :=
  SF2Prim (binary_normalize prec emax z 0 false).

#[export] Instance FloatNum : JSNum float := {|
  ofZ := float_of_Z;
  lit := fun n d => PrimFloat.div (float_of_Z n) (float_of_Z (Zpos d));
  nadd := PrimFloat.add; nsub := PrimFloat.sub;
  nmul := PrimFloat.mul; ndiv := PrimFloat.div;
  nopp := PrimFloat.opp; nabs := PrimFloat.abs;
  nlt := PrimFloat.ltb; nle := PrimFloat.leb; neqb := PrimFloat.eqb
|}.

(** ** Data shared by both variants *)

(** An integer-valued number that may have become NaN ([n % 0]). *)
Inductive jsint : Type :=
| NaN
| Int (z : Z).

Definition jsint_succ (i : jsint) : jsint :=
  match i with NaN => NaN | Int z => Int (z + 1) end.

(** [a % b] of JavaScript on integers: truncated remainder, NaN when
    the divisor is 0. *)
Definition jsint_rem (i : jsint) (n : Z) : jsint :=
  match i with
  | NaN => NaN
  | Int z => if n =? 0 then NaN else Int (Z.rem z n)
  end.

(** [i === 0]. *)
Definition jsint_is0 (i : jsint) : bool :=
  match i with NaN => false | Int z => z =? 0 end.

Inductive Direction : Type := Right | Left.

Definition isRight (d : Direction) : bool :=
  match d with Right => true | Left => false end.

(** The string a direction holds in the source. *)
Definition dirString (d : Direction) : string :=
  match d with Right => "right" | Left => "left" end.

Record Image : Type := mkImage {
  img_src : string;
  img_width : Z;
  img_height : Z
}.

(** An animation: its frame array (a slot is [None] where the image
    failed to load and the array holds [undefined]) and the optional
    per-animation frame duration. *)
Record Animation : Type := mkAnimation {
  frames : list (option Image);
  frameDuration : option Z
}.

(** [frames[i]]: [undefined] out of range, at a hole, or at NaN. *)
Definition frame_at (fs : list (option Image)) (i : jsint) : option Image :=
  match i with
  | NaN => None
  | Int z =>
      if z <? 0 then None
      else match fs !! Z.to_nat z with
           | Some (Some img) => Some img
           | _ => None
           end
  end.

Inductive JSError : Type := TypeError.

Inductive Result (A : Type) : Type :=
| Ok (a : A)
| Throw (e : JSError).
Arguments Ok {A} a.
Arguments Throw {A} e.

Definition canvas_width : Z := 1024.
Definition canvas_height : Z := 576.

(** One entry of the [keys] object (held directions). *)
Record Keys : Type := mkKeys {
  k_left : bool;
  k_right : bool;
  k_jump : bool
}.

Definition noKeys : Keys := mkKeys false false false.

(** The animation table handed to a constructor: every frame is looked
    up in the preloaded images and is [undefined] when its load failed. *)
Definition spriteSheet (loadedImages : gmap string Image) (who : string)
    (attackDuration : Z) : gmap string Animation :=
  let img (name : string) := loadedImages !! (who +:+ name) in
  list_to_map
    [ ("idleRight", mkAnimation [img "_idleRight"] None);
      ("idleLeft", mkAnimation [img "_idleLeft"] None);
      ("runRight", mkAnimation [img "_runRight1"; img "_runRight2"] None);
      ("runLeft", mkAnimation [img "_runLeft1"; img "_runLeft2"] None);
      ("jumpRight", mkAnimation [img "_jumpRight"] None);
      ("jumpLeft", mkAnimation [img "_jumpLeft"] None);
      ("attackRight",
        mkAnimation [img "_attackRight1"; img "_attackRight2"]
                    (Some attackDuration));
      ("attackLeft",
        mkAnimation [img "_attackLeft1"; img "_attackLeft2"]
                    (Some attackDuration)) ].

Definition idleKey (d : Direction) : string :=
  match d with Right => "idleRight" | Left => "idleLeft" end.
Definition jumpKey (d : Direction) : string :=
  match d with Right => "jumpRight" | Left => "jumpLeft" end.
Definition attackKey (d : Direction) : string :=
  match d with Right => "attackRight" | Left => "attackLeft" end.
Definition runKey (d : Direction) : string :=
  match d with Right => "runRight" | Left => "runLeft" end.

Section Shared.
Context {num : Type} `{!JSNum num}.

Record Vec2 : Type := mkVec2 { x : num; y : num }.

(** Calls received by the 2D context. *)
Inductive DrawCmd : Type :=
| DrawImage (img : Image) (dx dy dw dh : num)
| FillRect (fillStyle : string) (rx ry rw rh : num).

Definition gravity : num := lit 7 10.

End Shared.
Arguments Vec2 : clear implicits.
Arguments DrawCmd : clear implicits.

(** ** The base variant (src/game5.js) *)

Module Base.
Section Defs.
Context {num : Type} `{!JSNum num}.
Local Open Scope js_scope.

(** *** class Fighter *)

Record Fighter : Type := mkFighter {
  position : Vec2 num;
  velocity : Vec2 num;
  animations : gmap string Animation;
  currentAnimation : string;
  scale : num;
  offset : Vec2 num;
  width : num;
  height : num;
  health : Z;
  maxHealth : Z;
  isAttacking : bool;
  attackCooldown : Z;
  attackDamage : Z;
  framesElapsed : Z;
  framesHold : Z;
  currentFrame : jsint;
  lastDirection : Direction
}.

Definition set_position (v : Vec2 num) (f : Fighter) : Fighter :=
  mkFighter v (velocity f) (animations f) (currentAnimation f) (scale f)
  (offset f) (width f) (height f) (health f) (maxHealth f) (isAttacking f)
  (attackCooldown f) (attackDamage f) (framesElapsed f) (framesHold f)
  (currentFrame f) (lastDirection f).
Definition set_velocity (v : Vec2 num) (f : Fighter) : Fighter :=
  mkFighter (position f) v (animations f) (currentAnimation f) (scale f)
  (offset f) (width f) (height f) (health f) (maxHealth f) (isAttacking f)
  (attackCooldown f) (attackDamage f) (framesElapsed f) (framesHold f)
  (currentFrame f) (lastDirection f).
Definition set_currentAnimation (v : string) (f : Fighter) : Fighter :=
  mkFighter (position f) (velocity f) (animations f) v (scale f) (offset f)
  (width f) (height f) (health f) (maxHealth f) (isAttacking f)
  (attackCooldown f) (attackDamage f) (framesElapsed f) (framesHold f)
  (currentFrame f) (lastDirection f).
Definition set_health (v : Z) (f : Fighter) : Fighter :=
  mkFighter (position f) (velocity f) (animations f) (currentAnimation f)
  (scale f) (offset f) (width f) (height f) v (maxHealth f) (isAttacking f)
  (attackCooldown f) (attackDamage f) (framesElapsed f) (framesHold f)
  (currentFrame f) (lastDirection f).
Definition set_isAttacking (v : bool) (f : Fighter) : Fighter :=
  mkFighter (position f) (velocity f) (animations f) (currentAnimation f)
  (scale f) (offset f) (width f) (height f) (health f) (maxHealth f) v
  (attackCooldown f) (attackDamage f) (framesElapsed f) (framesHold f)
  (currentFrame f) (lastDirection f).
Definition set_attackCooldown (v : Z) (f : Fighter) : Fighter :=
  mkFighter (position f) (velocity f) (animations f) (currentAnimation f)
  (scale f) (offset f) (width f) (height f) (health f) (maxHealth f)
  (isAttacking f) v (attackDamage f) (framesElapsed f) (framesHold f)
  (currentFrame f) (lastDirection f).
Definition set_framesElapsed (v : Z) (f : Fighter) : Fighter :=
  mkFighter (position f) (velocity f) (animations f) (currentAnimation f)
  (scale f) (offset f) (width f) (height f) (health f) (maxHealth f)
  (isAttacking f) (attackCooldown f) (attackDamage f) v (framesHold f)
  (currentFrame f) (lastDirection f).
Definition set_currentFrame (v : jsint) (f : Fighter) : Fighter :=
  mkFighter (position f) (velocity f) (animations f) (currentAnimation f)
  (scale f) (offset f) (width f) (height f) (health f) (maxHealth f)
  (isAttacking f) (attackCooldown f) (attackDamage f) (framesElapsed f)
  (framesHold f) v (lastDirection f).
Definition set_lastDirection (v : Direction) (f : Fighter) : Fighter :=
  mkFighter (position f) (velocity f) (animations f) (currentAnimation f)
  (scale f) (offset f) (width f) (height f) (health f) (maxHealth f)
  (isAttacking f) (attackCooldown f) (attackDamage f) (framesElapsed f)
  (framesHold f) (currentFrame f) v.

(** The constructor.  Width, height, health, damage and the frame hold
    are fixed by the class, whatever the caller passes. *)
Definition newFighter (position velocity : Vec2 num)
    (animations : gmap string Animation) (scale : num) (offset : Vec2 num)
    : Fighter :=
  {| position := position; velocity := velocity; animations := animations;
     currentAnimation := "idleRight"; scale := scale; offset := offset;
     width := ofZ 50; height := ofZ 150;
     health := 100; maxHealth := 100;
     isAttacking := false; attackCooldown := 0; attackDamage := 10;
     framesElapsed := 0; framesHold := 10; currentFrame := Int 0;
     lastDirection := Right |}.

Definition setAnimation (animationKey : string) (f : Fighter) : Fighter :=
  if decide (currentAnimation f = animationKey) then f
  else set_currentFrame (Int 0) (set_currentAnimation animationKey f).

Definition drawFrame (f : Fighter) (img : Image) : DrawCmd num :=
  DrawImage img
    (x (position f) + x (offset f)) (y (position f) + y (offset f))
    (ofZ (img_width img) * scale f) (ofZ (img_height img) * scale f).

(** [draw(ctx)]: the calls made on the context, or the TypeError raised
    by reading a property of [undefined]. *)
Definition draw (f : Fighter) : Result (list (DrawCmd num)) :=
  let animation := animations f !! currentAnimation f in
  match animation ≫= (fun a => frame_at (frames a) (currentFrame f)) with
  | None =>
      let fallbackAnim := idleKey (lastDirection f) in
      match animations f !! fallbackAnim with
      | None => Throw TypeError
      | Some a =>
          match frame_at (frames a) (Int 0) with
          | None => Throw TypeError
          | Some fallbackFrame => Ok [drawFrame f fallbackFrame]
          end
      end
  | Some frameImage => Ok [drawFrame f frameImage]
  end.

Definition healthBar (f : Fighter) (isPlayer : bool) : DrawCmd num :=
  FillRect (if isPlayer then "red" else "blue")
    (x (position f) + x (offset f))
    (y (position f) + y (offset f) - ofZ 20)
    ((width f * scale f) * (ofZ (health f) / ofZ (maxHealth f)))
    (ofZ 5).

(** The statements of [update] after the drawing, in source order. *)
Definition advanceFrame (f : Fighter) : Fighter :=
  let f := set_framesElapsed (framesElapsed f + 1) f in
  match animations f !! currentAnimation f with
  | Some animation =>
      let frameDuration :=
        match frameDuration animation with
        | Some d => if (d =? 0)%Z then framesHold f else d
        | None => framesHold f
        end in
      if jsint_is0 (jsint_rem (Int (framesElapsed f)) frameDuration)
      then set_currentFrame
             (jsint_rem (jsint_succ (currentFrame f))
                        (Z.of_nat (length (frames animation)))) f
      else f
  | None => f
  end.

Definition integrate (f : Fighter) : Fighter :=
  set_position
    {| x := x (position f) + x (velocity f);
       y := y (position f) + y (velocity f) |} f.

Definition screenBoundaries (f : Fighter) : Fighter :=
  let f := if x (position f) <? ofZ 0
           then set_position {| x := ofZ 0; y := y (position f) |} f
           else f in
  if x (position f) + width f >? ofZ canvas_width
  then set_position
         {| x := ofZ canvas_width - width f; y := y (position f) |} f
  else f.

Definition groundOrGravity (f : Fighter) : Fighter :=
  if y (position f) + height f >=? ofZ canvas_height
  then
    let f := set_velocity {| x := x (velocity f); y := ofZ 0 |} f in
    set_position
      {| x := x (position f); y := ofZ canvas_height - height f |} f
  else
    set_velocity {| x := x (velocity f); y := y (velocity f) + gravity |} f.

Definition attackCooldownTick (f : Fighter) : Fighter :=
  if (attackCooldown f >? 0)%Z
  then set_attackCooldown (attackCooldown f - 1) f
  else if isAttacking f then set_isAttacking false f
  else f.

Definition tick (f : Fighter) : Fighter :=
  attackCooldownTick
    (groundOrGravity (screenBoundaries (integrate (advanceFrame f)))).

(** [update(ctx, playerRef)]; [isPlayer] is [this === playerRef]. *)
Definition update (f : Fighter) (isPlayer : bool)
    : Result (Fighter * list (DrawCmd num)) :=
  match draw f with
  | Throw e => Throw e
  | Ok cmds => Ok (tick f, cmds ++ [healthBar f isPlayer])
  end.

(** The condition of the hit test of [attack]. *)
Definition hits (attackRange : num) (this target : Fighter) : bool :=
  let isFacingRight := isRight (lastDirection this) in
  let attackStartX :=
    if isFacingRight then x (position this) + width this
    else x (position this) - attackRange in
  let attackEndX :=
    if isFacingRight then x (position this) + width this + attackRange
    else x (position this) in
  (attackEndX >? x (position target))
  && (attackStartX <? x (position target) + width target)
  && (y (position this) <? y (position target) + height target)
  && (y (position this) + height this >? y (position target)).

Definition takeHit (damage : Z) (target : Fighter) : Fighter :=
  let target := set_health (health target - damage) target in
  if (health target <? 0)%Z then set_health 0 target else target.

(** [this.attack(target)] on two distinct fighters: the attacker and
    the target after the call. *)
Definition attack (this target : Fighter) : Fighter * Fighter :=
  if (attackCooldown this <=? 0)%Z then
    let this := set_isAttacking true this in
    let this := set_attackCooldown 120 this in
    let attackRange := ofZ 100 in
    if hits attackRange this target
    then (this, takeHit (attackDamage this) target)
    else (this, target)
  else (this, target).

(** *** The page: two fighters, the held keys, the frame loop *)

Record World : Type := mkWorld {
  player : Fighter;
  enemy : Fighter;
  keys_player : Keys;
  keys_enemy : Keys;
  gameRunning : bool;
  frameRequested : bool   (* a call of gameLoop is pending *)
}.

Definition initWorld (loadedImages : gmap string Image) : World :=
  {| player :=
       newFighter {| x := ofZ 100; y := ofZ 426 |}
                  {| x := ofZ 0; y := ofZ 0 |}
                  (spriteSheet loadedImages "eren" 775)
                  (ofZ 2) {| x := ofZ 0; y := ofZ 0 |};
     enemy :=
       newFighter {| x := ofZ canvas_width - ofZ 200; y := ofZ 426 |}
                  {| x := ofZ 0; y := ofZ 0 |}
                  (spriteSheet loadedImages "levi" 775)
                  (ofZ 2) {| x := ofZ 0; y := ofZ 0 |};
     keys_player := noKeys; keys_enemy := noKeys;
     gameRunning := true; frameRequested := true |}.

Definition setVelocityX (v : num) (f : Fighter) : Fighter :=
  set_velocity {| x := v; y := y (velocity f) |} f.
Definition setVelocityY (v : num) (f : Fighter) : Fighter :=
  set_velocity {| x := x (velocity f); y := v |} f.

(** The movement logic of [animate], the same for both fighters. *)
Definition movementLogic (k : Keys) (f : Fighter) : Fighter :=
  if k_left k then
    set_lastDirection Left (setAnimation "runLeft" (setVelocityX (ofZ (-5)) f))
  else if k_right k then
    set_lastDirection Right (setAnimation "runRight" (setVelocityX (ofZ 5) f))
  else
    let f := setVelocityX (ofZ 0) f in
    setAnimation (idleKey (lastDirection f)) f.

(** [gameLoop]: one frame.  An exception escaping [update] ends the
    callback where it is raised and the loop is never requested again. *)
Definition gameLoop (w : World) : World :=
  if negb (gameRunning w) then
    mkWorld (player w) (enemy w) (keys_player w) (keys_enemy w)
            (gameRunning w) false
  else
    match update (player w) true with
    | Throw _ =>
        mkWorld (player w) (enemy w) (keys_player w) (keys_enemy w)
                (gameRunning w) false
    | Ok (p, _) =>
        match update (enemy w) false with
        | Throw _ =>
            mkWorld p (enemy w) (keys_player w) (keys_enemy w)
                    (gameRunning w) false
        | Ok (e, _) =>
            let p := movementLogic (keys_player w) p in
            let e := movementLogic (keys_enemy w) e in
            if (health p <=? 0)%Z || (health e <=? 0)%Z
            then mkWorld p e (keys_player w) (keys_enemy w) false false
            else mkWorld p e (keys_player w) (keys_enemy w) true true
        end
    end.

Definition jump (f : Fighter) : Fighter :=
  if y (position f) + height f >=? ofZ canvas_height
  then setAnimation (jumpKey (lastDirection f)) (setVelocityY (ofZ (-20)) f)
  else f.

Definition keydown (key : string) (w : World) : World :=
  let kp := keys_player w in
  let ke := keys_enemy w in
  if String.eqb key "a" then
    mkWorld (player w) (enemy w) (mkKeys true (k_right kp) (k_jump kp)) ke
            (gameRunning w) (frameRequested w)
  else if String.eqb key "d" then
    mkWorld (player w) (enemy w) (mkKeys (k_left kp) true (k_jump kp)) ke
            (gameRunning w) (frameRequested w)
  else if String.eqb key "w" then
    mkWorld (jump (player w)) (enemy w) kp ke
            (gameRunning w) (frameRequested w)
  else if String.eqb key " " then
    let '(p, e) := attack (player w) (enemy w) in
    mkWorld (setAnimation (attackKey (lastDirection p)) p) e kp ke
            (gameRunning w) (frameRequested w)
  else if String.eqb key "ArrowLeft" then
    mkWorld (player w) (enemy w) kp (mkKeys true (k_right ke) (k_jump ke))
            (gameRunning w) (frameRequested w)
  else if String.eqb key "ArrowRight" then
    mkWorld (player w) (enemy w) kp (mkKeys (k_left ke) true (k_jump ke))
            (gameRunning w) (frameRequested w)
  else if String.eqb key "ArrowUp" then
    mkWorld (player w) (jump (enemy w)) kp ke
            (gameRunning w) (frameRequested w)
  else if String.eqb key "k" then
    let '(e, p) := attack (enemy w) (player w) in
    mkWorld p (setAnimation (attackKey (lastDirection e)) e) kp ke
            (gameRunning w) (frameRequested w)
  else w.

Definition keyup (key : string) (w : World) : World :=
  let kp := keys_player w in
  let ke := keys_enemy w in
  if String.eqb key "a" then
    mkWorld (player w) (enemy w) (mkKeys false (k_right kp) (k_jump kp)) ke
            (gameRunning w) (frameRequested w)
  else if String.eqb key "d" then
    mkWorld (player w) (enemy w) (mkKeys (k_left kp) false (k_jump kp)) ke
            (gameRunning w) (frameRequested w)
  else if String.eqb key "ArrowLeft" then
    mkWorld (player w) (enemy w) kp (mkKeys false (k_right ke) (k_jump ke))
            (gameRunning w) (frameRequested w)
  else if String.eqb key "ArrowRight" then
    mkWorld (player w) (enemy w) kp (mkKeys (k_left ke) false (k_jump ke))
            (gameRunning w) (frameRequested w)
  else w.

(** What the browser delivers to the page. *)
Inductive Event : Type :=
| Frame
| KeyDown (key : string)
| KeyUp (key : string).

Definition step (ev : Event) (w : World) : World :=
  match ev with
  | Frame => if frameRequested w then gameLoop w else w
  | KeyDown key => keydown key w
  | KeyUp key => keyup key w
  end.

Inductive reachable (loadedImages : gmap string Image) : World -> Prop :=
| reach_init : reachable loadedImages (initWorld loadedImages)
| reach_step w ev :
    reachable loadedImages w -> reachable loadedImages (step ev w).

End Defs.
Arguments Fighter : clear implicits.
Arguments World : clear implicits.
End Base.

(** ** The enhanced variant (dodge, combo, AI opponent) *)

Module Enhanced.
Section Defs.
Context {num : Type} `{!JSNum num}.
Local Open Scope js_scope.

(** *** class Fighter *)

Record Fighter : Type := mkFighter {
  position : Vec2 num;
  velocity : Vec2 num;
  animations : gmap string Animation;
  currentAnimation : string;
  scale : num;
  offset : Vec2 num;
  width : num;
  height : num;
  health : Z;
  maxHealth : Z;
  isAttacking : bool;
  attackCooldown : Z;
  attackDamage : Z;
  isDodging : bool;
  dodgeCooldown : Z;
  dodgeDuration : Z;
  dodgeSpeed : num;
  canCombo : bool;
  comboCount : Z;
  lastAttackTime : Z;
  framesElapsed : Z;
  framesHold : Z;
  currentFrame : jsint;
  lastDirection : Direction
}.

Definition set_position (v : Vec2 num) (f : Fighter) : Fighter :=
  mkFighter v (velocity f) (animations f) (currentAnimation f) (scale f)
  (offset f) (width f) (height f) (health f) (maxHealth f) (isAttacking f)
  (attackCooldown f) (attackDamage f) (isDodging f) (dodgeCooldown f)
  (dodgeDuration f) (dodgeSpeed f) (canCombo f) (comboCount f)
  (lastAttackTime f) (framesElapsed f) (framesHold f) (currentFrame f)
  (lastDirection f).
Definition set_velocity (v : Vec2 num) (f : Fighter) : Fighter :=
  mkFighter (position f) v (animations f) (currentAnimation f) (scale f)
  (offset f) (width f) (height f) (health f) (maxHealth f) (isAttacking f)
  (attackCooldown f) (attackDamage f) (isDodging f) (dodgeCooldown f)
  (dodgeDuration f) (dodgeSpeed f) (canCombo f) (comboCount f)
  (lastAttackTime f) (framesElapsed f) (framesHold f) (currentFrame f)
  (lastDirection f).
Definition set_animations (v : gmap string Animation) (f : Fighter) : Fighter :=
  mkFighter (position f) (velocity f) v (currentAnimation f) (scale f)
  (offset f) (width f) (height f) (health f) (maxHealth f) (isAttacking f)
  (attackCooldown f) (attackDamage f) (isDodging f) (dodgeCooldown f)
  (dodgeDuration f) (dodgeSpeed f) (canCombo f) (comboCount f)
  (lastAttackTime f) (framesElapsed f) (framesHold f) (currentFrame f)
  (lastDirection f).
Definition set_currentAnimation (v : string) (f : Fighter) : Fighter :=
  mkFighter (position f) (velocity f) (animations f) v (scale f) (offset f)
  (width f) (height f) (health f) (maxHealth f) (isAttacking f)
  (attackCooldown f) (attackDamage f) (isDodging f) (dodgeCooldown f)
  (dodgeDuration f) (dodgeSpeed f) (canCombo f) (comboCount f)
  (lastAttackTime f) (framesElapsed f) (framesHold f) (currentFrame f)
  (lastDirection f).
Definition set_health (v : Z) (f : Fighter) : Fighter :=
  mkFighter (position f) (velocity f) (animations f) (currentAnimation f)
  (scale f) (offset f) (width f) (height f) v (maxHealth f) (isAttacking f)
  (attackCooldown f) (attackDamage f) (isDodging f) (dodgeCooldown f)
  (dodgeDuration f) (dodgeSpeed f) (canCombo f) (comboCount f)
  (lastAttackTime f) (framesElapsed f) (framesHold f) (currentFrame f)
  (lastDirection f).
Definition set_isAttacking (v : bool) (f : Fighter) : Fighter :=
  mkFighter (position f) (velocity f) (animations f) (currentAnimation f)
  (scale f) (offset f) (width f) (height f) (health f) (maxHealth f) v
  (attackCooldown f) (attackDamage f) (isDodging f) (dodgeCooldown f)
  (dodgeDuration f) (dodgeSpeed f) (canCombo f) (comboCount f)
  (lastAttackTime f) (framesElapsed f) (framesHold f) (currentFrame f)
  (lastDirection f).
Definition set_attackCooldown (v : Z) (f : Fighter) : Fighter :=
  mkFighter (position f) (velocity f) (animations f) (currentAnimation f)
  (scale f) (offset f) (width f) (height f) (health f) (maxHealth f)
  (isAttacking f) v (attackDamage f) (isDodging f) (dodgeCooldown f)
  (dodgeDuration f) (dodgeSpeed f) (canCombo f) (comboCount f)
  (lastAttackTime f) (framesElapsed f) (framesHold f) (currentFrame f)
  (lastDirection f).
Definition set_isDodging (v : bool) (f : Fighter) : Fighter :=
  mkFighter (position f) (velocity f) (animations f) (currentAnimation f)
  (scale f) (offset f) (width f) (height f) (health f) (maxHealth f)
  (isAttacking f) (attackCooldown f) (attackDamage f) v (dodgeCooldown f)
  (dodgeDuration f) (dodgeSpeed f) (canCombo f) (comboCount f)
  (lastAttackTime f) (framesElapsed f) (framesHold f) (currentFrame f)
  (lastDirection f).
Definition set_dodgeCooldown (v : Z) (f : Fighter) : Fighter :=
  mkFighter (position f) (velocity f) (animations f) (currentAnimation f)
  (scale f) (offset f) (width f) (height f) (health f) (maxHealth f)
  (isAttacking f) (attackCooldown f) (attackDamage f) (isDodging f) v
  (dodgeDuration f) (dodgeSpeed f) (canCombo f) (comboCount f)
  (lastAttackTime f) (framesElapsed f) (framesHold f) (currentFrame f)
  (lastDirection f).
Definition set_dodgeDuration (v : Z) (f : Fighter) : Fighter :=
  mkFighter (position f) (velocity f) (animations f) (currentAnimation f)
  (scale f) (offset f) (width f) (height f) (health f) (maxHealth f)
  (isAttacking f) (attackCooldown f) (attackDamage f) (isDodging f)
  (dodgeCooldown f) v (dodgeSpeed f) (canCombo f) (comboCount f)
  (lastAttackTime f) (framesElapsed f) (framesHold f) (currentFrame f)
  (lastDirection f).
Definition set_canCombo (v : bool) (f : Fighter) : Fighter :=
  mkFighter (position f) (velocity f) (animations f) (currentAnimation f)
  (scale f) (offset f) (width f) (height f) (health f) (maxHealth f)
  (isAttacking f) (attackCooldown f) (attackDamage f) (isDodging f)
  (dodgeCooldown f) (dodgeDuration f) (dodgeSpeed f) v (comboCount f)
  (lastAttackTime f) (framesElapsed f) (framesHold f) (currentFrame f)
  (lastDirection f).
Definition set_comboCount (v : Z) (f : Fighter) : Fighter :=
  mkFighter (position f) (velocity f) (animations f) (currentAnimation f)
  (scale f) (offset f) (width f) (height f) (health f) (maxHealth f)
  (isAttacking f) (attackCooldown f) (attackDamage f) (isDodging f)
  (dodgeCooldown f) (dodgeDuration f) (dodgeSpeed f) (canCombo f) v
  (lastAttackTime f) (framesElapsed f) (framesHold f) (currentFrame f)
  (lastDirection f).
Definition set_lastAttackTime (v : Z) (f : Fighter) : Fighter :=
  mkFighter (position f) (velocity f) (animations f) (currentAnimation f)
  (scale f) (offset f) (width f) (height f) (health f) (maxHealth f)
  (isAttacking f) (attackCooldown f) (attackDamage f) (isDodging f)
  (dodgeCooldown f) (dodgeDuration f) (dodgeSpeed f) (canCombo f)
  (comboCount f) v (framesElapsed f) (framesHold f) (currentFrame f)
  (lastDirection f).
Definition set_framesElapsed (v : Z) (f : Fighter) : Fighter :=
  mkFighter (position f) (velocity f) (animations f) (currentAnimation f)
  (scale f) (offset f) (width f) (height f) (health f) (maxHealth f)
  (isAttacking f) (attackCooldown f) (attackDamage f) (isDodging f)
  (dodgeCooldown f) (dodgeDuration f) (dodgeSpeed f) (canCombo f)
  (comboCount f) (lastAttackTime f) v (framesHold f) (currentFrame f)
  (lastDirection f).
Definition set_currentFrame (v : jsint) (f : Fighter) : Fighter :=
  mkFighter (position f) (velocity f) (animations f) (currentAnimation f)
  (scale f) (offset f) (width f) (height f) (health f) (maxHealth f)
  (isAttacking f) (attackCooldown f) (attackDamage f) (isDodging f)
  (dodgeCooldown f) (dodgeDuration f) (dodgeSpeed f) (canCombo f)
  (comboCount f) (lastAttackTime f) (framesElapsed f) (framesHold f) v
  (lastDirection f).
Definition set_lastDirection (v : Direction) (f : Fighter) : Fighter :=
  mkFighter (position f) (velocity f) (animations f) (currentAnimation f)
  (scale f) (offset f) (width f) (height f) (health f) (maxHealth f)
  (isAttacking f) (attackCooldown f) (attackDamage f) (isDodging f)
  (dodgeCooldown f) (dodgeDuration f) (dodgeSpeed f) (canCombo f)
  (comboCount f) (lastAttackTime f) (framesElapsed f) (framesHold f)
  (currentFrame f) v.

(** The constructor destructures only position, velocity, animations,
    scale and offset: the [health], [maxHealth] and [attackDamage] the
    page passes for the enemy are ignored. *)
Definition newFighter (position velocity : Vec2 num)
    (animations : gmap string Animation) (scale : num) (offset : Vec2 num)
    : Fighter :=
  {| position := position; velocity := velocity; animations := animations;
     currentAnimation := "idleRight"; scale := scale; offset := offset;
     width := ofZ 50; height := ofZ 150;
     health := 200; maxHealth := 200;
     isAttacking := false; attackCooldown := 0; attackDamage := 15;
     isDodging := false; dodgeCooldown := 0; dodgeDuration := 15;
     dodgeSpeed := ofZ 12;
     canCombo := false; comboCount := 0; lastAttackTime := 0;
     framesElapsed := 0; framesHold := 10; currentFrame := Int 0;
     lastDirection := Right |}.

Definition setAnimation (animationKey : string) (f : Fighter) : Fighter :=
  if decide (currentAnimation f = animationKey) then f
  else set_currentFrame (Int 0) (set_currentAnimation animationKey f).

Definition drawFrame (f : Fighter) (img : Image) : DrawCmd num :=
  DrawImage img
    (x (position f) + x (offset f)) (y (position f) + y (offset f))
    (ofZ (img_width img) * scale f) (ofZ (img_height img) * scale f).

(** [draw(ctx)]: the calls made on the context, or the TypeError raised
    by reading a property of [undefined]. *)
Definition draw (f : Fighter) : Result (list (DrawCmd num)) :=
  let animation := animations f !! currentAnimation f in
  match animation ≫= (fun a => frame_at (frames a) (currentFrame f)) with
  | None =>
      let fallbackAnim := idleKey (lastDirection f) in
      match animations f !! fallbackAnim with
      | None => Throw TypeError
      | Some a =>
          match frame_at (frames a) (Int 0) with
          | None => Throw TypeError
          | Some fallbackFrame => Ok [drawFrame f fallbackFrame]
          end
      end
  | Some frameImage => Ok [drawFrame f frameImage]
  end.

Definition healthBar (f : Fighter) (isPlayer : bool) : DrawCmd num :=
  FillRect (if isPlayer then "red" else "blue")
    (x (position f) + x (offset f))
    (y (position f) + y (offset f) - ofZ 20)
    ((width f * scale f) * (ofZ (health f) / ofZ (maxHealth f)))
    (ofZ 5).

(** The statements of [update] after the drawing, in source order. *)
Definition advanceFrame (f : Fighter) : Fighter :=
  let f := set_framesElapsed (framesElapsed f + 1) f in
  match animations f !! currentAnimation f with
  | Some animation =>
      let frameDuration :=
        match frameDuration animation with
        | Some d => if (d =? 0)%Z then framesHold f else d
        | None => framesHold f
        end in
      if jsint_is0 (jsint_rem (Int (framesElapsed f)) frameDuration)
      then set_currentFrame
             (jsint_rem (jsint_succ (currentFrame f))
                        (Z.of_nat (length (frames animation)))) f
      else f
  | None => f
  end.

Definition integrate (f : Fighter) : Fighter :=
  set_position
    {| x := x (position f) + x (velocity f);
       y := y (position f) + y (velocity f) |} f.

Definition screenBoundaries (f : Fighter) : Fighter :=
  let f := if x (position f) <? ofZ 0
           then set_position {| x := ofZ 0; y := y (position f) |} f
           else f in
  if x (position f) + width f >? ofZ canvas_width
  then set_position
         {| x := ofZ canvas_width - width f; y := y (position f) |} f
  else f.

Definition groundOrGravity (f : Fighter) : Fighter :=
  if y (position f) + height f >=? ofZ canvas_height
  then
    let f := set_velocity {| x := x (velocity f); y := ofZ 0 |} f in
    set_position
      {| x := x (position f); y := ofZ canvas_height - height f |} f
  else
    set_velocity {| x := x (velocity f); y := y (velocity f) + gravity |} f.

Definition cooldownsTick (f : Fighter) : Fighter :=
  let f := if (attackCooldown f >? 0)%Z
           then set_attackCooldown (attackCooldown f - 1) f else f in
  if (dodgeCooldown f >? 0)%Z
  then set_dodgeCooldown (dodgeCooldown f - 1) f else f.

Definition resetAttackState (f : Fighter) : Fighter :=
  if (attackCooldown f <=? 0)%Z && isAttacking f
  then set_canCombo true (set_isAttacking false f)
  else f.

Definition setVelocityX (v : num) (f : Fighter) : Fighter :=
  set_velocity {| x := v; y := y (velocity f) |} f.
Definition setVelocityY (v : num) (f : Fighter) : Fighter :=
  set_velocity {| x := x (velocity f); y := v |} f.

Definition dodgeTick (f : Fighter) : Fighter :=
  if isDodging f then
    let f := set_dodgeDuration (dodgeDuration f - 1) f in
    if (dodgeDuration f <=? 0)%Z then
      let f := set_isDodging false f in
      let f := set_dodgeCooldown 45 f in
      let f := setVelocityX (ofZ 0) f in
      setAnimation (idleKey (lastDirection f)) f
    else f
  else f.

Definition tick (f : Fighter) : Fighter :=
  dodgeTick
    (resetAttackState
       (cooldownsTick
          (groundOrGravity (screenBoundaries (integrate (advanceFrame f)))))).

(** [update(ctx, playerRef)]; [isPlayer] is [this === playerRef]. *)
Definition update (f : Fighter) (isPlayer : bool)
    : Result (Fighter * list (DrawCmd num)) :=
  match draw f with
  | Throw e => Throw e
  | Ok cmds => Ok (tick f, cmds ++ [healthBar f isPlayer])
  end.

(** The condition of the hit test of [attack]. *)
Definition hits (attackRange : num) (this target : Fighter) : bool :=
  let isFacingRight := isRight (lastDirection this) in
  let attackStartX :=
    if isFacingRight then x (position this) + width this
    else x (position this) - attackRange in
  let attackEndX :=
    if isFacingRight then x (position this) + width this + attackRange
    else x (position this) in
  (attackEndX >? x (position target))
  && (attackStartX <? x (position target) + width target)
  && (y (position this) <? y (position target) + height target)
  && (y (position this) + height this >? y (position target)).

Definition takeHit (damage : Z) (target : Fighter) : Fighter :=
  let target := set_health (health target - damage) target in
  if (health target <? 0)%Z then set_health 0 target else target.

(** [this.attack(target)] on two distinct fighters, [now] being the
    value of [Date.now()]: the attacker and the target after the call. *)
Definition attack (now : Z) (this target : Fighter) : Fighter * Fighter :=
  let comboWindow := 500%Z in
  if (attackCooldown this <=? 0)%Z && negb (isDodging this) then
    let this := set_isAttacking true this in
    let this :=
      if (now - lastAttackTime this <? comboWindow)%Z && canCombo this
      then set_comboCount (Z.rem (comboCount this + 1) 3) this
      else set_comboCount 0 this in
    let this := set_attackCooldown (30 - comboCount this * 5) this in
    let this := set_lastAttackTime now this in
    let attackRange := ofZ 120 in
    if hits attackRange this target
    then (this, takeHit (attackDamage this) target)
    else (this, target)
  else (this, target).

(** *** class AIController

    The controller holds references to its own fighter and to its
    target; here they are passed in and handed back.  [Math.random()]
    is a supply [random]: the k-th call made during one [update]
    returns [random k]. *)

Record AIController : Type := mkAIController {
  nextActionTime : Z;
  difficulty : num;
  state : string;
  comboStep : Z;
  attackPatterns : list (Z * Z);   (* delay, count *)
  fatigue : Z;
  ai_attackCooldown : Z            (* the controller's own attackCooldown *)
}.

Definition newAIController : AIController :=
  {| nextActionTime := 0; difficulty := lit 4 1; state := "patrol";
     comboStep := 0;
     attackPatterns := [(600, 1); (400, 2); (300, 3); (200, 4)];
     fatigue := 0; ai_attackCooldown := 0 |}.

Definition set_gate (t : Z) (ai : AIController) : AIController :=
  mkAIController t (difficulty ai) (state ai) (comboStep ai)
    (attackPatterns ai) (fatigue ai) (ai_attackCooldown ai).
Definition set_ai_attackCooldown (c : Z) (ai : AIController) : AIController :=
  mkAIController (nextActionTime ai) (difficulty ai) (state ai) (comboStep ai)
    (attackPatterns ai) (fatigue ai) c.

(** Methods of the fighter invoked by the controller, in call order. *)
Inductive Call : Type :=
| CallSetAnimation (animationKey : string)
| CallAttack.

Record AIResult : Type := mkAIResult {
  ai_after : AIController;
  fighter_after : Fighter;
  target_after : Fighter;
  calls : list Call;
  randomDraws : nat     (* how many times Math.random() was called *)
}.

(** "Ensure animation object exists" and "Set frame duration if not
    already set". *)
Definition ensureAnimation (attackAnim : string) (f : Fighter) : Fighter :=
  let f :=
    match animations f !! attackAnim with
    | None =>
        set_animations (<[attackAnim := mkAnimation [] (Some 5)]> (animations f)) f
    | Some _ => f
    end in
  match animations f !! attackAnim with
  | Some a =>
      match frameDuration a with
      | None =>
          set_animations
            (<[attackAnim := mkAnimation (frames a) (Some 5)]> (animations f)) f
      | Some _ => f
      end
  | None => f
  end.

(** The body of [if (shouldAttack) { ... return; }]. *)
Definition attackBranch (now attackNow : Z) (direction : Direction)
    (drawn : nat) (ai : AIController) (fighter target : Fighter) : AIResult :=
  let attackAnim := "attack" +:+ dirString direction in
  let fighter := setAnimation attackAnim fighter in
  let fighter := ensureAnimation attackAnim fighter in
  let '(fighter, target) := attack attackNow fighter target in
  let ai := set_ai_attackCooldown 5 ai in
  let ai := set_gate (now + 50) ai in
  let predictX := x (position target) + x (velocity target) * lit 7 10 in
  let predictDistance := predictX - x (position fighter) in
  let fighter :=
    setVelocityX (if predictDistance >? ofZ 0 then ofZ 3 else ofZ (-3)) fighter in
  mkAIResult ai fighter target [CallSetAnimation attackAnim; CallAttack] drawn.

(** The rest of [update]: movement, jump, default gate. *)
Definition moveBranch (now : Z) (random : nat -> num) (direction : Direction)
    (distanceX absDistanceX : num) (drawn : nat)
    (ai : AIController) (fighter target : Fighter) : AIResult :=
  let chaseSpeed := ofZ 5 in
  let edgeThreshold := ofZ 100 in
  let nearLeftEdge := x (position fighter) <? edgeThreshold in
  let nearRightEdge :=
    x (position fighter) >? ofZ canvas_width - width fighter - edgeThreshold in
  let fighter :=
    if (nearLeftEdge && (distanceX <? ofZ 0))
       || (nearRightEdge && (distanceX >? ofZ 0))
    then
      let fighter :=
        setVelocityX (if distanceX >? ofZ 0 then - chaseSpeed else chaseSpeed)
                     fighter in
      if y (position fighter) + height fighter >=? ofZ canvas_height
      then setVelocityY (ofZ (-15)) fighter
      else fighter
    else
      let predictX := x (position target) + x (velocity target) * lit 5 10 in
      let predictDistance := predictX - x (position fighter) in
      setVelocityX (if predictDistance >? ofZ 0 then chaseSpeed else - chaseSpeed)
                   fighter in
  let runAnim :=
    if x (velocity fighter) >? ofZ 0 then "runRight" else "runLeft" in
  let fighter := setAnimation runAnim fighter in
  let fighter := set_lastDirection direction fighter in
  if y (position fighter) + height fighter >=? ofZ canvas_height then
    let certain := (absDistanceX >? ofZ 80) || (nearLeftEdge || nearRightEdge) in
    let shouldJump := certain || (random drawn <? lit 4 10) in
    let drawn := if certain then drawn else S drawn in
    if shouldJump then
      let fighter := setVelocityY (ofZ (-22)) fighter in
      let fighter := setVelocityX (x (velocity fighter) * lit 18 10) fighter in
      let jumpAnim := jumpKey (lastDirection fighter) in
      let fighter := setAnimation jumpAnim fighter in
      let ai := set_gate (now + 30) ai in
      mkAIResult (set_gate (now + 100) ai) fighter target
        [CallSetAnimation runAnim; CallSetAnimation jumpAnim] drawn
    else
      mkAIResult (set_gate (now + 100) ai) fighter target
        [CallSetAnimation runAnim] drawn
  else
    mkAIResult (set_gate (now + 100) ai) fighter target
      [CallSetAnimation runAnim] drawn.

(** [AIController.update()]; [now] is the value of [Date.now()] read by
    the controller and [attackNow] the one read inside [attack]. *)
Definition aiUpdate (now attackNow : Z) (random : nat -> num)
    (ai : AIController) (fighter target : Fighter) : AIResult :=
  if (now <? nextActionTime ai)%Z then mkAIResult ai fighter target [] 0
  else
    let distanceX := x (position target) - x (position fighter) in
    let distanceY := y (position target) - y (position fighter) in
    let absDistanceX := nabs distanceX in
    let absDistanceY := nabs distanceY in
    let direction := if distanceX >? ofZ 0 then Right else Left in
    let inAttackRange :=
      (absDistanceX <? ofZ 150) && (absDistanceY <? ofZ 100) in
    let shouldAttack :=
      inAttackRange
      || ((absDistanceX <? ofZ 200) && (random 0%nat <? lit 3 10)) in
    let drawn :=
      if negb inAttackRange && (absDistanceX <? ofZ 200) then 1%nat else 0%nat in
    if shouldAttack
    then attackBranch now attackNow direction drawn ai fighter target
    else moveBranch now random direction distanceX absDistanceX drawn
                    ai fighter target.

(** *** The page: player, AI-driven enemy, the frame loop *)

Record World : Type := mkWorld {
  player : Fighter;
  enemy : Fighter;
  enemyAI : AIController;
  keys_player : Keys;
  frameRequested : bool   (* a call of animate is pending *)
}.

Definition resetGame (w : World) : World :=
  let p := set_health (maxHealth (player w)) (player w) in
  let e := set_health (maxHealth (enemy w)) (enemy w) in
  let p := set_position {| x := ofZ 100; y := ofZ 426 |} p in
  let e := set_position {| x := ofZ canvas_width - ofZ 200; y := ofZ 426 |} e in
  let p := set_velocity {| x := ofZ 0; y := ofZ 0 |} p in
  let e := set_velocity {| x := ofZ 0; y := ofZ 0 |} e in
  let p := setAnimation "idleRight" p in
  let e := setAnimation "idleLeft" e in
  mkWorld p e (enemyAI w) (keys_player w) (frameRequested w).

Definition initWorld (loadedImages : gmap string Image) : World :=
  resetGame
    {| player :=
         newFighter {| x := ofZ 100; y := ofZ 426 |}
                    {| x := ofZ 0; y := ofZ 0 |}
                    (spriteSheet loadedImages "eren" 775)
                    (ofZ 2) {| x := ofZ 0; y := ofZ 0 |};
       enemy :=
         newFighter {| x := ofZ canvas_width - ofZ 200; y := ofZ 426 |}
                    {| x := ofZ 0; y := ofZ 0 |}
                    (spriteSheet loadedImages "levi" 15)
                    (ofZ 2) {| x := ofZ 0; y := ofZ 0 |};
       enemyAI := newAIController;
       keys_player := noKeys;
       frameRequested := true |}.

Definition movementLogic (k : Keys) (f : Fighter) : Fighter :=
  if k_left k then
    set_lastDirection Left (setAnimation "runLeft" (setVelocityX (ofZ (-5)) f))
  else if k_right k then
    set_lastDirection Right (setAnimation "runRight" (setVelocityX (ofZ 5) f))
  else
    let f := setVelocityX (ofZ 0) f in
    setAnimation (idleKey (lastDirection f)) f.

(** [animate]: one frame.  An exception escaping [update] ends the
    callback where it is raised and no further frame is requested. *)
Definition animate (now attackNow : Z) (random : nat -> num) (w : World)
    : World :=
  match update (player w) true with
  | Throw _ => mkWorld (player w) (enemy w) (enemyAI w) (keys_player w) false
  | Ok (p, _) =>
      match update (enemy w) false with
      | Throw _ => mkWorld p (enemy w) (enemyAI w) (keys_player w) false
      | Ok (e, _) =>
          let p := movementLogic (keys_player w) p in
          let r := aiUpdate now attackNow random (enemyAI w) e p in
          let e := fighter_after r in
          let p := target_after r in
          let e := if x (velocity e) =? ofZ 0
                   then setAnimation (idleKey (lastDirection e)) e
                   else e in
          let over := (health p <=? 0)%Z || (health e <=? 0)%Z in
          mkWorld p e (ai_after r) (keys_player w) (negb over)
      end
  end.

Definition jump (f : Fighter) : Fighter :=
  if y (position f) + height f >=? ofZ canvas_height
  then setAnimation (jumpKey (lastDirection f)) (setVelocityY (ofZ (-20)) f)
  else f.

Definition dodge (f : Fighter) : Fighter :=
  if (dodgeCooldown f <=? 0)%Z && negb (isAttacking f) then
    let f := set_isDodging true f in
    let f := set_dodgeDuration 15 f in
    let f := setVelocityX (if isRight (lastDirection f)
                           then dodgeSpeed f else - dodgeSpeed f) f in
    setAnimation (runKey (lastDirection f)) f
  else f.

Definition keydown (key : string) (now : Z) (w : World) : World :=
  let kp := keys_player w in
  if String.eqb key "a" then
    mkWorld (player w) (enemy w) (enemyAI w)
            (mkKeys true (k_right kp) (k_jump kp)) (frameRequested w)
  else if String.eqb key "d" then
    mkWorld (player w) (enemy w) (enemyAI w)
            (mkKeys (k_left kp) true (k_jump kp)) (frameRequested w)
  else if String.eqb key "w" then
    mkWorld (jump (player w)) (enemy w) (enemyAI w) kp (frameRequested w)
  else if String.eqb key " " then
    if negb (isDodging (player w)) then
      let '(p, e) := attack now (player w) (enemy w) in
      mkWorld (setAnimation (attackKey (lastDirection p)) p) e (enemyAI w) kp
              (frameRequested w)
    else w
  else if String.eqb key "s" then
    mkWorld (dodge (player w)) (enemy w) (enemyAI w) kp (frameRequested w)
  else w.

Definition keyup (key : string) (w : World) : World :=
  let kp := keys_player w in
  if String.eqb key "a" then
    mkWorld (player w) (enemy w) (enemyAI w)
            (mkKeys false (k_right kp) (k_jump kp)) (frameRequested w)
  else if String.eqb key "d" then
    mkWorld (player w) (enemy w) (enemyAI w)
            (mkKeys (k_left kp) false (k_jump kp)) (frameRequested w)
  else w.

(** What the browser delivers to the page, with the clock readings and
    the random draws the handler will see. *)
Inductive Event : Type :=
| Frame (now attackNow : Z) (random : nat -> num)
| KeyDown (key : string) (now : Z)
| KeyUp (key : string).

Definition step (ev : Event) (w : World) : World :=
  match ev with
  | Frame now attackNow random =>
      if frameRequested w then animate now attackNow random w else w
  | KeyDown key now => keydown key now w
  | KeyUp key => keyup key w
  end.

Inductive reachable (loadedImages : gmap string Image) : World -> Prop :=
| reach_init : reachable loadedImages (initWorld loadedImages)
| reach_step w ev :
    reachable loadedImages w -> reachable loadedImages (step ev w).

End Defs.
Arguments Fighter : clear implicits.
Arguments AIController : clear implicits.
Arguments AIResult : clear implicits.
Arguments World : clear implicits.
Arguments Event : clear implicits.
End Enhanced.


(** ** preloadImages (the same function in both files) *)

Module Preload.

(** One entry of the [imagePaths] array. *)
Record ImagePath : Type := mkImagePath {
  key : string;
  src : string
}.

(** The closure state of one call of [preloadImages]: the [images]
    object and the counter the handlers share, with what the call has
    done to the outside so far: the calls of [callback] (each with the
    content of [images] at that moment, oldest first) and the messages
    passed to [console.error]. *)
Record Loader : Type := mkLoader {
  imagePaths : list ImagePath;
  images : gmap string Image;
  loadedImagesCount : Z;
  callbackCalls : list (gmap string Image);
  consoleErrors : list string
}.

(** The call itself only creates the images and registers the handlers. *)
Definition preloadImages (imagePaths : list ImagePath) : Loader :=
  mkLoader imagePaths ∅ 0 [] [].

(** "Call callback when all images are loaded". *)
Definition maybeCallback (l : Loader) : Loader :=
  if loadedImagesCount l =? Z.of_nat (length (imagePaths l))
  then mkLoader (imagePaths l) (images l) (loadedImagesCount l)
         (callbackCalls l ++ [images l]) (consoleErrors l)
  else l.

(** [img.onload] of the image created for [path]. *)
Definition onload (path : ImagePath) (img : Image) (l : Loader) : Loader :=
  maybeCallback
    (mkLoader (imagePaths l) (<[key path := img]> (images l))
       (loadedImagesCount l + 1) (callbackCalls l) (consoleErrors l)).

(** [img.onerror] of the image created for [path]. *)
Definition onerror (path : ImagePath) (l : Loader) : Loader :=
  maybeCallback
    (mkLoader (imagePaths l) (images l) (loadedImagesCount l + 1)
       (callbackCalls l)
       (consoleErrors l ++ ["Failed to load image: " +:+ src path])).

(** What the browser reports for the image of the i-th path: it has
    loaded, with its intrinsic size, or it has failed. *)
Inductive ImageEvent : Type :=
| Loaded (i : nat) (width height : Z)
| Failed (i : nat).

Definition eventIndex (ev : ImageEvent) : nat :=
  match ev with Loaded i _ _ => i | Failed i => i end.

Definition fire (l : Loader) (ev : ImageEvent) : Loader :=
  match imagePaths l !! eventIndex ev with
  | None => l
  | Some path =>
      match ev with
      | Loaded _ w h => onload path (mkImage (src path) w h) l
      | Failed _ => onerror path l
      end
  end.

Definition run (evs : list ImageEvent) (l : Loader) : Loader :=
  fold_left fire evs l.

End Preload.
(** ** Vocabulary of the statements *)

Section Vocabulary.
Context {num : Type} `{!JSNum num}.
Local Open Scope js_scope.

(** Frame 0 of an animation is a loaded image. *)
Definition hasFirstFrame (anims : gmap string Animation) (key : string)
    : Prop :=
  exists a img, anims !! key = Some a /\ frame_at (frames a) (Int 0) = Some img.

(** Both idle animations can be drawn. *)
Definition idleOk (anims : gmap string Animation) : Prop :=
  hasFirstFrame anims "idleRight" /\ hasFirstFrame anims "idleLeft".

(** [n] consecutive calls of [update], the drawings dropped. *)
Fixpoint base_updates (n : nat) (f : Base.Fighter num)
    : Result (Base.Fighter num) :=
  match n with
  | O => Ok f
  | S k =>
      match Base.update f false with
      | Throw e => Throw e
      | Ok (f', _) => base_updates k f'
      end
  end.

Fixpoint enh_updates (n : nat) (f : Enhanced.Fighter num)
    : Result (Enhanced.Fighter num) :=
  match n with
  | O => Ok f
  | S k =>
      match Enhanced.update f false with
      | Throw e => Throw e
      | Ok (f', _) => enh_updates k f'
      end
  end.

(** The ground test of the next [update] fails: after the position is
    integrated, [position.y + height >= canvas.height] is false. *)
Definition base_airborne (f : Base.Fighter num) : bool :=
  negb (y (Base.position f) + y (Base.velocity f) + Base.height f
        >=? ofZ canvas_height).

Definition enh_airborne (f : Enhanced.Fighter num) : bool :=
  negb (y (Enhanced.position f) + y (Enhanced.velocity f) + Enhanced.height f
        >=? ofZ canvas_height).

(** The fighter is airborne in each of the next [n] updates. *)
Fixpoint base_airborne_for (n : nat) (f : Base.Fighter num) : bool :=
  match n with
  | O => true
  | S k => base_airborne f && base_airborne_for k (Base.tick f)
  end.

Fixpoint enh_airborne_for (n : nat) (f : Enhanced.Fighter num) : bool :=
  match n with
  | O => true
  | S k => enh_airborne f && enh_airborne_for k (Enhanced.tick f)
  end.

(** The abscissa after the two boundary tests and the ordinate after
    the ground test, from the integrated position. *)
Definition clampedX (x1 w : num) : num :=
  let x2 := if x1 <? ofZ 0 then ofZ 0 else x1 in
  if x2 + w >? ofZ canvas_width then ofZ canvas_width - w else x2.

Definition groundedY (y1 h : num) : num :=
  if y1 + h >=? ofZ canvas_height then ofZ canvas_height - h else y1.

(** The fighter is above the ground, [position.y + height <
    canvas.height], now and after each of the next [n] updates. *)
Fixpoint base_above_for (n : nat) (f : Base.Fighter num) : bool :=
  (y (Base.position f) + Base.height f <? ofZ canvas_height)
  && match n with
     | O => true
     | S k => base_above_for k (Base.tick f)
     end.

Fixpoint enh_above_for (n : nat) (f : Enhanced.Fighter num) : bool :=
  (y (Enhanced.position f) + Enhanced.height f <? ofZ canvas_height)
  && match n with
     | O => true
     | S k => enh_above_for k (Enhanced.tick f)
     end.

(** A fighter 150 high that has been put on the ground is not above
    it: a fact of the arithmetic, true of both instances. *)
Definition landedIsNotAbove : Prop :=
  (ofZ canvas_height - ofZ 150 + ofZ 150 <? ofZ canvas_height) = false.

(** Gravity added [n] times, one addition per tick. *)
Fixpoint accumulate (n : nat) (v : num) : num :=
  match n with
  | O => v
  | S k => accumulate k (v + gravity)
  end.

(** The names a plain object answers through [Object.prototype].  The
    animation tables are object literals, so that [animations[key]] is
    [undefined] exactly when [key] is neither a key of the table nor
    one of these names; at these names, when the table has no key of
    its own, the lookup yields a function or an object that is no
    animation.  A lookup [anims !! key] is the lookup of the program
    off these names and at every key the table holds. *)
Definition inheritedKeys : list string :=
  [ "constructor"; "hasOwnProperty"; "isPrototypeOf";
    "propertyIsEnumerable"; "toLocaleString"; "toString"; "valueOf";
    "__proto__"; "__defineGetter__"; "__defineSetter__";
    "__lookupGetter__"; "__lookupSetter__" ].

(** A degenerate current animation: missing ([animations[key]] is
    [undefined]), or without a drawable frame at the current index, or
    with an empty frame list. *)
Definition degenerate (anims : gmap string Animation) (key : string)
    (frame : jsint) : Prop :=
  (anims !! key = None /\ ~ In key inheritedKeys)
  \/ (exists a, anims !! key = Some a /\ frame_at (frames a) frame = None)
  \/ (exists a, anims !! key = Some a /\ frames a = []).

(** The fields of the enhanced attacker that decide eligibility. *)
Definition eligible (f : Enhanced.Fighter num) : Prop :=
  (Enhanced.attackCooldown f <= 0)%Z /\ Enhanced.isDodging f = false.

(** The combo step an eligible attack at time [now] selects, and the
    attacker it leaves. *)
Definition nextCombo (now : Z) (a : Enhanced.Fighter num) : Z :=
  if ((now - Enhanced.lastAttackTime a <? 500)%Z && Enhanced.canCombo a)%bool
  then Z.rem (Enhanced.comboCount a + 1) 3
  else 0%Z.

Definition struck (now : Z) (a : Enhanced.Fighter num)
    : Enhanced.Fighter num :=
  Enhanced.set_lastAttackTime now
    (Enhanced.set_attackCooldown (30 - nextCombo now a * 5)
       (Enhanced.set_comboCount (nextCombo now a)
          (Enhanced.set_isAttacking true a))).

(** The state in which a pending attack has resolved: the cooldown has
    run out and the combo window is open, the combo bookkeeping of the
    attack being kept. *)
Definition resolved (a a' : Enhanced.Fighter num) : Prop :=
  eligible a' /\ Enhanced.canCombo a' = true
  /\ Enhanced.comboCount a' = Enhanced.comboCount a
  /\ Enhanced.lastAttackTime a' = Enhanced.lastAttackTime a.

(** The health a hit leaves. *)
Definition afterHit (health damage : Z) : Z := Z.max 0 (health - damage).

End Vocabulary.

(** Edge-to-edge distance from the attacker to the target along the
    attacker's facing axis, and the vertical overlap, in exact
    arithmetic. *)
Definition base_gap (a t : Base.Fighter Q) : Q :=
  if isRight (Base.lastDirection a)
  then x (Base.position t) - (x (Base.position a) + Base.width a)
  else x (Base.position a) - (x (Base.position t) + Base.width t).

Definition enh_gap (a t : Enhanced.Fighter Q) : Q :=
  if isRight (Enhanced.lastDirection a)
  then x (Enhanced.position t) - (x (Enhanced.position a) + Enhanced.width a)
  else x (Enhanced.position a) - (x (Enhanced.position t) + Enhanced.width t).

Definition base_overlapY (a t : Base.Fighter Q) : Prop :=
  (y (Base.position a) < y (Base.position t) + Base.height t
   /\ y (Base.position t) < y (Base.position a) + Base.height a)%Q.

Definition enh_overlapY (a t : Enhanced.Fighter Q) : Prop :=
  (y (Enhanced.position a) < y (Enhanced.position t) + Enhanced.height t
   /\ y (Enhanced.position t) < y (Enhanced.position a) + Enhanced.height a)%Q.

(** Sample fighters: freshly constructed, standing on the ground at a
    given abscissa, with one-frame idle animations. *)
Definition sampleImage : Image := mkImage "idle.png" 64 64.

Definition sampleAnims : gmap string Animation :=
  list_to_map [ ("idleRight", mkAnimation [Some sampleImage] None);
                ("idleLeft", mkAnimation [Some sampleImage] None) ].

(** Idle animations that differ by the facing, and a fighter holding
    only them, facing [d], whose current animation "runRight" is
    missing. *)
Definition idleRightImage : Image := mkImage "idleRight.png" 64 64.
Definition idleLeftImage : Image := mkImage "idleLeft.png" 48 64.

Definition facingAnims : gmap string Animation :=
  list_to_map [ ("idleRight", mkAnimation [Some idleRightImage] None);
                ("idleLeft", mkAnimation [Some idleLeftImage] None) ].

Definition enh_facing {num : Type} `{!JSNum num} (d : Direction)
    : Enhanced.Fighter num :=
  Enhanced.set_lastDirection d
    (Enhanced.setAnimation "runRight"
       (Enhanced.newFighter (mkVec2 (ofZ 100) (ofZ 426))
          (mkVec2 (ofZ 0) (ofZ 0)) facingAnims (ofZ 2)
          (mkVec2 (ofZ 0) (ofZ 0)))).

Definition base_sample {num : Type} `{!JSNum num} (px py : Z)
    : Base.Fighter num :=
  Base.newFighter (mkVec2 (ofZ px) (ofZ py)) (mkVec2 (ofZ 0) (ofZ 0))
    sampleAnims (ofZ 2) (mkVec2 (ofZ 0) (ofZ 0)).

Definition enh_sample {num : Type} `{!JSNum num} (px py : Z)
    : Enhanced.Fighter num :=
  Enhanced.newFighter (mkVec2 (ofZ px) (ofZ py)) (mkVec2 (ofZ 0) (ofZ 0))
    sampleAnims (ofZ 2) (mkVec2 (ofZ 0) (ofZ 0)).

Section Kept.
Context {num : Type} `{!JSNum num}.

(** The fields no tick writes. *)
Definition base_kept (f g : Base.Fighter num) : Prop :=
  Base.health g = Base.health f
  /\ Base.maxHealth g = Base.maxHealth f
  /\ Base.attackDamage g = Base.attackDamage f
  /\ Base.width g = Base.width f
  /\ Base.height g = Base.height f
  /\ Base.animations g = Base.animations f
  /\ Base.lastDirection g = Base.lastDirection f.

Definition enh_kept (f g : Enhanced.Fighter num) : Prop :=
  Enhanced.health g = Enhanced.health f
  /\ Enhanced.maxHealth g = Enhanced.maxHealth f
  /\ Enhanced.attackDamage g = Enhanced.attackDamage f
  /\ Enhanced.width g = Enhanced.width f
  /\ Enhanced.height g = Enhanced.height f
  /\ Enhanced.animations g = Enhanced.animations f
  /\ Enhanced.lastDirection g = Enhanced.lastDirection f
  /\ Enhanced.comboCount g = Enhanced.comboCount f
  /\ Enhanced.lastAttackTime g = Enhanced.lastAttackTime f.

(** What the constructor fixes about a fighter and nothing ever
    rewrites, with the bounds on health and on the combo counter. *)
Definition base_wellFormed (f : Base.Fighter num) : Prop :=
  (0 <= Base.health f <= Base.maxHealth f)%Z
  /\ (0 <= Base.attackDamage f)%Z
  /\ Base.width f = ofZ 50 /\ Base.height f = ofZ 150.

Definition enh_wellFormed (f : Enhanced.Fighter num) : Prop :=
  (0 <= Enhanced.health f <= Enhanced.maxHealth f)%Z
  /\ (0 <= Enhanced.attackDamage f)%Z
  /\ Enhanced.width f = ofZ 50 /\ Enhanced.height f = ofZ 150
  /\ (0 <= Enhanced.comboCount f <= 2)%Z.

(** [g] has the health, the bounds, the damage, the size and the combo
    counter of [f]. *)
Definition base_sameBody (f g : Base.Fighter num) : Prop :=
  Base.health g = Base.health f
  /\ Base.maxHealth g = Base.maxHealth f
  /\ Base.attackDamage g = Base.attackDamage f
  /\ Base.width g = Base.width f
  /\ Base.height g = Base.height f.

Definition enh_sameBody (f g : Enhanced.Fighter num) : Prop :=
  Enhanced.health g = Enhanced.health f
  /\ Enhanced.maxHealth g = Enhanced.maxHealth f
  /\ Enhanced.attackDamage g = Enhanced.attackDamage f
  /\ Enhanced.width g = Enhanced.width f
  /\ Enhanced.height g = Enhanced.height f
  /\ Enhanced.comboCount g = Enhanced.comboCount f.

(** [g] stands and moves as [f] does. *)
Definition base_sameKin (f g : Base.Fighter num) : Prop :=
  Base.position g = Base.position f
  /\ Base.velocity g = Base.velocity f
  /\ Base.width g = Base.width f
  /\ Base.height g = Base.height f.

Definition enh_sameKin (f g : Enhanced.Fighter num) : Prop :=
  Enhanced.position g = Enhanced.position f
  /\ Enhanced.velocity g = Enhanced.velocity f
  /\ Enhanced.width g = Enhanced.width f
  /\ Enhanced.height g = Enhanced.height f
  /\ Enhanced.dodgeSpeed g = Enhanced.dodgeSpeed f.

(** The combat bookkeeping, which the physics of a tick never writes. *)
Definition base_combat_kept (f g : Base.Fighter num) : Prop :=
  Base.attackCooldown g = Base.attackCooldown f
  /\ Base.isAttacking g = Base.isAttacking f.

Definition enh_combat_kept (f g : Enhanced.Fighter num) : Prop :=
  Enhanced.attackCooldown g = Enhanced.attackCooldown f
  /\ Enhanced.isAttacking g = Enhanced.isAttacking f
  /\ Enhanced.isDodging g = Enhanced.isDodging f
  /\ Enhanced.dodgeCooldown g = Enhanced.dodgeCooldown f
  /\ Enhanced.dodgeDuration g = Enhanced.dodgeDuration f
  /\ Enhanced.canCombo g = Enhanced.canCombo f.

(** The physics of a tick: the statements of [update] before the
    cooldown handling. *)
Definition base_physics (f : Base.Fighter num) : Base.Fighter num :=
  Base.groundOrGravity
    (Base.screenBoundaries (Base.integrate (Base.advanceFrame f))).

Definition enh_physics (f : Enhanced.Fighter num) : Enhanced.Fighter num :=
  Enhanced.groundOrGravity
    (Enhanced.screenBoundaries
       (Enhanced.integrate (Enhanced.advanceFrame f))).

End Kept.

(** Preloaded images in which only the idle sprites loaded. *)
Definition sampleLoaded : gmap string Image :=
  list_to_map [ ("eren_idleRight", sampleImage); ("eren_idleLeft", sampleImage);
                ("levi_idleRight", sampleImage); ("levi_idleLeft", sampleImage) ].

(** A fighter in the middle of an attack, [cd] ticks of cooldown left. *)
Definition base_attacking {num : Type} `{!JSNum num} (cd : Z)
    : Base.Fighter num :=
  Base.set_attackCooldown cd (Base.set_isAttacking true (base_sample 100 426)).

Definition enh_attacking {num : Type} `{!JSNum num} (cd : Z)
    : Enhanced.Fighter num :=
  Enhanced.set_attackCooldown cd
    (Enhanced.set_isAttacking true (enh_sample 100 426)).

(** The result of a run of updates, the fighter itself if one threw. *)
Definition enh_after {num : Type} `{!JSNum num} (n : nat)
    (f : Enhanced.Fighter num) : Enhanced.Fighter num :=
  match enh_updates n f with
  | Ok f' => f'
  | Throw _ => f
  end.

(** The enemy as the controller leaves it after an attack decision
    against a player 60 px to its left, both on the ground. *)
Definition enemyAfterDecision {num : Type} `{!JSNum num}
    : Enhanced.Fighter num :=
  Enhanced.fighter_after
    (Enhanced.aiUpdate 1000 1000 (fun _ => ofZ 0) Enhanced.newAIController
       (enh_sample 824 426) (enh_sample 764 426)).

(** ** Vocabulary for the binary64 instance

    On the page every abscissa is an integer pixel and every horizontal
    velocity one of a few integers, while ordinate and vertical
    velocity move along the finitely many states of a jump. *)

Definition feq (a b : float) : bool := PrimFloat.Leibniz.eqb a b.

(** The abscissae of the screen, 0 .. canvas.width - width. *)
Definition pixels : list Z := map Z.of_nat (seq 0 975).

(** The horizontal velocities the handlers and the controller assign:
    0, the chase and run speeds 3 and 5, the boosted 5 * 1.8 = 9, and
    the dodge speed 12. *)
Definition speedsX : list Z := [0; 3; -3; 5; -5; 9; -9; 12; -12].

(** The two boundary tests on integers. *)
Definition zclampX (z : Z) : Z :=
  let z2 := if z <? 0 then 0 else z in
  if z2 + 50 >? canvas_width then canvas_width - 50 else z2.

(** The vertical part of a tick on (position.y, velocity.y), for a
    fighter 150 high. *)
Definition tickY (p : float * float) : float * float :=
  let y1 := nadd p.1 p.2 in
  (groundedY y1 (ofZ 150),
   if nle (ofZ canvas_height) (nadd y1 (ofZ 150)) then ofZ 0
   else nadd p.2 gravity).

Fixpoint trajectory (fuel : nat) (p : float * float) : list (float * float) :=
  match fuel with
  | O => []
  | S k => p :: trajectory k (tickY p)
  end.

(** The vertical states of a fighter: standing, and the flights that
    start on the ground with the jump impulses -15, -20 and -22. *)
Definition orbit : list (float * float) :=
  flat_map (fun v0 => trajectory 80 (ofZ 426, ofZ v0)) [0; -15; -20; -22].

Definition inOrbit (py vy : float) : bool :=
  existsb (fun p => feq py p.1 && feq vy p.2) orbit.

Definition isPixel (v : float) : Prop :=
  exists k, 0 <= k <= 974 /\ v = ofZ k.

Definition isSpeedX (v : float) : Prop :=
  exists s, In s speedsX /\ v = ofZ s.

Definition base_onGrid (f : Base.Fighter float) : Prop :=
  isPixel (x (Base.position f))
  /\ isSpeedX (x (Base.velocity f))
  /\ inOrbit (y (Base.position f)) (y (Base.velocity f)) = true
  /\ Base.width f = ofZ 50 /\ Base.height f = ofZ 150.

Definition enh_onGrid (f : Enhanced.Fighter float) : Prop :=
  isPixel (x (Enhanced.position f))
  /\ isSpeedX (x (Enhanced.velocity f))
  /\ inOrbit (y (Enhanced.position f)) (y (Enhanced.velocity f)) = true
  /\ Enhanced.width f = ofZ 50 /\ Enhanced.height f = ofZ 150
  /\ Enhanced.dodgeSpeed f = ofZ 12.

(** The position bounds of the spec as the program would test them. *)
Definition base_inBounds (f : Base.Fighter float) : bool :=
  nle (ofZ 0) (x (Base.position f))
  && nle (x (Base.position f)) (nsub (ofZ canvas_width) (Base.width f))
  && nle (nadd (y (Base.position f)) (Base.height f)) (ofZ canvas_height).

Definition enh_inBounds (f : Enhanced.Fighter float) : bool :=
  nle (ofZ 0) (x (Enhanced.position f))
  && nle (x (Enhanced.position f))
         (nsub (ofZ canvas_width) (Enhanced.width f))
  && nle (nadd (y (Enhanced.position f)) (Enhanced.height f))
         (ofZ canvas_height).

(** The horizontal half of the hit test on binary64 abscissae, the
    integer gap it is compared with, and the vertical half. *)
Definition hitsX (r w : float) (facingRight : bool) (xa xt : float) : bool :=
  let attackStartX := if facingRight then nadd xa w else nsub xa r in
  let attackEndX := if facingRight then nadd (nadd xa w) r else xa in
  nlt xt attackEndX && nlt attackStartX (nadd xt w).

Definition zgap (facingRight : bool) (ka kt : Z) : Z :=
  if facingRight then kt - (ka + 50) else ka - (kt + 50).

Definition inReach (range gap : Z) : bool := (-50 <? gap) && (gap <? range).

Definition pixelsF : list (Z * float) :=
  map (fun k => (k, ofZ (num:=float) k)) pixels.

Definition hitsX_ok (range : Z) (r w : float) (a t : Z * float) : bool :=
  Bool.eqb (hitsX r w true a.2 t.2) (inReach range (zgap true a.1 t.1))
  && Bool.eqb (hitsX r w false a.2 t.2) (inReach range (zgap false a.1 t.1)).

Definition hitsX_check (range : Z) : bool :=
  forallb (fun a => forallb (hitsX_ok range (ofZ range) (ofZ 50) a) pixelsF)
          pixelsF.

Definition base_overlapYb (a t : Base.Fighter float) : bool :=
  nlt (y (Base.position a)) (nadd (y (Base.position t)) (Base.height t))
  && nlt (y (Base.position t)) (nadd (y (Base.position a)) (Base.height a)).

Definition enh_overlapYb (a t : Enhanced.Fighter float) : bool :=
  nlt (y (Enhanced.position a))
      (nadd (y (Enhanced.position t)) (Enhanced.height t))
  && nlt (y (Enhanced.position t))
         (nadd (y (Enhanced.position a)) (Enhanced.height a)).

(** ** Vocabulary of the further properties *)

(** Two paths, of which the second fails before the first loads. *)
Definition samplePaths : list Preload.ImagePath :=
  [ Preload.mkImagePath "eren_idleRight" "eren_idleRight.png";
    Preload.mkImagePath "eren_idleLeft" "eren_idleLeft.png" ].

Definition sampleSchedule : list Preload.ImageEvent :=
  [ Preload.Failed 1; Preload.Loaded 0 64 64 ].

Section MoreVocabulary.
Context {num : Type} `{!JSNum num}.
Local Open Scope js_scope.

(** The attack timer of the base fighter: the cooldown stays within
    the 120 updates an attack sets, and the flag is up while it runs. *)
Definition base_timersOk (f : Base.Fighter num) : Prop :=
  (0 <= Base.attackCooldown f <= 120)%Z
  /\ ((0 < Base.attackCooldown f)%Z -> Base.isAttacking f = true).

(** The timers of the enhanced fighter. *)
Definition enh_timersOk (f : Enhanced.Fighter num) : Prop :=
  (0 <= Enhanced.attackCooldown f <= 30)%Z
  /\ (Enhanced.isAttacking f = true <-> (0 < Enhanced.attackCooldown f)%Z)
  /\ (0 <= Enhanced.dodgeCooldown f <= 45)%Z
  /\ (0 <= Enhanced.comboCount f <= 2)%Z
  /\ (Enhanced.isDodging f = true ->
      (1 <= Enhanced.dodgeDuration f <= 15)%Z
      /\ Enhanced.dodgeCooldown f = 0%Z
      /\ Enhanced.isAttacking f = false).

(** [g] is [f] steered: nothing but the velocity, the animation shown
    and the facing may differ. *)
Definition enh_steered (f g : Enhanced.Fighter num) : Prop :=
  Enhanced.position g = Enhanced.position f
  /\ Enhanced.animations g = Enhanced.animations f
  /\ Enhanced.scale g = Enhanced.scale f
  /\ Enhanced.offset g = Enhanced.offset f
  /\ Enhanced.width g = Enhanced.width f
  /\ Enhanced.height g = Enhanced.height f
  /\ Enhanced.health g = Enhanced.health f
  /\ Enhanced.maxHealth g = Enhanced.maxHealth f
  /\ Enhanced.isAttacking g = Enhanced.isAttacking f
  /\ Enhanced.attackCooldown g = Enhanced.attackCooldown f
  /\ Enhanced.attackDamage g = Enhanced.attackDamage f
  /\ Enhanced.isDodging g = Enhanced.isDodging f
  /\ Enhanced.dodgeCooldown g = Enhanced.dodgeCooldown f
  /\ Enhanced.dodgeDuration g = Enhanced.dodgeDuration f
  /\ Enhanced.dodgeSpeed g = Enhanced.dodgeSpeed f
  /\ Enhanced.canCombo g = Enhanced.canCombo f
  /\ Enhanced.comboCount g = Enhanced.comboCount f
  /\ Enhanced.lastAttackTime g = Enhanced.lastAttackTime f
  /\ Enhanced.framesElapsed g = Enhanced.framesElapsed f
  /\ Enhanced.framesHold g = Enhanced.framesHold f.

Definition base_steered (f g : Base.Fighter num) : Prop :=
  Base.position g = Base.position f
  /\ Base.animations g = Base.animations f
  /\ Base.scale g = Base.scale f
  /\ Base.offset g = Base.offset f
  /\ Base.width g = Base.width f
  /\ Base.height g = Base.height f
  /\ Base.health g = Base.health f
  /\ Base.maxHealth g = Base.maxHealth f
  /\ Base.isAttacking g = Base.isAttacking f
  /\ Base.attackCooldown g = Base.attackCooldown f
  /\ Base.attackDamage g = Base.attackDamage f
  /\ Base.framesElapsed g = Base.framesElapsed f
  /\ Base.framesHold g = Base.framesHold f.

(** [n] ticks in a row. *)
Definition base_ticks (n : nat) (f : Base.Fighter num) : Base.Fighter num :=
  Nat.iter n Base.tick f.

Definition enh_ticks (n : nat) (f : Enhanced.Fighter num)
    : Enhanced.Fighter num :=
  Nat.iter n Enhanced.tick f.

(** Every animation of a sheet has at least one frame slot. *)
Definition framesOk (anims : gmap string Animation) : Prop :=
  forall k a, anims !! k = Some a -> frames a <> [].

(** The frame counter is an index into the frame array of the current
    animation, when there is one. *)
Definition frameInRange (anims : gmap string Animation) (key : string)
    (frame : jsint) : Prop :=
  forall a, anims !! key = Some a ->
    exists c, frame = Int c /\ (0 <= c < Z.of_nat (length (frames a)))%Z.

Definition base_frameValid (f : Base.Fighter num) : Prop :=
  framesOk (Base.animations f)
  /\ frameInRange (Base.animations f) (Base.currentAnimation f)
       (Base.currentFrame f).

Definition enh_frameValid (f : Enhanced.Fighter num) : Prop :=
  framesOk (Enhanced.animations f)
  /\ frameInRange (Enhanced.animations f) (Enhanced.currentAnimation f)
       (Enhanced.currentFrame f).

(** [g] shows what [f] shows. *)
Definition base_sameAnim (f g : Base.Fighter num) : Prop :=
  Base.animations g = Base.animations f
  /\ Base.currentAnimation g = Base.currentAnimation f
  /\ Base.currentFrame g = Base.currentFrame f.

Definition enh_sameAnim (f g : Enhanced.Fighter num) : Prop :=
  Enhanced.animations g = Enhanced.animations f
  /\ Enhanced.currentAnimation g = Enhanced.currentAnimation f
  /\ Enhanced.currentFrame g = Enhanced.currentFrame f.

(** The number of updates a frame of an animation is held:
    [animation.frameDuration || this.framesHold]. *)
Definition holdOf (a : Animation) (framesHold : Z) : Z :=
  match frameDuration a with
  | Some d => if (d =? 0)%Z then framesHold else d
  | None => framesHold
  end.

(** [g] shows what [f] shows, at the same point of the frame clock. *)
Definition base_sameShow (f g : Base.Fighter num) : Prop :=
  base_sameAnim f g
  /\ Base.framesElapsed g = Base.framesElapsed f
  /\ Base.framesHold g = Base.framesHold f.

Definition enh_sameShow (f g : Enhanced.Fighter num) : Prop :=
  enh_sameAnim f g
  /\ Enhanced.framesElapsed g = Enhanced.framesElapsed f
  /\ Enhanced.framesHold g = Enhanced.framesHold f.

(** The animation the controller creates where it finds none, and the
    two keys under which it does. *)
Definition placeholder : Animation := mkAnimation [] (Some 5).

Definition controllerKeys : list string := ["attackright"; "attackleft"].

(** [anims] is the table [sheet] in which the controller may have
    created its placeholders: under each of the controller's keys
    there is nothing or the placeholder, and every other key is as in
    the sheet. *)
Definition sheetWithPlaceholders (sheet anims : gmap string Animation)
    : Prop :=
  forall k,
    (In k controllerKeys ->
     anims !! k = None \/ anims !! k = Some placeholder)
    /\ (~ In k controllerKeys -> anims !! k = sheet !! k).

End MoreVocabulary.

(** The target is not ahead of the attacker: on the side the attacker
    faces, the target's left edge does not pass the attacker's. *)
Definition base_behind (a t : Base.Fighter Q) : Prop :=
  if isRight (Base.lastDirection a)
  then (x (Base.position t) <= x (Base.position a))%Q
  else (x (Base.position a) <= x (Base.position t))%Q.

Definition enh_behind (a t : Enhanced.Fighter Q) : Prop :=
  if isRight (Enhanced.lastDirection a)
  then (x (Enhanced.position t) <= x (Enhanced.position a))%Q
  else (x (Enhanced.position a) <= x (Enhanced.position t))%Q.

(** The vertical state (position.y, velocity.y) of a fighter, and the
    state [n] ticks after the jump key has set the velocity to -20 on
    the ground. *)
Definition base_vertical (f : Base.Fighter float) : float * float :=
  (y (Base.position f), y (Base.velocity f)).

Definition enh_vertical (f : Enhanced.Fighter float) : float * float :=
  (y (Enhanced.position f), y (Enhanced.velocity f)).

Definition jumpFlight (n : nat) : float * float :=
  Nat.iter n tickY (ofZ 426, ofZ (-20)).

(** In the air and below the top of the canvas: the ground test
    [position.y + height >= canvas.height] fails and [position.y] is
    not negative. *)
Definition inFlight (p : float * float) : bool :=
  negb (nle (ofZ canvas_height) (nadd p.1 (ofZ 150))) && nle (ofZ 0) p.1.

(** The result of a run of base updates, the fighter itself if one
    threw. *)
Definition base_after {num : Type} `{!JSNum num} (n : nat)
    (f : Base.Fighter num) : Base.Fighter num :=
  match base_updates n f with
  | Ok f' => f'
  | Throw _ => f
  end.

(** The pages started on the sample images, after a first frame. *)
Definition base_started : Base.World float :=
  Base.step Base.Frame (Base.initWorld sampleLoaded).

Definition enh_started : Enhanced.World float :=
  Enhanced.step (Enhanced.Frame 1000 1000 (fun _ => ofZ 0))
    (Enhanced.initWorld sampleLoaded).

(** The pages started without any image: the first frame throws. *)
Definition base_halted : Base.World float :=
  Base.step Base.Frame (Base.initWorld ∅).

Definition enh_halted : Enhanced.World float :=
  Enhanced.step (Enhanced.Frame 1000 1000 (fun _ => ofZ 0))
    (Enhanced.initWorld ∅).

(** The enemy of the enhanced page, holding its sprite sheet, moved
    next to the player's start position. *)
Definition enh_enemyNearby : Enhanced.Fighter float :=
  Enhanced.set_position (mkVec2 (ofZ 160) (ofZ 426))
    (Enhanced.enemy (Enhanced.initWorld sampleLoaded)).

(** The player of the base page switched to its two-frame run. *)
Definition base_runner : Base.Fighter float :=
  Base.setAnimation "runRight" (Base.player (Base.initWorld sampleLoaded)).

(** The same enemy after a first attack decision of the controller. *)
Definition enh_enemyStruckOnce : Enhanced.Fighter float :=
  Enhanced.fighter_after
    (Enhanced.aiUpdate 1000 1000 (fun _ => ofZ 0) Enhanced.newAIController
       enh_enemyNearby (Enhanced.player (Enhanced.initWorld sampleLoaded))).

(** ** Facts that hold for every number instance *)

Section GenericFacts.
Context {num : Type} `{!JSNum num}.

(** *** What one tick leaves alone *)

Lemma base_kept_refl (f : Base.Fighter num) : base_kept f f.
Proof. by repeat split. Qed.

Lemma base_kept_trans (f g h : Base.Fighter num) :
  base_kept f g -> base_kept g h -> base_kept f h.
Proof. unfold base_kept. intros. destruct_and!. by repeat split; etrans. Qed.

Lemma enh_kept_refl (f : Enhanced.Fighter num) : enh_kept f f.
Proof. by repeat split. Qed.

Lemma enh_kept_trans (f g h : Enhanced.Fighter num) :
  enh_kept f g -> enh_kept g h -> enh_kept f h.
Proof. unfold enh_kept. intros. destruct_and!. by repeat split; etrans. Qed.

Lemma base_advanceFrame_kept (f : Base.Fighter num) :
  base_kept f (Base.advanceFrame f).
Proof.
  unfold Base.advanceFrame. simpl.
  destruct (Base.animations f !! Base.currentAnimation f); [|by repeat split].
  case_match; by repeat split.
Qed.

Lemma base_integrate_kept (f : Base.Fighter num) :
  base_kept f (Base.integrate f).
Proof. by repeat split. Qed.

Lemma base_screenBoundaries_kept (f : Base.Fighter num) :
  base_kept f (Base.screenBoundaries f).
Proof. unfold Base.screenBoundaries. repeat case_match; by repeat split. Qed.

Lemma base_groundOrGravity_kept (f : Base.Fighter num) :
  base_kept f (Base.groundOrGravity f).
Proof. unfold Base.groundOrGravity. case_match; by repeat split. Qed.

Lemma base_attackCooldownTick_kept (f : Base.Fighter num) :
  base_kept f (Base.attackCooldownTick f).
Proof. unfold Base.attackCooldownTick. repeat case_match; by repeat split. Qed.

Lemma base_tick_kept (f : Base.Fighter num) : base_kept f (Base.tick f).
Proof.
  unfold Base.tick.
  eapply base_kept_trans; [apply base_advanceFrame_kept|].
  eapply base_kept_trans; [apply base_integrate_kept|].
  eapply base_kept_trans; [apply base_screenBoundaries_kept|].
  eapply base_kept_trans; [apply base_groundOrGravity_kept|].
  apply base_attackCooldownTick_kept.
Qed.

Lemma enh_setAnimation_kept key (f : Enhanced.Fighter num) :
  enh_kept f (Enhanced.setAnimation key f).
Proof. unfold Enhanced.setAnimation. case_match; by repeat split. Qed.

Lemma enh_advanceFrame_kept (f : Enhanced.Fighter num) :
  enh_kept f (Enhanced.advanceFrame f).
Proof.
  unfold Enhanced.advanceFrame. simpl.
  destruct (Enhanced.animations f !! Enhanced.currentAnimation f);
    [|by repeat split].
  case_match; by repeat split.
Qed.

Lemma enh_integrate_kept (f : Enhanced.Fighter num) :
  enh_kept f (Enhanced.integrate f).
Proof. by repeat split. Qed.

Lemma enh_screenBoundaries_kept (f : Enhanced.Fighter num) :
  enh_kept f (Enhanced.screenBoundaries f).
Proof. unfold Enhanced.screenBoundaries. repeat case_match; by repeat split. Qed.

Lemma enh_groundOrGravity_kept (f : Enhanced.Fighter num) :
  enh_kept f (Enhanced.groundOrGravity f).
Proof. unfold Enhanced.groundOrGravity. case_match; by repeat split. Qed.

Lemma enh_cooldownsTick_kept (f : Enhanced.Fighter num) :
  enh_kept f (Enhanced.cooldownsTick f).
Proof. unfold Enhanced.cooldownsTick. repeat case_match; by repeat split. Qed.

Lemma enh_resetAttackState_kept (f : Enhanced.Fighter num) :
  enh_kept f (Enhanced.resetAttackState f).
Proof. unfold Enhanced.resetAttackState. case_match; by repeat split. Qed.

Lemma enh_dodgeTick_kept (f : Enhanced.Fighter num) :
  enh_kept f (Enhanced.dodgeTick f).
Proof.
  unfold Enhanced.dodgeTick. destruct (Enhanced.isDodging f); [|by repeat split].
  cbv zeta. case_match; [|by repeat split].
  eapply enh_kept_trans; [|apply enh_setAnimation_kept]. by repeat split.
Qed.

Lemma enh_tick_kept (f : Enhanced.Fighter num) : enh_kept f (Enhanced.tick f).
Proof.
  unfold Enhanced.tick.
  eapply enh_kept_trans; [apply enh_advanceFrame_kept|].
  eapply enh_kept_trans; [apply enh_integrate_kept|].
  eapply enh_kept_trans; [apply enh_screenBoundaries_kept|].
  eapply enh_kept_trans; [apply enh_groundOrGravity_kept|].
  eapply enh_kept_trans; [apply enh_cooldownsTick_kept|].
  eapply enh_kept_trans; [apply enh_resetAttackState_kept|].
  apply enh_dodgeTick_kept.
Qed.

Lemma base_update_ok (f f' : Base.Fighter num) p out :
  Base.update f p = Ok (f', out) -> f' = Base.tick f.
Proof. unfold Base.update. destruct (Base.draw f); congruence. Qed.

Lemma enh_update_ok (f f' : Enhanced.Fighter num) p out :
  Enhanced.update f p = Ok (f', out) -> f' = Enhanced.tick f.
Proof. unfold Enhanced.update. destruct (Enhanced.draw f); congruence. Qed.

End GenericFacts.

(** ** Drawing never faults when the idle frames are there *)

Section DrawFacts.
Context {num : Type} `{!JSNum num}.

Lemma frame_at_nil (i : jsint) : frame_at [] i = None.
Proof. destruct i as [|z]; [done|]. simpl. by destruct (z <? 0). Qed.

Lemma frame_at_NaN (fs : list (option Image)) : frame_at fs NaN = None.
Proof. done. Qed.

Lemma hasFirstFrame_idle (anims : gmap string Animation) (d : Direction) :
  idleOk anims -> hasFirstFrame anims (idleKey d).
Proof. intros [Hr Hl]. by destruct d. Qed.

Lemma base_draw_returns (f : Base.Fighter num) :
  idleOk (Base.animations f) -> exists cmds, Base.draw f = Ok cmds.
Proof.
  intros Hidle. unfold Base.draw.
  destruct (_ ≫= _) as [img|]; [by eexists|].
  destruct (hasFirstFrame_idle _ (Base.lastDirection f) Hidle)
    as (a & img & -> & ->).
  by eexists.
Qed.

Lemma enh_draw_returns (f : Enhanced.Fighter num) :
  idleOk (Enhanced.animations f) -> exists cmds, Enhanced.draw f = Ok cmds.
Proof.
  intros Hidle. unfold Enhanced.draw.
  destruct (_ ≫= _) as [img|]; [by eexists|].
  destruct (hasFirstFrame_idle _ (Enhanced.lastDirection f) Hidle)
    as (a & img & -> & ->).
  by eexists.
Qed.

Lemma base_update_returns (f : Base.Fighter num) p :
  idleOk (Base.animations f) ->
  exists out, Base.update f p = Ok (Base.tick f, out).
Proof.
  intros Hidle. unfold Base.update.
  destruct (base_draw_returns f Hidle) as [cmds ->]. by eexists.
Qed.

Lemma enh_update_returns (f : Enhanced.Fighter num) p :
  idleOk (Enhanced.animations f) ->
  exists out, Enhanced.update f p = Ok (Enhanced.tick f, out).
Proof.
  intros Hidle. unfold Enhanced.update.
  destruct (enh_draw_returns f Hidle) as [cmds ->]. by eexists.
Qed.

Lemma base_tick_idleOk (f : Base.Fighter num) :
  idleOk (Base.animations f) -> idleOk (Base.animations (Base.tick f)).
Proof.
  destruct (base_tick_kept f) as (_ & _ & _ & _ & _ & -> & _). done.
Qed.

Lemma enh_tick_idleOk (f : Enhanced.Fighter num) :
  idleOk (Enhanced.animations f) ->
  idleOk (Enhanced.animations (Enhanced.tick f)).
Proof.
  destruct (enh_tick_kept f) as (_ & _ & _ & _ & _ & -> & _). done.
Qed.

Lemma degenerate_lookup (anims : gmap string Animation) key frame :
  degenerate anims key frame ->
  anims !! key ≫= (fun a => frame_at (frames a) frame) = None.
Proof.
  intros [[-> _] | [(a & -> & Hf) | (a & -> & Hnil)]]; simpl; [done|done|].
  rewrite Hnil. apply frame_at_nil.
Qed.

Lemma base_draw_fallback (f : Base.Fighter num) :
  idleOk (Base.animations f) ->
  degenerate (Base.animations f) (Base.currentAnimation f)
             (Base.currentFrame f) ->
  exists a img,
    Base.animations f !! idleKey (Base.lastDirection f) = Some a
    /\ frame_at (frames a) (Int 0) = Some img
    /\ Base.draw f = Ok [Base.drawFrame f img].
Proof.
  intros Hidle Hdeg. unfold Base.draw.
  rewrite (degenerate_lookup _ _ _ Hdeg).
  destruct (hasFirstFrame_idle _ (Base.lastDirection f) Hidle)
    as (a & img & Ha & Himg).
  exists a, img. by rewrite Ha, Himg.
Qed.

Lemma enh_draw_fallback (f : Enhanced.Fighter num) :
  idleOk (Enhanced.animations f) ->
  degenerate (Enhanced.animations f) (Enhanced.currentAnimation f)
             (Enhanced.currentFrame f) ->
  exists a img,
    Enhanced.animations f !! idleKey (Enhanced.lastDirection f) = Some a
    /\ frame_at (frames a) (Int 0) = Some img
    /\ Enhanced.draw f = Ok [Enhanced.drawFrame f img].
Proof.
  intros Hidle Hdeg. unfold Enhanced.draw.
  rewrite (degenerate_lookup _ _ _ Hdeg).
  destruct (hasFirstFrame_idle _ (Enhanced.lastDirection f) Hidle)
    as (a & img & Ha & Himg).
  exists a, img. by rewrite Ha, Himg.
Qed.

(** C7.  With frame 0 of both idle animations loaded, [draw] and
    [update] raise nothing when the current animation is missing
    (the lookup yields [undefined]), has no frame at the current index,
    or has an empty frame list (the placeholder the AI controller
    synthesizes): [draw] issues exactly one drawImage, of frame 0 of
    "idleRight" for a fighter facing right and of "idleLeft" for one
    facing left, at the fighter's position and at the image's size
    times the scale; and [update] returns the ticked fighter, whose
    next [update] returns too.  Stated for the fighter of both
    variants. *)
Theorem missing_animation_never_faults :
  (forall (f : Enhanced.Fighter num) (isPlayer : bool),
      idleOk (Enhanced.animations f) ->
      degenerate (Enhanced.animations f) (Enhanced.currentAnimation f)
                 (Enhanced.currentFrame f) ->
      (exists a img,
          Enhanced.animations f
            !! match Enhanced.lastDirection f with
               | Right => "idleRight"
               | Left => "idleLeft"
               end = Some a
          /\ frame_at (frames a) (Int 0) = Some img
          /\ Enhanced.draw f
             = Ok [DrawImage img
                     (nadd (x (Enhanced.position f)) (x (Enhanced.offset f)))
                     (nadd (y (Enhanced.position f)) (y (Enhanced.offset f)))
                     (nmul (ofZ (img_width img)) (Enhanced.scale f))
                     (nmul (ofZ (img_height img)) (Enhanced.scale f))])
      /\ (exists out, Enhanced.update f isPlayer = Ok (Enhanced.tick f, out))
      /\ (exists out,
             Enhanced.update (Enhanced.tick f) isPlayer
             = Ok (Enhanced.tick (Enhanced.tick f), out)))
  /\ (forall (f : Base.Fighter num) (isPlayer : bool),
      idleOk (Base.animations f) ->
      degenerate (Base.animations f) (Base.currentAnimation f)
                 (Base.currentFrame f) ->
      (exists a img,
          Base.animations f
            !! match Base.lastDirection f with
               | Right => "idleRight"
               | Left => "idleLeft"
               end = Some a
          /\ frame_at (frames a) (Int 0) = Some img
          /\ Base.draw f
             = Ok [DrawImage img
                     (nadd (x (Base.position f)) (x (Base.offset f)))
                     (nadd (y (Base.position f)) (y (Base.offset f)))
                     (nmul (ofZ (img_width img)) (Base.scale f))
                     (nmul (ofZ (img_height img)) (Base.scale f))])
      /\ (exists out, Base.update f isPlayer = Ok (Base.tick f, out))
      /\ (exists out,
             Base.update (Base.tick f) isPlayer
             = Ok (Base.tick (Base.tick f), out))).
Proof.
  split; intros f p Hidle Hdeg.
  - split; [|split; [by apply enh_update_returns|]].
    + destruct (enh_draw_fallback f Hidle Hdeg) as (a & img & Ha & Himg & Hd).
      exists a, img. split_and!; [|exact Himg|exact Hd].
      rewrite <- Ha. by destruct (Enhanced.lastDirection f).
    + apply enh_update_returns. by apply enh_tick_idleOk.
  - split; [|split; [by apply base_update_returns|]].
    + destruct (base_draw_fallback f Hidle Hdeg) as (a & img & Ha & Himg & Hd).
      exists a, img. split_and!; [|exact Himg|exact Hd].
      rewrite <- Ha. by destruct (Base.lastDirection f).
    + apply base_update_returns. by apply base_tick_idleOk.
Qed.

End DrawFacts.

(** ** The combat resolver, for every number instance *)

Section AttackFacts.
Context {num : Type} `{!JSNum num}.

Lemma afterHit_bounds (h d : Z) : 0 <= afterHit h d.
Proof. unfold afterHit. lia. Qed.

Lemma afterHit_le (h d : Z) : 0 <= h -> 0 <= d -> afterHit h d <= h.
Proof. unfold afterHit. lia. Qed.

Lemma afterHit_overkill (h d : Z) : h < d -> afterHit h d = 0.
Proof. unfold afterHit. lia. Qed.

Lemma afterHit_survive (h d : Z) : d <= h -> afterHit h d = h - d.
Proof. unfold afterHit. lia. Qed.

Lemma base_takeHit_eq (d : Z) (t : Base.Fighter num) :
  Base.takeHit d t = Base.set_health (afterHit (Base.health t) d) t.
Proof.
  unfold Base.takeHit, afterHit, Base.set_health. simpl.
  destruct (Z.ltb_spec (Base.health t - d) 0); simpl; f_equal; lia.
Qed.

Lemma enh_takeHit_eq (d : Z) (t : Enhanced.Fighter num) :
  Enhanced.takeHit d t
  = Enhanced.set_health (afterHit (Enhanced.health t) d) t.
Proof.
  unfold Enhanced.takeHit, afterHit, Enhanced.set_health. simpl.
  destruct (Z.ltb_spec (Enhanced.health t - d) 0); simpl; f_equal; lia.
Qed.

Lemma base_attack_ready (a t : Base.Fighter num) :
  Base.attackCooldown a <= 0 ->
  Base.attack a t
  = (Base.set_attackCooldown 120 (Base.set_isAttacking true a),
     if Base.hits (ofZ 100) a t
     then Base.set_health (afterHit (Base.health t) (Base.attackDamage a)) t
     else t).
Proof.
  intros Hcd. unfold Base.attack.
  destruct (Z.leb_spec (Base.attackCooldown a) 0); [|lia].
  cbv zeta.
  change (Base.hits (ofZ 100)
            (Base.set_attackCooldown 120 (Base.set_isAttacking true a)) t)
    with (Base.hits (ofZ 100) a t).
  destruct (Base.hits (ofZ 100) a t); [|done].
  by rewrite base_takeHit_eq.
Qed.

Lemma base_attack_blocked (a t : Base.Fighter num) :
  0 < Base.attackCooldown a -> Base.attack a t = (a, t).
Proof.
  intros Hcd. unfold Base.attack.
  destruct (Z.leb_spec (Base.attackCooldown a) 0); [lia|done].
Qed.

Lemma enh_attack_ready now (a t : Enhanced.Fighter num) :
  eligible a ->
  Enhanced.attack now a t
  = (struck now a,
     if Enhanced.hits (ofZ 120) a t
     then Enhanced.set_health
            (afterHit (Enhanced.health t) (Enhanced.attackDamage a)) t
     else t).
Proof.
  intros [Hcd Hdodge]. unfold Enhanced.attack, struck, nextCombo.
  destruct (Z.leb_spec (Enhanced.attackCooldown a) 0); [|lia].
  rewrite Hdodge. cbv zeta. simpl.
  destruct ((now - Enhanced.lastAttackTime a <? 500)
            && Enhanced.canCombo a)%bool.
  - match goal with
    | |- context [Enhanced.hits ?r ?a' t] =>
        change (Enhanced.hits r a' t) with (Enhanced.hits r a t)
    end.
    destruct (Enhanced.hits (ofZ 120) a t); [|done].
    by rewrite enh_takeHit_eq.
  - match goal with
    | |- context [Enhanced.hits ?r ?a' t] =>
        change (Enhanced.hits r a' t) with (Enhanced.hits r a t)
    end.
    destruct (Enhanced.hits (ofZ 120) a t); [|done].
    by rewrite enh_takeHit_eq.
Qed.

Lemma enh_attack_blocked now (a t : Enhanced.Fighter num) :
  0 < Enhanced.attackCooldown a \/ Enhanced.isDodging a = true ->
  Enhanced.attack now a t = (a, t).
Proof.
  intros Hblocked. unfold Enhanced.attack.
  destruct (Z.leb_spec (Enhanced.attackCooldown a) 0),
    (Enhanced.isDodging a) eqn:Hd; simpl; try done.
  destruct Hblocked; [lia|done].
Qed.

End AttackFacts.

(** ** Cooldown bookkeeping of one tick *)

Section TickFacts.
Context {num : Type} `{!JSNum num}.

Lemma base_combat_kept_trans (f g h : Base.Fighter num) :
  base_combat_kept f g -> base_combat_kept g h -> base_combat_kept f h.
Proof. unfold base_combat_kept. intros. destruct_and!. by split; etrans. Qed.

Lemma enh_combat_kept_trans (f g h : Enhanced.Fighter num) :
  enh_combat_kept f g -> enh_combat_kept g h -> enh_combat_kept f h.
Proof.
  unfold enh_combat_kept. intros. destruct_and!. by repeat split; etrans.
Qed.

Lemma base_physics_combat (f : Base.Fighter num) :
  base_combat_kept f (base_physics f).
Proof.
  unfold base_physics.
  eapply base_combat_kept_trans with (g := Base.advanceFrame f).
  { unfold Base.advanceFrame. simpl. repeat case_match; by split. }
  eapply base_combat_kept_trans with (g := Base.integrate _); [by split|].
  eapply base_combat_kept_trans with (g := Base.screenBoundaries _).
  { unfold Base.screenBoundaries. repeat case_match; by split. }
  unfold Base.groundOrGravity. case_match; by split.
Qed.

Lemma enh_physics_combat (f : Enhanced.Fighter num) :
  enh_combat_kept f (enh_physics f).
Proof.
  unfold enh_physics.
  eapply enh_combat_kept_trans with (g := Enhanced.advanceFrame f).
  { unfold Enhanced.advanceFrame. simpl. repeat case_match; by repeat split. }
  eapply enh_combat_kept_trans with (g := Enhanced.integrate _);
    [by repeat split|].
  eapply enh_combat_kept_trans with (g := Enhanced.screenBoundaries _).
  { unfold Enhanced.screenBoundaries. repeat case_match; by repeat split. }
  unfold Enhanced.groundOrGravity. case_match; by repeat split.
Qed.

(** The base variant decrements a positive cooldown and otherwise
    clears the flag: the two never happen in the same tick. *)
Lemma base_tick_cooldown (f : Base.Fighter num) :
  Base.attackCooldown (Base.tick f)
  = (if Base.attackCooldown f >? 0 then Base.attackCooldown f - 1
     else Base.attackCooldown f)
  /\ Base.isAttacking (Base.tick f)
     = (if Base.attackCooldown f >? 0 then Base.isAttacking f else false).
Proof.
  change (Base.tick f) with (Base.attackCooldownTick (base_physics f)).
  destruct (base_physics_combat f) as [Hcd Hatt].
  unfold Base.attackCooldownTick. rewrite Hcd, Hatt.
  destruct (Base.attackCooldown f >? 0); simpl; [done|].
  destruct (Base.isAttacking f) eqn:E; simpl; [done|]. by rewrite Hatt.
Qed.

Lemma enh_cooldownsTick_fields (g : Enhanced.Fighter num) :
  Enhanced.attackCooldown (Enhanced.cooldownsTick g)
  = (if Enhanced.attackCooldown g >? 0 then Enhanced.attackCooldown g - 1
     else Enhanced.attackCooldown g)
  /\ Enhanced.isAttacking (Enhanced.cooldownsTick g) = Enhanced.isAttacking g
  /\ Enhanced.canCombo (Enhanced.cooldownsTick g) = Enhanced.canCombo g
  /\ Enhanced.isDodging (Enhanced.cooldownsTick g) = Enhanced.isDodging g.
Proof. unfold Enhanced.cooldownsTick. by repeat case_match. Qed.

Lemma enh_resetAttackState_fields (g : Enhanced.Fighter num) :
  let expired :=
    ((Enhanced.attackCooldown g <=? 0) && Enhanced.isAttacking g)%bool in
  Enhanced.attackCooldown (Enhanced.resetAttackState g)
  = Enhanced.attackCooldown g
  /\ Enhanced.isAttacking (Enhanced.resetAttackState g)
     = (if expired then false else Enhanced.isAttacking g)
  /\ Enhanced.canCombo (Enhanced.resetAttackState g)
     = (if expired then true else Enhanced.canCombo g)
  /\ Enhanced.isDodging (Enhanced.resetAttackState g) = Enhanced.isDodging g.
Proof. unfold Enhanced.resetAttackState. by case_match. Qed.

Lemma enh_dodgeTick_fields (g : Enhanced.Fighter num) :
  Enhanced.attackCooldown (Enhanced.dodgeTick g) = Enhanced.attackCooldown g
  /\ Enhanced.isAttacking (Enhanced.dodgeTick g) = Enhanced.isAttacking g
  /\ Enhanced.canCombo (Enhanced.dodgeTick g) = Enhanced.canCombo g
  /\ (Enhanced.isDodging g = false ->
      Enhanced.isDodging (Enhanced.dodgeTick g) = false).
Proof.
  unfold Enhanced.dodgeTick, Enhanced.setAnimation.
  destruct (Enhanced.isDodging g) eqn:E; [|done].
  cbv zeta. by repeat case_match.
Qed.

(** The enhanced variant decrements first and tests afterwards. *)
Lemma enh_tick_cooldown (f : Enhanced.Fighter num) :
  let cd := if Enhanced.attackCooldown f >? 0
            then Enhanced.attackCooldown f - 1
            else Enhanced.attackCooldown f in
  let expired := ((cd <=? 0) && Enhanced.isAttacking f)%bool in
  Enhanced.attackCooldown (Enhanced.tick f) = cd
  /\ Enhanced.isAttacking (Enhanced.tick f)
     = (if expired then false else Enhanced.isAttacking f)
  /\ Enhanced.canCombo (Enhanced.tick f)
     = (if expired then true else Enhanced.canCombo f)
  /\ (Enhanced.isDodging f = false ->
      Enhanced.isDodging (Enhanced.tick f) = false).
Proof.
  change (Enhanced.tick f)
    with (Enhanced.dodgeTick
            (Enhanced.resetAttackState
               (Enhanced.cooldownsTick (enh_physics f)))).
  destruct (enh_physics_combat f) as (Hcd & Hatt & Hdg & _ & _ & Hcc).
  destruct (enh_dodgeTick_fields
              (Enhanced.resetAttackState
                 (Enhanced.cooldownsTick (enh_physics f))))
    as (-> & -> & -> & Hd3).
  destruct (enh_resetAttackState_fields
              (Enhanced.cooldownsTick (enh_physics f)))
    as (-> & -> & -> & Hd2).
  destruct (enh_cooldownsTick_fields (enh_physics f))
    as (-> & -> & -> & Hd1).
  rewrite Hcd, Hatt, Hcc. repeat split.
  intros Hf. apply Hd3. by rewrite Hd2, Hd1, Hdg.
Qed.

End TickFacts.

(** ** Claims about the combat resolver and the cooldown *)

Section CombatClaims.
Context {num : Type} `{!JSNum num}.

(** C3.  An attack issued while the attacker's cooldown is positive
    (or, in the enhanced variant, while the attacker is dodging) changes
    nothing at all: attacker and target come back as they were, so the
    target's health and the attacker's isAttacking, attackCooldown,
    comboCount and lastAttackTime are unchanged. *)
Theorem attack_on_cooldown_is_noop :
  (forall (a t : Base.Fighter num),
      0 < Base.attackCooldown a -> Base.attack a t = (a, t))
  /\ (forall (now : Z) (a t : Enhanced.Fighter num),
         0 < Enhanced.attackCooldown a \/ Enhanced.isDodging a = true ->
         Enhanced.attack now a t = (a, t)).
Proof.
  split.
  - apply base_attack_blocked.
  - intros now a t. apply enh_attack_blocked.
Qed.

(** C8.  In the enhanced variant the resolver never looks at the
    target's isDodging: whatever that flag is set to, an eligible
    attacker whose hitbox overlaps the target takes attackDamage off
    the target's health (clamped at 0), the outcome is the one for the
    target with the flag left as it was, and the flag itself is not
    touched. *)
Theorem hit_ignores_target_dodge :
  forall (now : Z) (a t : Enhanced.Fighter num) (dodging : bool),
    eligible a ->
    Enhanced.hits (ofZ 120) a t = true ->
    let t' := Enhanced.set_isDodging dodging t in
    Enhanced.health (Enhanced.attack now a t').2
    = afterHit (Enhanced.health t) (Enhanced.attackDamage a)
    /\ Enhanced.attack now a t'
       = ((Enhanced.attack now a t).1,
          Enhanced.set_isDodging dodging (Enhanced.attack now a t).2)
    /\ Enhanced.isDodging (Enhanced.attack now a t').2 = dodging.
Proof.
  intros now a t dodging Hel Hhit t'.
  rewrite !(enh_attack_ready now a _ Hel).
  change (Enhanced.hits (ofZ 120) a t') with (Enhanced.hits (ofZ 120) a t).
  rewrite Hhit. done.
Qed.

(** C10.  [update] never changes health; [attack] leaves position and
    velocity of both fighters alone and writes nothing but the
    target's health and the attacker's isAttacking and attackCooldown
    (and comboCount and lastAttackTime in the enhanced variant): the
    fighters it returns are the old ones with those fields set.  The
    remaining method that writes a fighter, [setAnimation], keeps
    health too. *)
Theorem update_and_attack_frame :
  (forall (f f' : Base.Fighter num) p out,
      Base.update f p = Ok (f', out) -> Base.health f' = Base.health f)
  /\ (forall (a t : Base.Fighter num),
         let r := Base.attack a t in
         (exists att cd h,
             r = (Base.set_attackCooldown cd (Base.set_isAttacking att a),
                  Base.set_health h t))
         /\ Base.position r.1 = Base.position a
         /\ Base.velocity r.1 = Base.velocity a
         /\ Base.position r.2 = Base.position t
         /\ Base.velocity r.2 = Base.velocity t)
  /\ (forall (f f' : Enhanced.Fighter num) p out,
         Enhanced.update f p = Ok (f', out) ->
         Enhanced.health f' = Enhanced.health f)
  /\ (forall (now : Z) (a t : Enhanced.Fighter num),
         let r := Enhanced.attack now a t in
         (exists att combo cd last h,
             r = (Enhanced.set_lastAttackTime last
                    (Enhanced.set_attackCooldown cd
                       (Enhanced.set_comboCount combo
                          (Enhanced.set_isAttacking att a))),
                  Enhanced.set_health h t))
         /\ Enhanced.position r.1 = Enhanced.position a
         /\ Enhanced.velocity r.1 = Enhanced.velocity a
         /\ Enhanced.position r.2 = Enhanced.position t
         /\ Enhanced.velocity r.2 = Enhanced.velocity t)
  /\ (forall key (f : Base.Fighter num),
         Base.health (Base.setAnimation key f) = Base.health f)
  /\ (forall key (f : Enhanced.Fighter num),
         Enhanced.health (Enhanced.setAnimation key f) = Enhanced.health f).
Proof.
  repeat apply conj.
  - intros f f' p out Hup. rewrite (base_update_ok _ _ _ _ Hup).
    apply base_tick_kept.
  - intros a t r. subst r.
    destruct (Z.lt_ge_cases 0 (Base.attackCooldown a)) as [Hcd|Hcd].
    + rewrite (base_attack_blocked a t Hcd). split; [|done].
      exists (Base.isAttacking a), (Base.attackCooldown a), (Base.health t).
      by destruct a, t.
    + rewrite (base_attack_ready a t Hcd).
      destruct (Base.hits (ofZ 100) a t); (split; [|done]).
      * by eexists _, _, _.
      * exists true, 120, (Base.health t). by destruct t.
  - intros f f' p out Hup. rewrite (enh_update_ok _ _ _ _ Hup).
    apply enh_tick_kept.
  - intros now a t r. subst r.
    destruct (Z.lt_ge_cases 0 (Enhanced.attackCooldown a)) as [Hcd|Hcd];
      [|destruct (Enhanced.isDodging a) eqn:Hdodge].
    + rewrite (enh_attack_blocked now a t (or_introl Hcd)). split; [|done].
      exists (Enhanced.isAttacking a), (Enhanced.comboCount a),
        (Enhanced.attackCooldown a), (Enhanced.lastAttackTime a),
        (Enhanced.health t).
      by destruct a, t.
    + rewrite (enh_attack_blocked now a t (or_intror Hdodge)).
      split; [|done].
      exists (Enhanced.isAttacking a), (Enhanced.comboCount a),
        (Enhanced.attackCooldown a), (Enhanced.lastAttackTime a),
        (Enhanced.health t).
      by destruct a, t.
    + rewrite (enh_attack_ready now a t (conj Hcd Hdodge)).
      destruct (Enhanced.hits (ofZ 120) a t); (split; [|done]).
      * by eexists _, _, _, _, _.
      * exists true, (nextCombo now a), (30 - nextCombo now a * 5), now,
          (Enhanced.health t).
        by destruct t.
  - intros key f. unfold Base.setAnimation. by case_match.
  - intros key f. unfold Enhanced.setAnimation. by case_match.
Qed.

(** After an attack, running the cooldown down with [update] resolves
    it: as many ticks as the cooldown counts end with the fighter
    eligible again and the combo window open. *)
Lemma enh_updates_resolve (n : nat) :
  forall (a : Enhanced.Fighter num),
    idleOk (Enhanced.animations a) ->
    Enhanced.isDodging a = false ->
    Enhanced.isAttacking a = true ->
    Enhanced.attackCooldown a = Z.of_nat (S n) ->
    exists a', enh_updates (S n) a = Ok a' /\ resolved a a'.
Proof.
  induction n as [|n IH]; intros a Hidle Hdodge Hatt Hcd.
  - destruct (enh_update_returns a false Hidle) as [out Hup].
    exists (Enhanced.tick a). simpl. rewrite Hup. split; [done|].
    destruct (enh_tick_cooldown a) as (Hcd' & _ & Hcc & Hdg).
    destruct (enh_tick_kept a) as (_ & _ & _ & _ & _ & _ & _ & Hcombo & Hlast).
    rewrite Hcd, Hatt in *. simpl in *.
    repeat split; [lia | by apply Hdg | done | done | done].
  - destruct (enh_update_returns a false Hidle) as [out Hup].
    destruct (enh_tick_cooldown a) as (Hcd' & Hatt' & _ & Hdg).
    destruct (enh_tick_kept a) as (_ & _ & _ & _ & _ & _ & _ & Hcombo & Hlast).
    rewrite Hcd, Hatt in *.
    assert (Hpos : (Z.of_nat (S (S n)) >? 0) = true)
      by (rewrite Z.gtb_ltb; apply Z.ltb_lt; lia).
    rewrite Hpos in *.
    assert (Hnz : (Z.of_nat (S (S n)) - 1 <=? 0) = false)
      by (apply Z.leb_gt; lia).
    rewrite Hnz in *. simpl andb in *. cbv iota in *.
    destruct (IH (Enhanced.tick a)) as (a' & Hrun & Hel & Hcc & Hco & Hla).
    + by apply enh_tick_idleOk.
    + by apply Hdg.
    + done.
    + lia.
    + exists a'. split.
      * change (enh_updates (S (S n)) a)
          with (match Enhanced.update a false with
                | Throw e => Throw e
                | Ok (f', _) => enh_updates (S n) f'
                end).
        by rewrite Hup.
      * repeat split; try apply Hel; congruence.
Qed.

(** C4.  An eligible attack of the enhanced variant at time [now]
    advances comboCount to (comboCount + 1) mod 3 when fewer than 500 ms
    have passed since lastAttackTime and canCombo is set, and resets it
    to 0 otherwise; the cooldown becomes 30 - 5 * comboCount for the new
    comboCount and lastAttackTime becomes [now].  Hence three attacks
    100 ms apart, the first one opening no combo and each later one
    made once the previous has resolved (eligible again, canCombo
    set), give comboCount 0, 1, 2 and cooldowns 30, 25, 20. *)
Theorem combo_step_and_sequence :
  (forall (now : Z) (a t : Enhanced.Fighter num),
      eligible a ->
      0 <= Enhanced.comboCount a ->
      let a' := (Enhanced.attack now a t).1 in
      Enhanced.comboCount a'
      = (if ((now - Enhanced.lastAttackTime a <? 500)
             && Enhanced.canCombo a)%bool
         then (Enhanced.comboCount a + 1) mod 3 else 0)
      /\ Enhanced.attackCooldown a' = 30 - 5 * Enhanced.comboCount a'
      /\ Enhanced.lastAttackTime a' = now)
  /\ (forall (t0 : Z) (a0 a1 a2 tgt0 tgt1 tgt2 : Enhanced.Fighter num),
         eligible a0 ->
         Enhanced.canCombo a0 = false
         \/ 500 <= t0 - Enhanced.lastAttackTime a0 ->
         let s1 := (Enhanced.attack t0 a0 tgt0).1 in
         let s2 := (Enhanced.attack (t0 + 100) a1 tgt1).1 in
         let s3 := (Enhanced.attack (t0 + 200) a2 tgt2).1 in
         resolved s1 a1 ->
         resolved s2 a2 ->
         (Enhanced.comboCount s1, Enhanced.comboCount s2,
          Enhanced.comboCount s3) = (0, 1, 2)
         /\ (Enhanced.attackCooldown s1, Enhanced.attackCooldown s2,
             Enhanced.attackCooldown s3) = (30, 25, 20)).
Proof.
  split.
  - intros now a t Hel Hcombo a'. subst a'.
    rewrite (enh_attack_ready now a t Hel). simpl. unfold nextCombo.
    destruct ((now - Enhanced.lastAttackTime a <? 500)
              && Enhanced.canCombo a)%bool; [|done].
    rewrite Z.rem_mod_nonneg by lia. repeat split. lia.
  - intros t0 a0 a1 a2 tgt0 tgt1 tgt2 Hel0 Hfirst s1 s2 s3.
    subst s1 s2 s3.
    rewrite (enh_attack_ready t0 a0 tgt0 Hel0). simpl.
    intros (Hel1 & Hcc1 & Hco1 & Hla1).
    rewrite (enh_attack_ready (t0 + 100) a1 tgt1 Hel1). simpl.
    intros (Hel2 & Hcc2 & Hco2 & Hla2).
    rewrite (enh_attack_ready (t0 + 200) a2 tgt2 Hel2). simpl.
    simpl in Hco1, Hla1, Hco2, Hla2.
    assert (H0 : nextCombo t0 a0 = 0).
    { unfold nextCombo. destruct Hfirst as [-> | Hlate].
      - by rewrite andb_false_r.
      - destruct (Z.ltb_spec (t0 - Enhanced.lastAttackTime a0) 500);
          [lia|done]. }
    assert (H1 : nextCombo (t0 + 100) a1 = 1).
    { unfold nextCombo. rewrite Hcc1, Hco1, Hla1, H0.
      destruct (Z.ltb_spec (t0 + 100 - t0) 500); [done|lia]. }
    assert (H2 : nextCombo (t0 + 200) a2 = 2).
    { unfold nextCombo. rewrite Hcc2, Hco2, Hla2, H1.
      destruct (Z.ltb_spec (t0 + 200 - (t0 + 100)) 500); [done|lia]. }
    by rewrite H0, H1, H2.
Qed.

(** C5, as the code has it.  In the enhanced variant the tick that
    brings a positive attackCooldown to 0 while isAttacking is set
    clears isAttacking and sets canCombo in that same tick.  In the
    base variant that tick only decrements: isAttacking is still set
    after it, and it is the next tick, which finds the cooldown at 0,
    that clears the flag. *)
Theorem isAttacking_cleared_when_cooldown_expires :
  (forall (f f' : Enhanced.Fighter num) p out,
      Enhanced.update f p = Ok (f', out) ->
      Enhanced.isAttacking f = true ->
      0 < Enhanced.attackCooldown f ->
      Enhanced.attackCooldown f' = 0 ->
      Enhanced.isAttacking f' = false /\ Enhanced.canCombo f' = true)
  /\ (forall (f f1 : Base.Fighter num) p out,
         Base.update f p = Ok (f1, out) ->
         Base.isAttacking f = true ->
         0 < Base.attackCooldown f ->
         Base.attackCooldown f1 = 0 ->
         Base.isAttacking f1 = true
         /\ forall f2 p' out',
             Base.update f1 p' = Ok (f2, out') ->
             Base.isAttacking f2 = false /\ Base.attackCooldown f2 = 0).
Proof.
  split.
  - intros f f' p out Hup Hatt Hpos Hzero.
    rewrite (enh_update_ok _ _ _ _ Hup) in *.
    destruct (enh_tick_cooldown f) as (Hcd & Hatt' & Hcc & _).
    rewrite Hatt', Hcc. rewrite Hcd in Hzero. rewrite Hatt.
    destruct (Z.gtb_spec (Enhanced.attackCooldown f) 0); [|lia].
    rewrite Hzero. done.
  - intros f f1 p out Hup Hatt Hpos Hzero.
    rewrite (base_update_ok _ _ _ _ Hup) in *.
    destruct (base_tick_cooldown f) as (Hcd & Hatt').
    destruct (Z.gtb_spec (Base.attackCooldown f) 0); [|lia].
    split; [congruence|].
    intros f2 p' out' Hup2. rewrite (base_update_ok _ _ _ _ Hup2).
    destruct (base_tick_cooldown (Base.tick f)) as (Hcd2 & Hatt2).
    rewrite Hatt2, Hcd2, Hzero. done.
Qed.

End CombatClaims.

(** ** The health invariant over the reachable states *)

Section Invariant.
Context {num : Type} `{!JSNum num}.

Local Ltac body := repeat case_match; by split_and!.

Lemma base_sameBody_trans (f g h : Base.Fighter num) :
  base_sameBody f g -> base_sameBody g h -> base_sameBody f h.
Proof. unfold base_sameBody. intros. destruct_and!. by split_and!; etrans. Qed.

Lemma enh_sameBody_trans (f g h : Enhanced.Fighter num) :
  enh_sameBody f g -> enh_sameBody g h -> enh_sameBody f h.
Proof. unfold enh_sameBody. intros. destruct_and!. by split_and!; etrans. Qed.

Lemma base_sameBody_wf (f g : Base.Fighter num) :
  base_sameBody f g -> base_wellFormed f -> base_wellFormed g.
Proof.
  unfold base_sameBody, base_wellFormed. intros. destruct_and!.
  split_and!; congruence.
Qed.

Lemma enh_sameBody_wf (f g : Enhanced.Fighter num) :
  enh_sameBody f g -> enh_wellFormed f -> enh_wellFormed g.
Proof.
  unfold enh_sameBody, enh_wellFormed. intros. destruct_and!.
  split_and!; congruence.
Qed.

Lemma base_tick_body (f : Base.Fighter num) : base_sameBody f (Base.tick f).
Proof.
  destruct (base_tick_kept f) as (? & ? & ? & ? & ? & _). by split_and!.
Qed.

Lemma enh_tick_body (f : Enhanced.Fighter num) :
  enh_sameBody f (Enhanced.tick f).
Proof.
  destruct (enh_tick_kept f) as (? & ? & ? & ? & ? & _ & _ & ? & _).
  by split_and!.
Qed.

Lemma base_setAnimation_body key (f : Base.Fighter num) :
  base_sameBody f (Base.setAnimation key f).
Proof. unfold Base.setAnimation. body. Qed.

Lemma enh_setAnimation_body key (f : Enhanced.Fighter num) :
  enh_sameBody f (Enhanced.setAnimation key f).
Proof. unfold Enhanced.setAnimation. body. Qed.

Lemma base_movementLogic_body k (f : Base.Fighter num) :
  base_sameBody f (Base.movementLogic k f).
Proof.
  unfold Base.movementLogic, Base.setAnimation, Base.setVelocityX. body.
Qed.

Lemma enh_movementLogic_body k (f : Enhanced.Fighter num) :
  enh_sameBody f (Enhanced.movementLogic k f).
Proof.
  unfold Enhanced.movementLogic, Enhanced.setAnimation,
    Enhanced.setVelocityX.
  body.
Qed.

Lemma base_jump_body (f : Base.Fighter num) : base_sameBody f (Base.jump f).
Proof. unfold Base.jump, Base.setAnimation, Base.setVelocityY. body. Qed.

Lemma enh_jump_body (f : Enhanced.Fighter num) :
  enh_sameBody f (Enhanced.jump f).
Proof.
  unfold Enhanced.jump, Enhanced.setAnimation, Enhanced.setVelocityY. body.
Qed.

Lemma enh_dodge_body (f : Enhanced.Fighter num) :
  enh_sameBody f (Enhanced.dodge f).
Proof.
  unfold Enhanced.dodge, Enhanced.setAnimation, Enhanced.setVelocityX. body.
Qed.

Lemma enh_ensureAnimation_body key (f : Enhanced.Fighter num) :
  enh_sameBody f (Enhanced.ensureAnimation key f).
Proof. unfold Enhanced.ensureAnimation. body. Qed.

(** [attack] keeps both fighters well formed. *)
Lemma base_attack_wf (a t : Base.Fighter num) :
  base_wellFormed a -> base_wellFormed t ->
  base_wellFormed (Base.attack a t).1 /\ base_wellFormed (Base.attack a t).2.
Proof.
  intros Ha Ht.
  destruct (Z.lt_ge_cases 0 (Base.attackCooldown a)) as [Hcd|Hcd].
  - by rewrite (base_attack_blocked a t Hcd).
  - rewrite (base_attack_ready a t Hcd). simpl. split; [done|].
    destruct (Base.hits (ofZ 100) a t); [|done].
    destruct Ha as (_ & Hd & _), Ht as (Hh & Hd' & Hw & Hht).
    split_and!; simpl; try done.
    + apply afterHit_bounds.
    + pose proof (afterHit_le (Base.health t) (Base.attackDamage a)). lia.
Qed.

Lemma nextCombo_range now (a : Enhanced.Fighter num) :
  0 <= Enhanced.comboCount a -> 0 <= nextCombo now a <= 2.
Proof.
  intros Hc. unfold nextCombo. case_match; [|lia].
  rewrite Z.rem_mod_nonneg by lia.
  pose proof (Z.mod_pos_bound (Enhanced.comboCount a + 1) 3). lia.
Qed.

Lemma enh_attack_wf now (a t : Enhanced.Fighter num) :
  enh_wellFormed a -> enh_wellFormed t ->
  enh_wellFormed (Enhanced.attack now a t).1
  /\ enh_wellFormed (Enhanced.attack now a t).2.
Proof.
  intros Ha Ht.
  destruct (Z.lt_ge_cases 0 (Enhanced.attackCooldown a)) as [Hcd|Hcd];
    [|destruct (Enhanced.isDodging a) eqn:Hdodge].
  - by rewrite (enh_attack_blocked now a t (or_introl Hcd)).
  - by rewrite (enh_attack_blocked now a t (or_intror Hdodge)).
  - rewrite (enh_attack_ready now a t (conj Hcd Hdodge)). simpl.
    destruct Ha as (Hha & Hd & Hwa & Hhta & Hca).
    split.
    + pose proof (nextCombo_range now a ltac:(lia)).
      split_and!; simpl; try done; lia.
    + destruct (Enhanced.hits (ofZ 120) a t); [|done].
      destruct Ht as (Hh & Hd' & Hw & Hht & Hc).
      split_and!; simpl; try done; try lia.
      * apply afterHit_bounds.
      * pose proof (afterHit_le (Enhanced.health t) (Enhanced.attackDamage a)).
        lia.
Qed.

(** The controller keeps both fighters well formed. *)
Lemma enh_attackBranch_wf now attackNow d drawn ai
    (fighter target : Enhanced.Fighter num) :
  enh_wellFormed fighter -> enh_wellFormed target ->
  let r := Enhanced.attackBranch now attackNow d drawn ai fighter target in
  enh_wellFormed (Enhanced.fighter_after r)
  /\ enh_wellFormed (Enhanced.target_after r).
Proof.
  intros Hf Ht. unfold Enhanced.attackBranch.
  set (k := "attack" +:+ dirString d).
  set (f1 := Enhanced.ensureAnimation k (Enhanced.setAnimation k fighter)).
  assert (Hf1 : enh_wellFormed f1).
  { eapply enh_sameBody_wf; [|exact Hf].
    eapply enh_sameBody_trans;
      [apply enh_setAnimation_body | apply enh_ensureAnimation_body]. }
  destruct (enh_attack_wf attackNow f1 target Hf1 Ht) as [Ha' Ht'].
  destruct (Enhanced.attack attackNow f1 target) as [f2 t2]. simpl in *.
  split; [|done].
  eapply enh_sameBody_wf; [|exact Ha']. by split_and!.
Qed.

Lemma enh_moveBranch_body now random d dx adx drawn ai
    (fighter target : Enhanced.Fighter num) :
  let r := Enhanced.moveBranch now random d dx adx drawn ai fighter target in
  enh_sameBody fighter (Enhanced.fighter_after r)
  /\ Enhanced.target_after r = target.
Proof.
  unfold Enhanced.moveBranch. cbv zeta.
  match goal with
  | |- context [Enhanced.set_lastDirection d ?g] =>
      assert (Hg : enh_sameBody fighter (Enhanced.set_lastDirection d g))
  end.
  { match goal with
    | |- enh_sameBody _
           (Enhanced.set_lastDirection d (Enhanced.setAnimation ?K ?F)) =>
        assert (HF : enh_sameBody fighter F)
          by (unfold Enhanced.setVelocityX, Enhanced.setVelocityY; body);
        eapply enh_sameBody_trans; [exact HF|];
        eapply enh_sameBody_trans; [apply (enh_setAnimation_body K F)|];
        by split_and!
    end. }
  match type of Hg with
  | enh_sameBody _ ?g => generalize dependent g
  end.
  intros g Hg.
  repeat case_match; simpl; (split; [|done]); try exact Hg.
  all: eapply enh_sameBody_trans; [exact Hg|].
  all: eapply enh_sameBody_trans; [|apply enh_setAnimation_body].
  all: by split_and!.
Qed.

Lemma enh_aiUpdate_wf now attackNow random ai
    (fighter target : Enhanced.Fighter num) :
  enh_wellFormed fighter -> enh_wellFormed target ->
  let r := Enhanced.aiUpdate now attackNow random ai fighter target in
  enh_wellFormed (Enhanced.fighter_after r)
  /\ enh_wellFormed (Enhanced.target_after r).
Proof.
  intros Hf Ht. unfold Enhanced.aiUpdate.
  destruct (now <? Enhanced.nextActionTime ai); [done|]. cbv zeta.
  match goal with |- context [if ?c then _ else _] => destruct c end.
  - by apply enh_attackBranch_wf.
  - match goal with
    | |- context [Enhanced.moveBranch ?a ?b ?c ?d ?e ?g ?h ?i ?j] =>
        destruct (enh_moveBranch_body a b c d e g h i j) as [Hb ->]
    end.
    split; [|done]. by eapply enh_sameBody_wf.
Qed.

Lemma base_newFighter_wf p v anims s o :
  base_wellFormed (Base.newFighter (num:=num) p v anims s o).
Proof. by split_and!. Qed.

Lemma enh_newFighter_wf p v anims s o :
  enh_wellFormed (Enhanced.newFighter (num:=num) p v anims s o).
Proof. by split_and!. Qed.

Lemma base_gameLoop_wf (w : Base.World num) :
  base_wellFormed (Base.player w) -> base_wellFormed (Base.enemy w) ->
  base_wellFormed (Base.player (Base.gameLoop w))
  /\ base_wellFormed (Base.enemy (Base.gameLoop w)).
Proof.
  intros Hp He. unfold Base.gameLoop.
  destruct (Base.gameRunning w); simpl; [|done].
  destruct (Base.update (Base.player w) true) as [[p outp]|] eqn:Hup;
    [|done].
  apply base_update_ok in Hup. subst p.
  assert (Hp' : base_wellFormed (Base.tick (Base.player w)))
    by (eapply base_sameBody_wf; [apply base_tick_body|done]).
  destruct (Base.update (Base.enemy w) false) as [[e oute]|] eqn:Hue;
    [|done].
  apply base_update_ok in Hue. subst e.
  assert (He' : base_wellFormed (Base.tick (Base.enemy w)))
    by (eapply base_sameBody_wf; [apply base_tick_body|done]).
  cbv zeta.
  assert (base_wellFormed
            (Base.movementLogic (Base.keys_player w)
               (Base.tick (Base.player w))))
    by (eapply base_sameBody_wf; [apply base_movementLogic_body|done]).
  assert (base_wellFormed
            (Base.movementLogic (Base.keys_enemy w) (Base.tick (Base.enemy w))))
    by (eapply base_sameBody_wf; [apply base_movementLogic_body|done]).
  by case_match.
Qed.

Lemma base_step_wf ev (w : Base.World num) :
  base_wellFormed (Base.player w) -> base_wellFormed (Base.enemy w) ->
  base_wellFormed (Base.player (Base.step ev w))
  /\ base_wellFormed (Base.enemy (Base.step ev w)).
Proof.
  intros Hp He. destruct ev as [|key|key]; simpl.
  - destruct (Base.frameRequested w); [by apply base_gameLoop_wf|done].
  - unfold Base.keydown. cbv zeta.
    repeat (case_match; simpl; try done).
    + split; [|done].
      eapply base_sameBody_wf; [apply base_jump_body|done].
    + destruct (base_attack_wf _ _ Hp He) as [Ha Ht].
      match goal with H : Base.attack _ _ = _ |- _ => rewrite H in * end.
      split; [|done].
      eapply base_sameBody_wf; [apply base_setAnimation_body|done].
    + split; [done|].
      eapply base_sameBody_wf; [apply base_jump_body|done].
    + destruct (base_attack_wf _ _ He Hp) as [Ha Ht].
      match goal with H : Base.attack _ _ = _ |- _ => rewrite H in * end.
      split; [done|].
      eapply base_sameBody_wf; [apply base_setAnimation_body|done].
  - unfold Base.keyup. cbv zeta. repeat (case_match; simpl; try done).
Qed.

Lemma base_reachable_wf imgs (w : Base.World num) :
  Base.reachable imgs w ->
  base_wellFormed (Base.player w) /\ base_wellFormed (Base.enemy w).
Proof.
  induction 1 as [|w ev _ [Hp He]].
  - split; apply base_newFighter_wf.
  - by apply base_step_wf.
Qed.

Lemma enh_animate_wf now attackNow random (w : Enhanced.World num) :
  enh_wellFormed (Enhanced.player w) -> enh_wellFormed (Enhanced.enemy w) ->
  enh_wellFormed (Enhanced.player (Enhanced.animate now attackNow random w))
  /\ enh_wellFormed
       (Enhanced.enemy (Enhanced.animate now attackNow random w)).
Proof.
  intros Hp He. unfold Enhanced.animate.
  destruct (Enhanced.update (Enhanced.player w) true) as [[p outp]|] eqn:Hup;
    [|done].
  apply enh_update_ok in Hup. subst p.
  assert (Hp' : enh_wellFormed (Enhanced.tick (Enhanced.player w)))
    by (eapply enh_sameBody_wf; [apply enh_tick_body|done]).
  destruct (Enhanced.update (Enhanced.enemy w) false) as [[e oute]|] eqn:Hue;
    [|done].
  apply enh_update_ok in Hue. subst e.
  assert (He' : enh_wellFormed (Enhanced.tick (Enhanced.enemy w)))
    by (eapply enh_sameBody_wf; [apply enh_tick_body|done]).
  cbv zeta.
  assert (Hp'' : enh_wellFormed
            (Enhanced.movementLogic (Enhanced.keys_player w)
               (Enhanced.tick (Enhanced.player w))))
    by (eapply enh_sameBody_wf; [apply enh_movementLogic_body|done]).
  destruct (enh_aiUpdate_wf now attackNow random (Enhanced.enemyAI w)
              _ _ He' Hp'') as [Hf Ht].
  simpl. split; [done|].
  case_match; [|done].
  eapply enh_sameBody_wf; [apply enh_setAnimation_body|done].
Qed.

Lemma enh_step_wf ev (w : Enhanced.World num) :
  enh_wellFormed (Enhanced.player w) -> enh_wellFormed (Enhanced.enemy w) ->
  enh_wellFormed (Enhanced.player (Enhanced.step ev w))
  /\ enh_wellFormed (Enhanced.enemy (Enhanced.step ev w)).
Proof.
  intros Hp He. destruct ev as [now attackNow random|key now|key]; simpl.
  - destruct (Enhanced.frameRequested w); [by apply enh_animate_wf|done].
  - unfold Enhanced.keydown. cbv zeta.
    repeat (case_match; simpl; try done).
    + split; [|done].
      eapply enh_sameBody_wf; [apply enh_jump_body|done].
    + destruct (enh_attack_wf now _ _ Hp He) as [Ha Ht].
      match goal with H : Enhanced.attack _ _ _ = _ |- _ => rewrite H in * end.
      split; [|done].
      eapply enh_sameBody_wf; [apply enh_setAnimation_body|done].
    + split; [|done].
      eapply enh_sameBody_wf; [apply enh_dodge_body|done].
  - unfold Enhanced.keyup. cbv zeta. repeat (case_match; simpl; try done).
Qed.

Lemma enh_reachable_wf imgs (w : Enhanced.World num) :
  Enhanced.reachable imgs w ->
  enh_wellFormed (Enhanced.player w) /\ enh_wellFormed (Enhanced.enemy w).
Proof.
  induction 1 as [|w ev _ [Hp He]].
  - unfold Enhanced.initWorld, Enhanced.resetGame, Enhanced.setAnimation.
    simpl. split; repeat case_match; by split_and!.
  - by apply enh_step_wf.
Qed.

End Invariant.

(** ** The controller's attack decision *)

Section ControllerClaims.
Context {num : Type} `{!JSNum num}.
Local Open Scope js_scope.

(** C9.  When the gate is open ([now >= nextActionTime]) and the target
    is within the close range ([|dx| < 150] and [|dy| < 100]), the
    controller takes the attack branch whatever [Math.random()] would
    return: it calls setAnimation and then [attack] on the target,
    draws no random number, and two runs that differ only in the random
    supply end in the same state. *)
Theorem ai_close_range_always_attacks :
  forall (now attackNow : Z) (random random' : nat -> num)
         (ai : Enhanced.AIController num)
         (fighter target : Enhanced.Fighter num),
    (Enhanced.nextActionTime ai <= now)%Z ->
    (nabs (x (Enhanced.position target) - x (Enhanced.position fighter))
       <? ofZ 150) = true ->
    (nabs (y (Enhanced.position target) - y (Enhanced.position fighter))
       <? ofZ 100) = true ->
    let r := Enhanced.aiUpdate now attackNow random ai fighter target in
    let direction :=
      if x (Enhanced.position target) - x (Enhanced.position fighter)
         >? ofZ 0
      then Right else Left in
    let attackAnim := "attack" +:+ dirString direction in
    r = Enhanced.attackBranch now attackNow direction 0 ai fighter target
    /\ Enhanced.calls r
       = [Enhanced.CallSetAnimation attackAnim; Enhanced.CallAttack]
    /\ Enhanced.target_after r
       = (Enhanced.attack attackNow
            (Enhanced.ensureAnimation attackAnim
               (Enhanced.setAnimation attackAnim fighter)) target).2
    /\ Enhanced.randomDraws r = 0%nat
    /\ Enhanced.aiUpdate now attackNow random' ai fighter target = r.
Proof.
  intros now attackNow random random' ai fighter target Hgate Hdx Hdy.
  cbv zeta. unfold Enhanced.aiUpdate.
  destruct (Z.ltb_spec now (Enhanced.nextActionTime ai)); [lia|].
  cbv zeta. rewrite Hdx, Hdy. simpl.
  split; [done|]. unfold Enhanced.attackBranch.
  destruct (Enhanced.attack attackNow _ target) as [f' t']. done.
Qed.

End ControllerClaims.

(** ** Vertical velocity under gravity *)

Section GravityFacts.
Context {num : Type} `{!JSNum num}.
Local Open Scope js_scope.

Lemma base_physics_vy (f : Base.Fighter num) :
  y (Base.velocity (base_physics f))
  = if y (Base.position f) + y (Base.velocity f) + Base.height f
       >=? ofZ canvas_height
    then ofZ 0 else y (Base.velocity f) + gravity.
Proof.
  unfold base_physics.
  assert (Hadv : Base.position (Base.advanceFrame f) = Base.position f
                 /\ Base.velocity (Base.advanceFrame f) = Base.velocity f
                 /\ Base.height (Base.advanceFrame f) = Base.height f).
  { unfold Base.advanceFrame. simpl. by repeat case_match. }
  destruct Hadv as (Hp & Hv & Hh).
  assert (Hsb : forall h : Base.Fighter num,
    y (Base.position (Base.screenBoundaries (Base.integrate h)))
    = y (Base.position h) + y (Base.velocity h)
    /\ Base.velocity (Base.screenBoundaries (Base.integrate h))
       = Base.velocity h
    /\ Base.height (Base.screenBoundaries (Base.integrate h))
       = Base.height h).
  { intros h. unfold Base.screenBoundaries, Base.integrate. simpl.
    by repeat case_match. }
  destruct (Hsb (Base.advanceFrame f)) as (Hy & Hv' & Hh').
  unfold Base.groundOrGravity. rewrite Hy, Hh', Hv', Hp, Hv, Hh.
  by case_match.
Qed.

Lemma base_tick_vy (f : Base.Fighter num) :
  base_airborne f = true ->
  y (Base.velocity (Base.tick f)) = y (Base.velocity f) + gravity.
Proof.
  unfold base_airborne. intros Hair. apply negb_true_iff in Hair.
  change (Base.tick f) with (Base.attackCooldownTick (base_physics f)).
  assert (Hcd : Base.velocity (Base.attackCooldownTick (base_physics f))
                = Base.velocity (base_physics f)).
  { unfold Base.attackCooldownTick. by repeat case_match. }
  by rewrite Hcd, base_physics_vy, Hair.
Qed.

Lemma enh_physics_vy (f : Enhanced.Fighter num) :
  y (Enhanced.velocity (enh_physics f))
  = if y (Enhanced.position f) + y (Enhanced.velocity f) + Enhanced.height f
       >=? ofZ canvas_height
    then ofZ 0 else y (Enhanced.velocity f) + gravity.
Proof.
  unfold enh_physics.
  assert (Hadv :
    Enhanced.position (Enhanced.advanceFrame f) = Enhanced.position f
    /\ Enhanced.velocity (Enhanced.advanceFrame f) = Enhanced.velocity f
    /\ Enhanced.height (Enhanced.advanceFrame f) = Enhanced.height f).
  { unfold Enhanced.advanceFrame. simpl. by repeat case_match. }
  destruct Hadv as (Hp & Hv & Hh).
  assert (Hsb : forall h : Enhanced.Fighter num,
    y (Enhanced.position (Enhanced.screenBoundaries (Enhanced.integrate h)))
    = y (Enhanced.position h) + y (Enhanced.velocity h)
    /\ Enhanced.velocity (Enhanced.screenBoundaries (Enhanced.integrate h))
       = Enhanced.velocity h
    /\ Enhanced.height (Enhanced.screenBoundaries (Enhanced.integrate h))
       = Enhanced.height h).
  { intros h. unfold Enhanced.screenBoundaries, Enhanced.integrate. simpl.
    by repeat case_match. }
  destruct (Hsb (Enhanced.advanceFrame f)) as (Hy & Hv' & Hh').
  unfold Enhanced.groundOrGravity. rewrite Hy, Hh', Hv', Hp, Hv, Hh.
  by case_match.
Qed.

Lemma enh_tick_vy (f : Enhanced.Fighter num) :
  enh_airborne f = true ->
  y (Enhanced.velocity (Enhanced.tick f))
  = y (Enhanced.velocity f) + gravity.
Proof.
  unfold enh_airborne. intros Hair. apply negb_true_iff in Hair.
  change (Enhanced.tick f)
    with (Enhanced.dodgeTick
            (Enhanced.resetAttackState
               (Enhanced.cooldownsTick (enh_physics f)))).
  assert (Hd : forall g : Enhanced.Fighter num,
             y (Enhanced.velocity (Enhanced.dodgeTick g))
             = y (Enhanced.velocity g)).
  { intros g. unfold Enhanced.dodgeTick, Enhanced.setAnimation,
      Enhanced.setVelocityX.
    by repeat case_match. }
  assert (Hr : forall g : Enhanced.Fighter num,
             Enhanced.velocity (Enhanced.resetAttackState g)
             = Enhanced.velocity g).
  { intros g. unfold Enhanced.resetAttackState. by case_match. }
  assert (Hc : forall g : Enhanced.Fighter num,
             Enhanced.velocity (Enhanced.cooldownsTick g)
             = Enhanced.velocity g).
  { intros g. unfold Enhanced.cooldownsTick. by repeat case_match. }
  by rewrite Hd, Hr, Hc, enh_physics_vy, Hair.
Qed.

Lemma base_gravity_run (n : nat) :
  forall f : Base.Fighter num,
    idleOk (Base.animations f) ->
    base_airborne_for n f = true ->
    exists f', base_updates n f = Ok f'
               /\ y (Base.velocity f') = accumulate n (y (Base.velocity f)).
Proof.
  induction n as [|n IH]; intros f Hidle Hair.
  - by exists f.
  - simpl in Hair. apply andb_true_iff in Hair as [Hnow Hlater].
    destruct (base_update_returns f false Hidle) as [out Hup].
    destruct (IH (Base.tick f)) as (f' & Hrun & Hv).
    + by apply base_tick_idleOk.
    + done.
    + exists f'. simpl. rewrite Hup. split; [done|].
      by rewrite Hv, base_tick_vy.
Qed.

Lemma enh_gravity_run (n : nat) :
  forall f : Enhanced.Fighter num,
    idleOk (Enhanced.animations f) ->
    enh_airborne_for n f = true ->
    exists f', enh_updates n f = Ok f'
               /\ y (Enhanced.velocity f')
                  = accumulate n (y (Enhanced.velocity f)).
Proof.
  induction n as [|n IH]; intros f Hidle Hair.
  - by exists f.
  - simpl in Hair. apply andb_true_iff in Hair as [Hnow Hlater].
    destruct (enh_update_returns f false Hidle) as [out Hup].
    destruct (IH (Enhanced.tick f)) as (f' & Hrun & Hv).
    + by apply enh_tick_idleOk.
    + done.
    + exists f'. simpl. rewrite Hup. split; [done|].
      by rewrite Hv, enh_tick_vy.
Qed.

Lemma accumulate_S (n : nat) (v : num) :
  accumulate (S n) v = accumulate n v + gravity.
Proof. revert v. induction n as [|n IH]; intros v; [done|]. apply IH. Qed.

End GravityFacts.


(** ** Where a tick puts the fighter *)

Section PositionFacts.
Context {num : Type} `{!JSNum num}.
Local Open Scope js_scope.

Lemma base_screenBoundaries_position (g : Base.Fighter num) :
  Base.position (Base.screenBoundaries g)
  = {| x := clampedX (x (Base.position g)) (Base.width g);
       y := y (Base.position g) |}
  /\ Base.velocity (Base.screenBoundaries g) = Base.velocity g
  /\ Base.height (Base.screenBoundaries g) = Base.height g.
Proof.
  destruct g as [[px py] ?]. unfold Base.screenBoundaries, clampedX. simpl.
  destruct (ofZ 0 >? px); simpl; by case_match.
Qed.

Lemma base_groundOrGravity_position (g : Base.Fighter num) :
  Base.position (Base.groundOrGravity g)
  = {| x := x (Base.position g);
       y := groundedY (y (Base.position g)) (Base.height g) |}.
Proof.
  destruct g as [[px py] ?]. unfold Base.groundOrGravity, groundedY. simpl.
  by case_match.
Qed.

Lemma base_physics_position (f : Base.Fighter num) :
  x (Base.position (base_physics f))
  = clampedX (x (Base.position f) + x (Base.velocity f)) (Base.width f)
  /\ y (Base.position (base_physics f))
     = groundedY (y (Base.position f) + y (Base.velocity f)) (Base.height f).
Proof.
  unfold base_physics.
  assert (Hadv : Base.position (Base.advanceFrame f) = Base.position f
                 /\ Base.velocity (Base.advanceFrame f) = Base.velocity f
                 /\ Base.height (Base.advanceFrame f) = Base.height f
                 /\ Base.width (Base.advanceFrame f) = Base.width f).
  { unfold Base.advanceFrame. simpl. by repeat case_match. }
  destruct Hadv as (Hp & Hv & Hh & Hw).
  rewrite base_groundOrGravity_position.
  destruct (base_screenBoundaries_position
              (Base.integrate (Base.advanceFrame f))) as (-> & _ & ->).
  simpl. by rewrite Hp, Hv, Hh, Hw.
Qed.

Lemma base_tick_position (f : Base.Fighter num) :
  Base.position (Base.tick f) = Base.position (base_physics f).
Proof.
  change (Base.tick f) with (Base.attackCooldownTick (base_physics f)).
  unfold Base.attackCooldownTick. by repeat case_match.
Qed.

Lemma enh_screenBoundaries_position (g : Enhanced.Fighter num) :
  Enhanced.position (Enhanced.screenBoundaries g)
  = {| x := clampedX (x (Enhanced.position g)) (Enhanced.width g);
       y := y (Enhanced.position g) |}
  /\ Enhanced.velocity (Enhanced.screenBoundaries g) = Enhanced.velocity g
  /\ Enhanced.height (Enhanced.screenBoundaries g) = Enhanced.height g.
Proof.
  destruct g as [[px py] ?]. unfold Enhanced.screenBoundaries, clampedX. simpl.
  destruct (ofZ 0 >? px); simpl; by case_match.
Qed.

Lemma enh_groundOrGravity_position (g : Enhanced.Fighter num) :
  Enhanced.position (Enhanced.groundOrGravity g)
  = {| x := x (Enhanced.position g);
       y := groundedY (y (Enhanced.position g)) (Enhanced.height g) |}.
Proof.
  destruct g as [[px py] ?]. unfold Enhanced.groundOrGravity, groundedY. simpl.
  by case_match.
Qed.

Lemma enh_physics_position (f : Enhanced.Fighter num) :
  x (Enhanced.position (enh_physics f))
  = clampedX (x (Enhanced.position f) + x (Enhanced.velocity f)) (Enhanced.width f)
  /\ y (Enhanced.position (enh_physics f))
     = groundedY (y (Enhanced.position f) + y (Enhanced.velocity f)) (Enhanced.height f).
Proof.
  unfold enh_physics.
  assert (Hadv : Enhanced.position (Enhanced.advanceFrame f) = Enhanced.position f
                 /\ Enhanced.velocity (Enhanced.advanceFrame f) = Enhanced.velocity f
                 /\ Enhanced.height (Enhanced.advanceFrame f) = Enhanced.height f
                 /\ Enhanced.width (Enhanced.advanceFrame f) = Enhanced.width f).
  { unfold Enhanced.advanceFrame. simpl. by repeat case_match. }
  destruct Hadv as (Hp & Hv & Hh & Hw).
  rewrite enh_groundOrGravity_position.
  destruct (enh_screenBoundaries_position
              (Enhanced.integrate (Enhanced.advanceFrame f))) as (-> & _ & ->).
  simpl. by rewrite Hp, Hv, Hh, Hw.
Qed.

Lemma enh_tick_position (f : Enhanced.Fighter num) :
  Enhanced.position (Enhanced.tick f) = Enhanced.position (enh_physics f).
Proof.
  change (Enhanced.tick f)
    with (Enhanced.dodgeTick
            (Enhanced.resetAttackState
               (Enhanced.cooldownsTick (enh_physics f)))).
  assert (Hd : forall g : Enhanced.Fighter num,
             Enhanced.position (Enhanced.dodgeTick g) = Enhanced.position g).
  { intros g. unfold Enhanced.dodgeTick, Enhanced.setAnimation,
      Enhanced.setVelocityX.
    by repeat case_match. }
  assert (Hr : forall g : Enhanced.Fighter num,
             Enhanced.position (Enhanced.resetAttackState g)
             = Enhanced.position g).
  { intros g. unfold Enhanced.resetAttackState. by case_match. }
  assert (Hc : forall g : Enhanced.Fighter num,
             Enhanced.position (Enhanced.cooldownsTick g)
             = Enhanced.position g).
  { intros g. unfold Enhanced.cooldownsTick. by repeat case_match. }
  by rewrite Hd, Hr, Hc.
Qed.

Lemma base_physics_vx (f : Base.Fighter num) :
  x (Base.velocity (base_physics f)) = x (Base.velocity f).
Proof.
  unfold base_physics.
  assert (Hadv : Base.velocity (Base.advanceFrame f) = Base.velocity f).
  { unfold Base.advanceFrame. simpl. by repeat case_match. }
  assert (Hg : forall g : Base.Fighter num,
             x (Base.velocity (Base.groundOrGravity g)) = x (Base.velocity g)).
  { intros g. unfold Base.groundOrGravity. by case_match. }
  destruct (base_screenBoundaries_position
              (Base.integrate (Base.advanceFrame f))) as (_ & Hv & _).
  by rewrite Hg, Hv, <- Hadv.
Qed.

Lemma base_tick_velocity (f : Base.Fighter num) :
  x (Base.velocity (Base.tick f)) = x (Base.velocity f)
  /\ y (Base.velocity (Base.tick f))
     = if y (Base.position f) + y (Base.velocity f) + Base.height f
          >=? ofZ canvas_height
       then ofZ 0 else y (Base.velocity f) + gravity.
Proof.
  change (Base.tick f) with (Base.attackCooldownTick (base_physics f)).
  assert (Hcd : Base.velocity (Base.attackCooldownTick (base_physics f))
                = Base.velocity (base_physics f)).
  { unfold Base.attackCooldownTick. by repeat case_match. }
  by rewrite Hcd, base_physics_vx, base_physics_vy.
Qed.

Lemma enh_physics_vx (f : Enhanced.Fighter num) :
  x (Enhanced.velocity (enh_physics f)) = x (Enhanced.velocity f).
Proof.
  unfold enh_physics.
  assert (Hadv : Enhanced.velocity (Enhanced.advanceFrame f)
                 = Enhanced.velocity f).
  { unfold Enhanced.advanceFrame. simpl. by repeat case_match. }
  assert (Hg : forall g : Enhanced.Fighter num,
             x (Enhanced.velocity (Enhanced.groundOrGravity g))
             = x (Enhanced.velocity g)).
  { intros g. unfold Enhanced.groundOrGravity. by case_match. }
  destruct (enh_screenBoundaries_position
              (Enhanced.integrate (Enhanced.advanceFrame f))) as (_ & Hv & _).
  by rewrite Hg, Hv, <- Hadv.
Qed.

(** The end of a dodge is the only statement of a tick that writes the
    horizontal velocity. *)
Lemma enh_tick_velocity (f : Enhanced.Fighter num) :
  (x (Enhanced.velocity (Enhanced.tick f)) = x (Enhanced.velocity f)
   \/ x (Enhanced.velocity (Enhanced.tick f)) = ofZ 0)
  /\ y (Enhanced.velocity (Enhanced.tick f))
     = if y (Enhanced.position f) + y (Enhanced.velocity f)
          + Enhanced.height f >=? ofZ canvas_height
       then ofZ 0 else y (Enhanced.velocity f) + gravity.
Proof.
  change (Enhanced.tick f)
    with (Enhanced.dodgeTick
            (Enhanced.resetAttackState
               (Enhanced.cooldownsTick (enh_physics f)))).
  assert (Hd : forall g : Enhanced.Fighter num,
             (x (Enhanced.velocity (Enhanced.dodgeTick g))
              = x (Enhanced.velocity g)
              \/ x (Enhanced.velocity (Enhanced.dodgeTick g)) = ofZ 0)
             /\ y (Enhanced.velocity (Enhanced.dodgeTick g))
                = y (Enhanced.velocity g)).
  { intros g. unfold Enhanced.dodgeTick, Enhanced.setAnimation,
      Enhanced.setVelocityX.
    repeat case_match; simpl; auto. }
  assert (Hr : forall g : Enhanced.Fighter num,
             Enhanced.velocity (Enhanced.resetAttackState g)
             = Enhanced.velocity g).
  { intros g. unfold Enhanced.resetAttackState. by case_match. }
  assert (Hc : forall g : Enhanced.Fighter num,
             Enhanced.velocity (Enhanced.cooldownsTick g)
             = Enhanced.velocity g).
  { intros g. unfold Enhanced.cooldownsTick. by repeat case_match. }
  destruct (Hd (Enhanced.resetAttackState
                  (Enhanced.cooldownsTick (enh_physics f)))) as [Hx ->].
  rewrite Hr, Hc in Hx. rewrite Hr, Hc.
  rewrite enh_physics_vx in Hx. rewrite enh_physics_vy. done.
Qed.

Lemma enh_tick_dodgeSpeed (f : Enhanced.Fighter num) :
  Enhanced.dodgeSpeed (Enhanced.tick f) = Enhanced.dodgeSpeed f.
Proof.
  unfold Enhanced.tick.
  assert (H1 : forall g : Enhanced.Fighter num,
             Enhanced.dodgeSpeed (Enhanced.dodgeTick g)
             = Enhanced.dodgeSpeed g).
  { intros g. unfold Enhanced.dodgeTick, Enhanced.setAnimation,
      Enhanced.setVelocityX.
    by repeat case_match. }
  assert (H2 : forall g : Enhanced.Fighter num,
             Enhanced.dodgeSpeed (Enhanced.resetAttackState g)
             = Enhanced.dodgeSpeed g).
  { intros g. unfold Enhanced.resetAttackState. by case_match. }
  assert (H3 : forall g : Enhanced.Fighter num,
             Enhanced.dodgeSpeed (Enhanced.cooldownsTick g)
             = Enhanced.dodgeSpeed g).
  { intros g. unfold Enhanced.cooldownsTick. by repeat case_match. }
  assert (H4 : forall g : Enhanced.Fighter num,
             Enhanced.dodgeSpeed (Enhanced.groundOrGravity g)
             = Enhanced.dodgeSpeed g).
  { intros g. unfold Enhanced.groundOrGravity. by case_match. }
  assert (H5 : forall g : Enhanced.Fighter num,
             Enhanced.dodgeSpeed (Enhanced.screenBoundaries g)
             = Enhanced.dodgeSpeed g).
  { intros g. unfold Enhanced.screenBoundaries. by repeat case_match. }
  assert (H6 : Enhanced.dodgeSpeed (Enhanced.advanceFrame f)
               = Enhanced.dodgeSpeed f).
  { unfold Enhanced.advanceFrame. simpl. by repeat case_match. }
  by rewrite H1, H2, H3, H4, H5.
Qed.

Lemma base_above_head (n : nat) (f : Base.Fighter num) :
  base_above_for n f = true ->
  (y (Base.position f) + Base.height f <? ofZ canvas_height) = true.
Proof. destruct n; simpl; intros H; by apply andb_true_iff in H as [? _]. Qed.

Lemma enh_above_head (n : nat) (f : Enhanced.Fighter num) :
  enh_above_for n f = true ->
  (y (Enhanced.position f) + Enhanced.height f <? ofZ canvas_height) = true.
Proof. destruct n; simpl; intros H; by apply andb_true_iff in H as [? _]. Qed.

(** Staying above the ground means taking the gravity branch. *)
Lemma base_above_airborne (n : nat) :
  landedIsNotAbove ->
  forall f : Base.Fighter num,
    Base.height f = ofZ 150 ->
    base_above_for n f = true -> base_airborne_for n f = true.
Proof.
  intros Hland. induction n as [|n IH]; intros f Hh Habove; [done|].
  simpl in Habove. apply andb_true_iff in Habove as [_ Hnext].
  destruct (base_tick_kept f) as (_ & _ & _ & _ & Hh' & _).
  simpl. rewrite (IH (Base.tick f)); [|congruence|done].
  rewrite andb_true_r. unfold base_airborne.
  destruct (_ >=? _) eqn:Hground; [|done].
  apply base_above_head in Hnext.
  rewrite base_tick_position in Hnext.
  destruct (base_physics_position f) as [_ Hy].
  rewrite Hy, Hh' in Hnext. unfold groundedY in Hnext.
  rewrite Hground, Hh in Hnext. unfold landedIsNotAbove in Hland. congruence.
Qed.

Lemma enh_above_airborne (n : nat) :
  landedIsNotAbove ->
  forall f : Enhanced.Fighter num,
    Enhanced.height f = ofZ 150 ->
    enh_above_for n f = true -> enh_airborne_for n f = true.
Proof.
  intros Hland. induction n as [|n IH]; intros f Hh Habove; [done|].
  simpl in Habove. apply andb_true_iff in Habove as [_ Hnext].
  destruct (enh_tick_kept f) as (_ & _ & _ & _ & Hh' & _).
  simpl. rewrite (IH (Enhanced.tick f)); [|congruence|done].
  rewrite andb_true_r. unfold enh_airborne.
  destruct (_ >=? _) eqn:Hground; [|done].
  apply enh_above_head in Hnext.
  rewrite enh_tick_position in Hnext.
  destruct (enh_physics_position f) as [_ Hy].
  rewrite Hy, Hh' in Hnext. unfold groundedY in Hnext.
  rewrite Hground, Hh in Hnext. unfold landedIsNotAbove in Hland. congruence.
Qed.

End PositionFacts.

(** ** What the handlers leave of position and velocity *)

Section KinFacts.
Context {num : Type} `{!JSNum num}.

Lemma base_sameKin_trans (f g h : Base.Fighter num) :
  base_sameKin f g -> base_sameKin g h -> base_sameKin f h.
Proof. unfold base_sameKin. intros. destruct_and!. by split_and!; etrans. Qed.

Lemma enh_sameKin_trans (f g h : Enhanced.Fighter num) :
  enh_sameKin f g -> enh_sameKin g h -> enh_sameKin f h.
Proof. unfold enh_sameKin. intros. destruct_and!. by split_and!; etrans. Qed.

Lemma base_setAnimation_kin key (f : Base.Fighter num) :
  base_sameKin f (Base.setAnimation key f).
Proof. unfold Base.setAnimation. by case_match. Qed.

Lemma enh_setAnimation_kin key (f : Enhanced.Fighter num) :
  enh_sameKin f (Enhanced.setAnimation key f).
Proof. unfold Enhanced.setAnimation. by case_match. Qed.

Lemma enh_ensureAnimation_kin key (f : Enhanced.Fighter num) :
  enh_sameKin f (Enhanced.ensureAnimation key f).
Proof. unfold Enhanced.ensureAnimation. by repeat case_match. Qed.

Lemma base_attack_kin (a t : Base.Fighter num) :
  base_sameKin a (Base.attack a t).1 /\ base_sameKin t (Base.attack a t).2.
Proof.
  destruct (Z.lt_ge_cases 0 (Base.attackCooldown a)) as [Hcd|Hcd].
  - by rewrite (base_attack_blocked a t Hcd).
  - rewrite (base_attack_ready a t Hcd). by case_match.
Qed.

Lemma enh_attack_kin now (a t : Enhanced.Fighter num) :
  enh_sameKin a (Enhanced.attack now a t).1
  /\ enh_sameKin t (Enhanced.attack now a t).2.
Proof.
  destruct (Z.lt_ge_cases 0 (Enhanced.attackCooldown a)) as [Hcd|Hcd];
    [|destruct (Enhanced.isDodging a) eqn:Hdodge].
  - by rewrite (enh_attack_blocked now a t (or_introl Hcd)).
  - by rewrite (enh_attack_blocked now a t (or_intror Hdodge)).
  - rewrite (enh_attack_ready now a t (conj Hcd Hdodge)). by case_match.
Qed.

End KinFacts.

(** ** Geometry in exact arithmetic *)

Section Exact.
Local Open Scope Q_scope.

Lemma Qltb_true (a b : Q) : Qltb a b = true <-> a < b.
Proof. unfold Qltb. rewrite Qlt_alt. destruct (a ?= b); split; congruence. Qed.

Lemma Qltb_false (a b : Q) : Qltb a b = false <-> b <= a.
Proof.
  split; intros Hab.
  - apply Qnot_lt_le. intros Hlt. apply Qltb_true in Hlt. congruence.
  - destruct (Qltb a b) eqn:E; [|done]. apply Qltb_true in E. lra.
Qed.

Lemma Qle_bool_false (a b : Q) : Qle_bool a b = false <-> b < a.
Proof.
  split; intros Hab.
  - apply Qnot_le_lt. intros Hle. apply Qle_bool_iff in Hle. congruence.
  - destruct (Qle_bool a b) eqn:E; [|done]. apply Qle_bool_iff in E. lra.
Qed.

Lemma clampedX_range (x1 w : Q) :
  0 <= w <= inject_Z canvas_width ->
  0 <= clampedX x1 w <= inject_Z canvas_width - w.
Proof.
  intros Hw. unfold clampedX. simpl.
  unfold canvas_width in *. change (inject_Z 1024) with 1024 in *.
  change (inject_Z 0) with 0.
  destruct (Qltb x1 0) eqn:E1.
  - destruct (Qltb 1024 (0 + w)) eqn:E2; [lra|].
    apply Qltb_false in E2. lra.
  - apply Qltb_false in E1.
    destruct (Qltb 1024 (x1 + w)) eqn:E2; [lra|].
    apply Qltb_false in E2. lra.
Qed.

Lemma groundedY_range (y1 h : Q) :
  groundedY y1 h + h <= inject_Z canvas_height.
Proof.
  unfold groundedY. simpl.
  unfold canvas_height. change (inject_Z 576) with 576.
  destruct (Qle_bool 576 (y1 + h)) eqn:E; [lra|].
  apply Qle_bool_false in E. lra.
Qed.

Lemma base_hits_iff (r : Q) (a t : Base.Fighter Q) :
  Base.hits r a t = true
  <-> (- Base.width t < base_gap a t < r) /\ base_overlapY a t.
Proof.
  unfold Base.hits, base_gap, base_overlapY.
  destruct (Base.lastDirection a); simpl;
    rewrite !andb_true_iff, !Qltb_true; lra.
Qed.

Lemma enh_hits_iff (r : Q) (a t : Enhanced.Fighter Q) :
  Enhanced.hits r a t = true
  <-> (- Enhanced.width t < enh_gap a t < r) /\ enh_overlapY a t.
Proof.
  unfold Enhanced.hits, enh_gap, enh_overlapY.
  destruct (Enhanced.lastDirection a); simpl;
    rewrite !andb_true_iff, !Qltb_true; lra.
Qed.

Lemma accumulate_exact (n : nat) (v : Q) :
  accumulate n v == v + (7 # 10) * inject_Z (Z.of_nat n).
Proof.
  revert v. induction n as [|n IH]; intros v.
  - change (accumulate 0 v) with v. change (inject_Z (Z.of_nat 0)) with 0. lra.
  - change (accumulate (S n) v) with (accumulate n (v + (7 # 10))).
    rewrite IH, Nat2Z.inj_succ. unfold Z.succ. rewrite inject_Z_plus.
    change (inject_Z 1) with 1. lra.
Qed.

End Exact.

(** ** The pixel grid in binary64 *)

Section Binary64.

Lemma feq_eq (a b : float) : feq a b = true -> a = b.
Proof. apply FloatAxioms.Leibniz.eqb_spec. Qed.

Lemma pixels_In (k : Z) : 0 <= k <= 974 -> In k pixels.
Proof.
  intros Hk. unfold pixels. apply in_map_iff.
  exists (Z.to_nat k). split; [lia|]. apply in_seq. lia.
Qed.

Lemma clamp_pixels_check :
  forallb (fun k =>
    forallb (fun s =>
      feq (clampedX (nadd (ofZ k) (ofZ s)) (ofZ 50)) (ofZ (zclampX (k + s)))
      && (0 <=? zclampX (k + s)) && (zclampX (k + s) <=? 974))
      speedsX) pixels = true.
Proof. vm_compute. reflexivity. Qed.

Lemma clamp_pixels (k s : Z) :
  0 <= k <= 974 -> In s speedsX ->
  clampedX (nadd (ofZ k) (ofZ s)) (ofZ 50) = ofZ (zclampX (k + s))
  /\ 0 <= zclampX (k + s) <= 974.
Proof.
  intros Hk Hs.
  pose proof clamp_pixels_check as Hall.
  rewrite forallb_forall in Hall. specialize (Hall k (pixels_In k Hk)).
  rewrite forallb_forall in Hall. specialize (Hall s Hs).
  apply andb_true_iff in Hall as [Hall Hle].
  apply andb_true_iff in Hall as [Heq Hge].
  split; [by apply feq_eq | lia].
Qed.

Lemma pixels_bounds_check :
  forallb (fun k =>
    nle (ofZ 0) (ofZ (num:=float) k)
    && nle (ofZ k) (nsub (ofZ canvas_width) (ofZ 50))) pixels = true.
Proof. vm_compute. reflexivity. Qed.

Lemma orbit_closed_check :
  forallb (fun p => inOrbit (tickY p).1 (tickY p).2) orbit = true.
Proof. vm_compute. reflexivity. Qed.

Lemma orbit_bounds_check :
  forallb (fun p => nle (nadd p.1 (ofZ 150)) (ofZ canvas_height)) orbit = true.
Proof. vm_compute. reflexivity. Qed.

Lemma orbit_grounded_check :
  forallb (fun p =>
    implb (nle (ofZ canvas_height) (nadd p.1 (ofZ 150))) (feq p.1 (ofZ 426)))
    orbit = true.
Proof. vm_compute. reflexivity. Qed.

Lemma orbit_jumps_check :
  forallb (fun v0 => inOrbit (ofZ 426) (ofZ v0)) [0; -15; -20; -22] = true.
Proof. vm_compute. reflexivity. Qed.

End Binary64.

(** ** The grid invariant of the binary64 pages *)

Section GridInvariant.

Lemma inOrbit_In (py vy : float) :
  inOrbit py vy = true -> In (py, vy) orbit.
Proof.
  unfold inOrbit. intros Hin. apply existsb_exists in Hin as ([py' vy'] & Hp & Heq).
  apply andb_true_iff in Heq as [H1 H2].
  apply feq_eq in H1, H2. simpl in *. by subst.
Qed.

Lemma orbit_tick (py vy : float) :
  inOrbit py vy = true -> inOrbit (tickY (py, vy)).1 (tickY (py, vy)).2 = true.
Proof.
  intros Hin. apply inOrbit_In in Hin.
  pose proof orbit_closed_check as Hall. rewrite forallb_forall in Hall.
  apply (Hall _ Hin).
Qed.

Lemma orbit_bound (py vy : float) :
  inOrbit py vy = true -> nle (nadd py (ofZ 150)) (ofZ canvas_height) = true.
Proof.
  intros Hin. apply inOrbit_In in Hin.
  pose proof orbit_bounds_check as Hall. rewrite forallb_forall in Hall.
  apply (Hall _ Hin).
Qed.

Lemma orbit_grounded (py vy : float) :
  inOrbit py vy = true ->
  nle (ofZ canvas_height) (nadd py (ofZ 150)) = true ->
  py = ofZ 426.
Proof.
  intros Hin Hground. apply inOrbit_In in Hin.
  pose proof orbit_grounded_check as Hall. rewrite forallb_forall in Hall.
  specialize (Hall _ Hin). simpl in Hall.
  simpl in Hground. rewrite Hground in Hall. by apply feq_eq.
Qed.

Lemma orbit_jump (py vy : float) (v0 : Z) :
  inOrbit py vy = true ->
  nle (ofZ canvas_height) (nadd py (ofZ 150)) = true ->
  In v0 [0; -15; -20; -22] ->
  inOrbit py (ofZ v0) = true.
Proof.
  intros Hin Hground Hv0. rewrite (orbit_grounded py vy Hin Hground).
  pose proof orbit_jumps_check as Hall. rewrite forallb_forall in Hall.
  apply (Hall _ Hv0).
Qed.

Lemma isPixel_bounds (v : float) :
  isPixel v ->
  nle (ofZ 0) v && nle v (nsub (ofZ canvas_width) (ofZ 50)) = true.
Proof.
  intros (k & Hk & ->).
  pose proof pixels_bounds_check as Hall. rewrite forallb_forall in Hall.
  apply (Hall k (pixels_In k Hk)).
Qed.

Lemma isPixel_step (px vx : float) :
  isPixel px -> isSpeedX vx -> isPixel (clampedX (nadd px vx) (ofZ 50)).
Proof.
  intros (k & Hk & ->) (s & Hs & ->).
  destruct (clamp_pixels k s Hk Hs) as [-> Hrange]. by eexists.
Qed.

Lemma isSpeedX_ofZ (s : Z) : In s speedsX -> isSpeedX (ofZ s).
Proof. intros Hs. by exists s. Qed.

Lemma isSpeedX_opp5 : isSpeedX (nopp (ofZ 5)).
Proof. exists (-5). split; [simpl; tauto | by vm_compute]. Qed.

Lemma isSpeedX_boost (v : float) :
  v = ofZ 5 \/ v = nopp (ofZ 5) -> isSpeedX (nmul v (lit 18 10)).
Proof.
  intros [-> | ->]; [exists 9 | exists (-9)];
    (split; [simpl; tauto | by vm_compute]).
Qed.

Lemma isSpeedX_opp12 : isSpeedX (nopp (ofZ 12)).
Proof. exists (-12). split; [simpl; tauto | by vm_compute]. Qed.

(** One tick keeps a fighter on the grid. *)
Lemma base_tick_onGrid (f : Base.Fighter float) :
  base_onGrid f -> base_onGrid (Base.tick f).
Proof.
  intros (Hpx & Hvx & Horb & Hw & Hh).
  destruct (base_tick_kept f) as (_ & _ & _ & Hw' & Hh' & _).
  destruct (base_tick_velocity f) as [Hvx' Hvy'].
  pose proof (base_tick_position f) as Hpos.
  destruct (base_physics_position f) as [Hx Hy].
  unfold base_onGrid.
  rewrite Hpos, Hx, Hy, Hvx', Hvy', Hw', Hh', Hw, Hh.
  split_and!; [by apply isPixel_step | exact Hvx | | reflexivity | reflexivity].
  apply (orbit_tick _ _ Horb).
Qed.

Lemma enh_tick_onGrid (f : Enhanced.Fighter float) :
  enh_onGrid f -> enh_onGrid (Enhanced.tick f).
Proof.
  intros (Hpx & Hvx & Horb & Hw & Hh & Hds).
  destruct (enh_tick_kept f) as (_ & _ & _ & Hw' & Hh' & _).
  destruct (enh_tick_velocity f) as [Hvx' Hvy'].
  pose proof (enh_tick_position f) as Hpos.
  destruct (enh_physics_position f) as [Hx Hy].
  pose proof (enh_tick_dodgeSpeed f) as Hds'.
  unfold enh_onGrid.
  rewrite Hpos, Hx, Hy, Hvy', Hw', Hh', Hw, Hh, Hds', Hds.
  split_and!; [by apply isPixel_step | | | reflexivity..].
  - destruct Hvx' as [-> | ->]; [exact Hvx|]. apply isSpeedX_ofZ. simpl. tauto.
  - apply (orbit_tick _ _ Horb).
Qed.

Lemma base_sameKin_onGrid (f g : Base.Fighter float) :
  base_sameKin f g -> base_onGrid f -> base_onGrid g.
Proof.
  intros (Hp & Hv & Hw & Hh). unfold base_onGrid. by rewrite Hp, Hv, Hw, Hh.
Qed.

Lemma enh_sameKin_onGrid (f g : Enhanced.Fighter float) :
  enh_sameKin f g -> enh_onGrid f -> enh_onGrid g.
Proof.
  intros (Hp & Hv & Hw & Hh & Hd). unfold enh_onGrid.
  by rewrite Hp, Hv, Hw, Hh, Hd.
Qed.

Lemma base_setVelocityX_onGrid v (f : Base.Fighter float) :
  isSpeedX v -> base_onGrid f -> base_onGrid (Base.setVelocityX v f).
Proof.
  intros Hv (Hpx & _ & Horb & Hw & Hh).
  split_and!; [exact Hpx | exact Hv | exact Horb | exact Hw | exact Hh].
Qed.

Lemma enh_setVelocityX_onGrid v (f : Enhanced.Fighter float) :
  isSpeedX v -> enh_onGrid f -> enh_onGrid (Enhanced.setVelocityX v f).
Proof.
  intros Hv (Hpx & _ & Horb & Hw & Hh & Hd).
  split_and!;
    [exact Hpx | exact Hv | exact Horb | exact Hw | exact Hh | exact Hd].
Qed.

(** A jump impulse is only ever given on the ground. *)
Lemma base_setVelocityY_onGrid v0 (f : Base.Fighter float) :
  In v0 [0; -15; -20; -22] ->
  nle (ofZ canvas_height) (nadd (y (Base.position f)) (Base.height f)) = true ->
  base_onGrid f -> base_onGrid (Base.setVelocityY (ofZ v0) f).
Proof.
  intros Hv0 Hground (Hpx & Hvx & Horb & Hw & Hh). rewrite Hh in Hground.
  split_and!; [exact Hpx | exact Hvx | | exact Hw | exact Hh].
  exact (orbit_jump _ _ v0 Horb Hground Hv0).
Qed.

Lemma enh_setVelocityY_onGrid v0 (f : Enhanced.Fighter float) :
  In v0 [0; -15; -20; -22] ->
  nle (ofZ canvas_height)
      (nadd (y (Enhanced.position f)) (Enhanced.height f)) = true ->
  enh_onGrid f -> enh_onGrid (Enhanced.setVelocityY (ofZ v0) f).
Proof.
  intros Hv0 Hground (Hpx & Hvx & Horb & Hw & Hh & Hd). rewrite Hh in Hground.
  split_and!; [exact Hpx | exact Hvx | | exact Hw | exact Hh | exact Hd].
  exact (orbit_jump _ _ v0 Horb Hground Hv0).
Qed.

Lemma base_movementLogic_onGrid k (f : Base.Fighter float) :
  base_onGrid f -> base_onGrid (Base.movementLogic k f).
Proof.
  intros Hf. unfold Base.movementLogic.
  destruct (k_left k); [|destruct (k_right k)].
  - eapply base_sameKin_onGrid with (f := Base.setVelocityX (ofZ (-5)) f).
    + eapply base_sameKin_trans; [apply base_setAnimation_kin|].
      split_and!; reflexivity.
    + apply base_setVelocityX_onGrid; [|exact Hf].
      apply isSpeedX_ofZ. simpl. tauto.
  - eapply base_sameKin_onGrid with (f := Base.setVelocityX (ofZ 5) f).
    + eapply base_sameKin_trans; [apply base_setAnimation_kin|].
      split_and!; reflexivity.
    + apply base_setVelocityX_onGrid; [|exact Hf].
      apply isSpeedX_ofZ. simpl. tauto.
  - cbv zeta.
    eapply base_sameKin_onGrid; [apply base_setAnimation_kin|].
    apply base_setVelocityX_onGrid; [|exact Hf].
    apply isSpeedX_ofZ. simpl. tauto.
Qed.

Lemma enh_movementLogic_onGrid k (f : Enhanced.Fighter float) :
  enh_onGrid f -> enh_onGrid (Enhanced.movementLogic k f).
Proof.
  intros Hf. unfold Enhanced.movementLogic.
  destruct (k_left k); [|destruct (k_right k)].
  - eapply enh_sameKin_onGrid with (f := Enhanced.setVelocityX (ofZ (-5)) f).
    + eapply enh_sameKin_trans; [apply enh_setAnimation_kin|].
      split_and!; reflexivity.
    + apply enh_setVelocityX_onGrid; [|exact Hf].
      apply isSpeedX_ofZ. simpl. tauto.
  - eapply enh_sameKin_onGrid with (f := Enhanced.setVelocityX (ofZ 5) f).
    + eapply enh_sameKin_trans; [apply enh_setAnimation_kin|].
      split_and!; reflexivity.
    + apply enh_setVelocityX_onGrid; [|exact Hf].
      apply isSpeedX_ofZ. simpl. tauto.
  - cbv zeta.
    eapply enh_sameKin_onGrid; [apply enh_setAnimation_kin|].
    apply enh_setVelocityX_onGrid; [|exact Hf].
    apply isSpeedX_ofZ. simpl. tauto.
Qed.

Lemma base_jump_onGrid (f : Base.Fighter float) :
  base_onGrid f -> base_onGrid (Base.jump f).
Proof.
  intros Hf. unfold Base.jump.
  destruct (nle _ _) eqn:Hground; [|exact Hf].
  eapply base_sameKin_onGrid; [apply base_setAnimation_kin|].
  apply base_setVelocityY_onGrid; [simpl; tauto|exact Hground|exact Hf].
Qed.

Lemma enh_jump_onGrid (f : Enhanced.Fighter float) :
  enh_onGrid f -> enh_onGrid (Enhanced.jump f).
Proof.
  intros Hf. unfold Enhanced.jump.
  destruct (nle _ _) eqn:Hground; [|exact Hf].
  eapply enh_sameKin_onGrid; [apply enh_setAnimation_kin|].
  apply enh_setVelocityY_onGrid; [simpl; tauto|exact Hground|exact Hf].
Qed.

Lemma enh_dodge_onGrid (f : Enhanced.Fighter float) :
  enh_onGrid f -> enh_onGrid (Enhanced.dodge f).
Proof.
  intros Hf. unfold Enhanced.dodge.
  destruct (_ && _); [|exact Hf]. cbv zeta.
  eapply enh_sameKin_onGrid; [apply enh_setAnimation_kin|].
  set (g := Enhanced.set_dodgeDuration 15 (Enhanced.set_isDodging true f)).
  assert (Hg : enh_onGrid g)
    by (eapply enh_sameKin_onGrid; [|exact Hf]; split_and!; reflexivity).
  apply enh_setVelocityX_onGrid; [|exact Hg].
  destruct Hg as (_ & _ & _ & _ & _ & ->).
  destruct (isRight _); [apply isSpeedX_ofZ; simpl; tauto|apply isSpeedX_opp12].
Qed.

Lemma base_attack_onGrid (a t : Base.Fighter float) :
  base_onGrid a -> base_onGrid t ->
  base_onGrid (Base.attack a t).1 /\ base_onGrid (Base.attack a t).2.
Proof.
  intros Ha Ht. destruct (base_attack_kin a t) as [Ka Kt].
  split; eapply base_sameKin_onGrid; eauto.
Qed.

Lemma enh_attack_onGrid now (a t : Enhanced.Fighter float) :
  enh_onGrid a -> enh_onGrid t ->
  enh_onGrid (Enhanced.attack now a t).1
  /\ enh_onGrid (Enhanced.attack now a t).2.
Proof.
  intros Ha Ht. destruct (enh_attack_kin now a t) as [Ka Kt].
  split; eapply enh_sameKin_onGrid; eauto.
Qed.

Lemma enh_attackBranch_onGrid now attackNow d drawn ai
    (fighter target : Enhanced.Fighter float) :
  enh_onGrid fighter -> enh_onGrid target ->
  let r := Enhanced.attackBranch now attackNow d drawn ai fighter target in
  enh_onGrid (Enhanced.fighter_after r) /\ enh_onGrid (Enhanced.target_after r).
Proof.
  intros Hf Ht. unfold Enhanced.attackBranch.
  set (k := "attack" +:+ dirString d).
  set (f1 := Enhanced.ensureAnimation k (Enhanced.setAnimation k fighter)).
  assert (Hf1 : enh_onGrid f1).
  { eapply enh_sameKin_onGrid; [|exact Hf].
    eapply enh_sameKin_trans;
      [apply enh_setAnimation_kin | apply enh_ensureAnimation_kin]. }
  destruct (enh_attack_onGrid attackNow f1 target Hf1 Ht) as [Ha' Ht'].
  destruct (Enhanced.attack attackNow f1 target) as [f2 t2].
  cbn [fst snd] in Ha', Ht'. cbv zeta.
  cbn [Enhanced.fighter_after Enhanced.target_after].
  split; [|exact Ht'].
  apply enh_setVelocityX_onGrid; [|exact Ha'].
  destruct (nlt _ _); apply isSpeedX_ofZ; simpl; tauto.
Qed.

(** The chase or edge-avoidance step of the controller. *)
Lemma enh_chase_onGrid (c1 c2 c3 : bool) (fighter : Enhanced.Fighter float) :
  enh_onGrid fighter ->
  let F :=
    if c1 then
      let f1 := Enhanced.setVelocityX
                  (if c2 then nopp (ofZ 5) else ofZ 5) fighter in
      if nle (ofZ canvas_height)
             (nadd (y (Enhanced.position f1)) (Enhanced.height f1))
      then Enhanced.setVelocityY (ofZ (-15)) f1
      else f1
    else
      Enhanced.setVelocityX (if c3 then ofZ 5 else nopp (ofZ 5)) fighter in
  enh_onGrid F
  /\ (x (Enhanced.velocity F) = ofZ 5 \/ x (Enhanced.velocity F) = nopp (ofZ 5)).
Proof.
  intros Hf. cbv zeta.
  assert (H5 : forall b : bool, isSpeedX (if b then nopp (ofZ 5) else ofZ 5)).
  { intros []; [apply isSpeedX_opp5 | apply isSpeedX_ofZ; simpl; tauto]. }
  assert (H5' : forall b : bool, isSpeedX (if b then ofZ 5 else nopp (ofZ 5))).
  { intros []; [apply isSpeedX_ofZ; simpl; tauto | apply isSpeedX_opp5]. }
  destruct c1.
  - pose proof (enh_setVelocityX_onGrid _ fighter (H5 c2) Hf) as Hf1.
    destruct (nle _ _) eqn:Hground.
    + split.
      * apply enh_setVelocityY_onGrid; [simpl; tauto|exact Hground|exact Hf1].
      * destruct c2; [right|left]; reflexivity.
    + split; [exact Hf1|]. destruct c2; [right|left]; reflexivity.
  - split; [exact (enh_setVelocityX_onGrid _ fighter (H5' c3) Hf)|].
    destruct c3; [left|right]; reflexivity.
Qed.

(** The jump step of the controller, from a fighter moving at the
    chase speed. *)
Lemma enh_leap_onGrid key (g : Enhanced.Fighter float) :
  enh_onGrid g ->
  x (Enhanced.velocity g) = ofZ 5 \/ x (Enhanced.velocity g) = nopp (ofZ 5) ->
  nle (ofZ canvas_height)
      (nadd (y (Enhanced.position g)) (Enhanced.height g)) = true ->
  enh_onGrid
    (Enhanced.setAnimation key
       (Enhanced.setVelocityX
          (nmul (x (Enhanced.velocity (Enhanced.setVelocityY (ofZ (-22)) g)))
                (lit 18 10))
          (Enhanced.setVelocityY (ofZ (-22)) g))).
Proof.
  intros Hg Hvx Hground.
  eapply enh_sameKin_onGrid; [apply enh_setAnimation_kin|].
  apply enh_setVelocityX_onGrid.
  - apply isSpeedX_boost. exact Hvx.
  - apply enh_setVelocityY_onGrid; [simpl; tauto|exact Hground|exact Hg].
Qed.

Lemma enh_moveBranch_onGrid now random d dx adx drawn ai
    (fighter target : Enhanced.Fighter float) :
  enh_onGrid fighter ->
  let r := Enhanced.moveBranch now random d dx adx drawn ai fighter target in
  enh_onGrid (Enhanced.fighter_after r) /\ Enhanced.target_after r = target.
Proof.
  intros Hf. unfold Enhanced.moveBranch. cbv zeta.
  match goal with
  | |- context [Enhanced.set_lastDirection d (Enhanced.setAnimation ?K ?F)] =>
      assert (HF : enh_onGrid F
                   /\ (x (Enhanced.velocity F) = ofZ 5
                       \/ x (Enhanced.velocity F) = nopp (ofZ 5)))
        by (apply (enh_chase_onGrid _ _ _ fighter Hf));
      assert (Hg : enh_sameKin F
                     (Enhanced.set_lastDirection d (Enhanced.setAnimation K F)))
        by (eapply enh_sameKin_trans;
            [apply (enh_setAnimation_kin K F) | split_and!; reflexivity]);
      generalize dependent (Enhanced.set_lastDirection d
                              (Enhanced.setAnimation K F));
      generalize dependent F
  end.
  intros F [HF Hvx] g Hg.
  assert (Hgrid : enh_onGrid g) by (eapply enh_sameKin_onGrid; eauto).
  assert (Hgx : x (Enhanced.velocity g) = ofZ 5
                \/ x (Enhanced.velocity g) = nopp (ofZ 5)).
  { destruct Hg as (_ & -> & _). exact Hvx. }
  destruct (nle (ofZ canvas_height) _) eqn:Hground;
    [|split; [exact Hgrid|reflexivity]].
  destruct (_ || _);
    [|split; [exact Hgrid|reflexivity]].
  split; [|reflexivity].
  cbn [Enhanced.fighter_after].
  by apply enh_leap_onGrid.
Qed.

Lemma enh_aiUpdate_onGrid now attackNow random ai
    (fighter target : Enhanced.Fighter float) :
  enh_onGrid fighter -> enh_onGrid target ->
  let r := Enhanced.aiUpdate now attackNow random ai fighter target in
  enh_onGrid (Enhanced.fighter_after r) /\ enh_onGrid (Enhanced.target_after r).
Proof.
  intros Hf Ht. unfold Enhanced.aiUpdate.
  destruct (now <? Enhanced.nextActionTime ai); [split; assumption|]. cbv zeta.
  match goal with |- context [if ?c then _ else _] => destruct c end.
  - by apply enh_attackBranch_onGrid.
  - match goal with
    | |- context [Enhanced.moveBranch ?a ?b ?c ?d ?e ?g ?h ?i ?j] =>
        destruct (enh_moveBranch_onGrid a b c d e g h i j Hf) as [Hb ->]
    end.
    split; assumption.
Qed.

Lemma start_onGrid :
  isPixel (ofZ 100)
  /\ isPixel (nsub (ofZ canvas_width) (ofZ 200))
  /\ isSpeedX (ofZ 0)
  /\ inOrbit (ofZ 426) (ofZ 0) = true.
Proof.
  split_and!.
  - exists 100. split; [lia|reflexivity].
  - exists 824. split; [lia|by vm_compute].
  - apply isSpeedX_ofZ. simpl. tauto.
  - by vm_compute.
Qed.

Lemma base_gameLoop_onGrid (w : Base.World float) :
  base_onGrid (Base.player w) -> base_onGrid (Base.enemy w) ->
  base_onGrid (Base.player (Base.gameLoop w))
  /\ base_onGrid (Base.enemy (Base.gameLoop w)).
Proof.
  intros Hp He. unfold Base.gameLoop.
  destruct (Base.gameRunning w); cbn [negb]; [|split; assumption].
  destruct (Base.update (Base.player w) true) as [[p outp]|] eqn:Hup;
    [|split; assumption].
  apply base_update_ok in Hup. subst p.
  pose proof (base_tick_onGrid _ Hp) as Hp'.
  destruct (Base.update (Base.enemy w) false) as [[e oute]|] eqn:Hue;
    [|split; assumption].
  apply base_update_ok in Hue. subst e.
  pose proof (base_tick_onGrid _ He) as He'.
  cbv zeta.
  pose proof (base_movementLogic_onGrid (Base.keys_player w) _ Hp').
  pose proof (base_movementLogic_onGrid (Base.keys_enemy w) _ He').
  destruct (_ || _); split; assumption.
Qed.

Lemma base_step_onGrid ev (w : Base.World float) :
  base_onGrid (Base.player w) -> base_onGrid (Base.enemy w) ->
  base_onGrid (Base.player (Base.step ev w))
  /\ base_onGrid (Base.enemy (Base.step ev w)).
Proof.
  intros Hp He. destruct ev as [|key|key]; cbn [Base.step].
  - destruct (Base.frameRequested w);
      [by apply base_gameLoop_onGrid|split; assumption].
  - unfold Base.keydown. cbv zeta.
    destruct (String.eqb key "a"); [split; assumption|].
    destruct (String.eqb key "d"); [split; assumption|].
    destruct (String.eqb key "w");
      [split; [by apply base_jump_onGrid|assumption]|].
    destruct (String.eqb key " ").
    { destruct (base_attack_onGrid _ _ Hp He) as [Ha Ht].
      destruct (Base.attack (Base.player w) (Base.enemy w)) as [p e].
      split; [|exact Ht].
      eapply base_sameKin_onGrid; [apply base_setAnimation_kin|exact Ha]. }
    destruct (String.eqb key "ArrowLeft"); [split; assumption|].
    destruct (String.eqb key "ArrowRight"); [split; assumption|].
    destruct (String.eqb key "ArrowUp");
      [split; [assumption|by apply base_jump_onGrid]|].
    destruct (String.eqb key "k"); [|split; assumption].
    destruct (base_attack_onGrid _ _ He Hp) as [Ha Ht].
    destruct (Base.attack (Base.enemy w) (Base.player w)) as [e p].
    split; [exact Ht|].
    eapply base_sameKin_onGrid; [apply base_setAnimation_kin|exact Ha].
  - unfold Base.keyup. cbv zeta.
    repeat (destruct (String.eqb key _); [split; assumption|]).
    split; assumption.
Qed.

Lemma base_reachable_onGrid imgs (w : Base.World float) :
  Base.reachable imgs w ->
  base_onGrid (Base.player w) /\ base_onGrid (Base.enemy w).
Proof.
  induction 1 as [|w ev _ [Hp He]].
  - destruct start_onGrid as (H100 & H824 & H0 & Horb).
    split; split_and!; try reflexivity; assumption.
  - by apply base_step_onGrid.
Qed.

Lemma enh_animate_onGrid now attackNow random (w : Enhanced.World float) :
  enh_onGrid (Enhanced.player w) -> enh_onGrid (Enhanced.enemy w) ->
  enh_onGrid (Enhanced.player (Enhanced.animate now attackNow random w))
  /\ enh_onGrid (Enhanced.enemy (Enhanced.animate now attackNow random w)).
Proof.
  intros Hp He. unfold Enhanced.animate.
  destruct (Enhanced.update (Enhanced.player w) true) as [[p outp]|] eqn:Hup;
    [|split; assumption].
  apply enh_update_ok in Hup. subst p.
  pose proof (enh_tick_onGrid _ Hp) as Hp'.
  destruct (Enhanced.update (Enhanced.enemy w) false) as [[e oute]|] eqn:Hue;
    [|split; assumption].
  apply enh_update_ok in Hue. subst e.
  pose proof (enh_tick_onGrid _ He) as He'.
  cbv zeta.
  pose proof (enh_movementLogic_onGrid (Enhanced.keys_player w) _ Hp') as Hp''.
  destruct (enh_aiUpdate_onGrid now attackNow random (Enhanced.enemyAI w)
              _ _ He' Hp'') as [Hf Ht].
  cbn [Enhanced.player Enhanced.enemy]. split; [exact Ht|].
  destruct (neqb _ _); [|exact Hf].
  eapply enh_sameKin_onGrid; [apply enh_setAnimation_kin|exact Hf].
Qed.

Lemma enh_step_onGrid ev (w : Enhanced.World float) :
  enh_onGrid (Enhanced.player w) -> enh_onGrid (Enhanced.enemy w) ->
  enh_onGrid (Enhanced.player (Enhanced.step ev w))
  /\ enh_onGrid (Enhanced.enemy (Enhanced.step ev w)).
Proof.
  intros Hp He.
  destruct ev as [now attackNow random|key now|key]; cbn [Enhanced.step].
  - destruct (Enhanced.frameRequested w);
      [by apply enh_animate_onGrid|split; assumption].
  - unfold Enhanced.keydown. cbv zeta.
    destruct (String.eqb key "a"); [split; assumption|].
    destruct (String.eqb key "d"); [split; assumption|].
    destruct (String.eqb key "w");
      [split; [by apply enh_jump_onGrid|assumption]|].
    destruct (String.eqb key " ").
    { destruct (negb _); [|split; assumption].
      destruct (enh_attack_onGrid now _ _ Hp He) as [Ha Ht].
      destruct (Enhanced.attack now (Enhanced.player w) (Enhanced.enemy w))
        as [p e].
      split; [|exact Ht].
      eapply enh_sameKin_onGrid; [apply enh_setAnimation_kin|exact Ha]. }
    destruct (String.eqb key "s"); [|split; assumption].
    split; [by apply enh_dodge_onGrid|assumption].
  - unfold Enhanced.keyup. cbv zeta.
    repeat (destruct (String.eqb key _); [split; assumption|]).
    split; assumption.
Qed.

Lemma enh_reachable_onGrid imgs (w : Enhanced.World float) :
  Enhanced.reachable imgs w ->
  enh_onGrid (Enhanced.player w) /\ enh_onGrid (Enhanced.enemy w).
Proof.
  induction 1 as [|w ev _ [Hp He]].
  - destruct start_onGrid as (H100 & H824 & H0 & Horb).
    unfold Enhanced.initWorld, Enhanced.resetGame. cbv zeta.
    cbn [Enhanced.player Enhanced.enemy].
    split; (eapply enh_sameKin_onGrid; [apply enh_setAnimation_kin|]);
      split_and!; try reflexivity; assumption.
  - by apply enh_step_onGrid.
Qed.

(** On the grid the bounds of the spec hold as the program tests them. *)
Lemma base_onGrid_inBounds (f : Base.Fighter float) :
  base_onGrid f -> base_inBounds f = true.
Proof.
  intros (Hpx & _ & Horb & Hw & Hh). unfold base_inBounds.
  rewrite Hw, Hh, (isPixel_bounds _ Hpx). exact (orbit_bound _ _ Horb).
Qed.

Lemma enh_onGrid_inBounds (f : Enhanced.Fighter float) :
  enh_onGrid f -> enh_inBounds f = true.
Proof.
  intros (Hpx & _ & Horb & Hw & Hh & _). unfold enh_inBounds.
  rewrite Hw, Hh, (isPixel_bounds _ Hpx). exact (orbit_bound _ _ Horb).
Qed.

End GridInvariant.

(** ** The attack range on the pixel grid *)

Section GridRange.

Lemma hitsX_check_100 : hitsX_check 100 = true.
Proof. vm_compute. reflexivity. Qed.

Lemma hitsX_check_120 : hitsX_check 120 = true.
Proof. vm_compute. reflexivity. Qed.

Lemma pixelsF_In (k : Z) : 0 <= k <= 974 -> In (k, ofZ (num:=float) k) pixelsF.
Proof.
  intros Hk. unfold pixelsF. apply in_map_iff.
  exists k. split; [reflexivity|by apply pixels_In].
Qed.

Lemma hitsX_pixels (range : Z) (facingRight : bool) (ka kt : Z) :
  hitsX_check range = true ->
  0 <= ka <= 974 -> 0 <= kt <= 974 ->
  hitsX (ofZ range) (ofZ 50) facingRight (ofZ ka) (ofZ kt)
  = inReach range (zgap facingRight ka kt).
Proof.
  intros Hcheck Ha Ht. unfold hitsX_check in Hcheck.
  pose proof (proj1 (forallb_forall _ _) Hcheck _ (pixelsF_In ka Ha)) as Hrow.
  pose proof (proj1 (forallb_forall _ _) Hrow _ (pixelsF_In kt Ht)) as Hcell.
  unfold hitsX_ok in Hcell. cbn [fst snd] in Hcell.
  apply andb_true_iff in Hcell as [Hr Hl].
  destruct facingRight; by apply Bool.eqb_prop.
Qed.

Lemma base_hits_split (r : float) (a t : Base.Fighter float) :
  Base.width a = ofZ 50 -> Base.width t = ofZ 50 ->
  Base.hits r a t
  = hitsX r (ofZ 50) (isRight (Base.lastDirection a))
      (x (Base.position a)) (x (Base.position t))
    && base_overlapYb a t.
Proof.
  intros Hwa Hwt. unfold Base.hits, hitsX, base_overlapYb. cbv zeta.
  rewrite Hwa, Hwt. by rewrite <- !andb_assoc.
Qed.

Lemma enh_hits_split (r : float) (a t : Enhanced.Fighter float) :
  Enhanced.width a = ofZ 50 -> Enhanced.width t = ofZ 50 ->
  Enhanced.hits r a t
  = hitsX r (ofZ 50) (isRight (Enhanced.lastDirection a))
      (x (Enhanced.position a)) (x (Enhanced.position t))
    && enh_overlapYb a t.
Proof.
  intros Hwa Hwt. unfold Enhanced.hits, hitsX, enh_overlapYb. cbv zeta.
  rewrite Hwa, Hwt. by rewrite <- !andb_assoc.
Qed.

Lemma inReach_true (range gap : Z) :
  inReach range gap = true <-> -50 < gap < range.
Proof. unfold inReach. rewrite andb_true_iff, !Z.ltb_lt. tauto. Qed.

Lemma base_attack_on_pixels (a t : Base.Fighter float) (ka kt : Z) :
  Base.attackCooldown a <= 0 ->
  0 <= ka <= 974 -> 0 <= kt <= 974 ->
  x (Base.position a) = ofZ ka -> x (Base.position t) = ofZ kt ->
  Base.width a = ofZ 50 -> Base.width t = ofZ 50 ->
  base_overlapYb a t = true ->
  Base.health (Base.attack a t).2
  = if inReach 100 (zgap (isRight (Base.lastDirection a)) ka kt)
    then afterHit (Base.health t) (Base.attackDamage a)
    else Base.health t.
Proof.
  intros Hcd Hka Hkt Hxa Hxt Hwa Hwt Hy.
  rewrite (base_attack_ready a t Hcd). cbn [snd].
  rewrite (base_hits_split _ a t Hwa Hwt), Hy, andb_true_r, Hxa, Hxt.
  rewrite (hitsX_pixels 100 _ ka kt hitsX_check_100 Hka Hkt).
  by destruct (inReach _ _).
Qed.

Lemma enh_attack_on_pixels now (a t : Enhanced.Fighter float) (ka kt : Z) :
  eligible a ->
  0 <= ka <= 974 -> 0 <= kt <= 974 ->
  x (Enhanced.position a) = ofZ ka -> x (Enhanced.position t) = ofZ kt ->
  Enhanced.width a = ofZ 50 -> Enhanced.width t = ofZ 50 ->
  enh_overlapYb a t = true ->
  Enhanced.health (Enhanced.attack now a t).2
  = if inReach 120 (zgap (isRight (Enhanced.lastDirection a)) ka kt)
    then afterHit (Enhanced.health t) (Enhanced.attackDamage a)
    else Enhanced.health t.
Proof.
  intros Hel Hka Hkt Hxa Hxt Hwa Hwt Hy.
  rewrite (enh_attack_ready now a t Hel). cbn [snd].
  rewrite (enh_hits_split _ a t Hwa Hwt), Hy, andb_true_r, Hxa, Hxt.
  rewrite (hitsX_pixels 120 _ ka kt hitsX_check_120 Hka Hkt).
  by destruct (inReach _ _).
Qed.

End GridRange.
(** ** Claims about range, bounds and gravity *)

(** C1, as the code has it.  With the attacker off cooldown (and not
    dodging in the enhanced variant) and the two fighters overlapping
    vertically, the attack lands exactly when the edge-to-edge gap
    along the facing axis lies strictly between minus the target's
    width and attackRange (100 base, 120 enhanced): a gap in between
    registers the hit (the target's health drops by attackDamage,
    clamped at 0), while a gap of exactly attackRange, of
    attackRange + 1 or more, and a gap of minus the target's width or
    less, each leave the target's health untouched.
    Proved in exact arithmetic for all positions, and in binary64 for
    all pairs of fighters standing on pixels of the screen. *)
Theorem attack_range_boundary :
  (forall (a t : Base.Fighter Q),
      (Base.attackCooldown a <= 0)%Z ->
      base_overlapY a t ->
      let after := Base.health (Base.attack a t).2 in
      ((- Base.width t < base_gap a t < 100)%Q ->
       after = afterHit (Base.health t) (Base.attackDamage a))
      /\ ((100 <= base_gap a t)%Q -> after = Base.health t)
      /\ ((base_gap a t <= - Base.width t)%Q -> after = Base.health t))
  /\ (forall (now : Z) (a t : Enhanced.Fighter Q),
         eligible a ->
         enh_overlapY a t ->
         let after := Enhanced.health (Enhanced.attack now a t).2 in
         ((- Enhanced.width t < enh_gap a t < 120)%Q ->
          after = afterHit (Enhanced.health t) (Enhanced.attackDamage a))
         /\ ((120 <= enh_gap a t)%Q -> after = Enhanced.health t)
         /\ ((enh_gap a t <= - Enhanced.width t)%Q ->
             after = Enhanced.health t))
  /\ (forall (a t : Base.Fighter float) (ka kt : Z),
         (Base.attackCooldown a <= 0)%Z ->
         (0 <= ka <= 974)%Z -> (0 <= kt <= 974)%Z ->
         x (Base.position a) = ofZ ka -> x (Base.position t) = ofZ kt ->
         Base.width a = ofZ 50 -> Base.width t = ofZ 50 ->
         base_overlapYb a t = true ->
         let gap := zgap (isRight (Base.lastDirection a)) ka kt in
         let after := Base.health (Base.attack a t).2 in
         ((-50 < gap < 100)%Z ->
          after = afterHit (Base.health t) (Base.attackDamage a))
         /\ ((100 <= gap)%Z -> after = Base.health t)
         /\ ((gap <= -50)%Z -> after = Base.health t))
  /\ (forall (now : Z) (a t : Enhanced.Fighter float) (ka kt : Z),
         eligible a ->
         (0 <= ka <= 974)%Z -> (0 <= kt <= 974)%Z ->
         x (Enhanced.position a) = ofZ ka ->
         x (Enhanced.position t) = ofZ kt ->
         Enhanced.width a = ofZ 50 -> Enhanced.width t = ofZ 50 ->
         enh_overlapYb a t = true ->
         let gap := zgap (isRight (Enhanced.lastDirection a)) ka kt in
         let after := Enhanced.health (Enhanced.attack now a t).2 in
         ((-50 < gap < 120)%Z ->
          after = afterHit (Enhanced.health t) (Enhanced.attackDamage a))
         /\ ((120 <= gap)%Z -> after = Enhanced.health t)
         /\ ((gap <= -50)%Z -> after = Enhanced.health t)).
Proof.
  split_and!.
  - intros a t Hcd Hy after. subst after.
    rewrite (base_attack_ready a t Hcd). simpl.
    pose proof (base_hits_iff (inject_Z 100) a t) as Hiff.
    change (inject_Z 100) with 100%Q in Hiff at 2.
    split; [|split]; intros Hgap.
    + destruct (Base.hits (inject_Z 100) a t); [done|].
      assert (false = true) by (apply Hiff; done). done.
    + destruct (Base.hits (inject_Z 100) a t); [|done].
      destruct Hiff as [Hiff _]. destruct (Hiff eq_refl) as [[_ Hlt] _]. lra.
    + destruct (Base.hits (inject_Z 100) a t); [|done].
      destruct Hiff as [Hiff _]. destruct (Hiff eq_refl) as [[Hlt _] _]. lra.
  - intros now a t Hel Hy after. subst after.
    rewrite (enh_attack_ready now a t Hel). simpl.
    pose proof (enh_hits_iff (inject_Z 120) a t) as Hiff.
    change (inject_Z 120) with 120%Q in Hiff at 2.
    split; [|split]; intros Hgap.
    + destruct (Enhanced.hits (inject_Z 120) a t); [done|].
      assert (false = true) by (apply Hiff; done). done.
    + destruct (Enhanced.hits (inject_Z 120) a t); [|done].
      destruct Hiff as [Hiff _]. destruct (Hiff eq_refl) as [[_ Hlt] _]. lra.
    + destruct (Enhanced.hits (inject_Z 120) a t); [|done].
      destruct Hiff as [Hiff _]. destruct (Hiff eq_refl) as [[Hlt _] _]. lra.
  - intros a t ka kt Hcd Hka Hkt Hxa Hxt Hwa Hwt Hy gap after.
    subst gap after.
    rewrite (base_attack_on_pixels a t ka kt Hcd Hka Hkt Hxa Hxt Hwa Hwt Hy).
    split; [|split]; intros Hgap.
    + apply inReach_true in Hgap. by rewrite Hgap.
    + destruct (inReach 100 _) eqn:E; [|done]. apply inReach_true in E. lia.
    + destruct (inReach 100 _) eqn:E; [|done]. apply inReach_true in E. lia.
  - intros now a t ka kt Hel Hka Hkt Hxa Hxt Hwa Hwt Hy gap after.
    subst gap after.
    rewrite (enh_attack_on_pixels now a t ka kt Hel Hka Hkt Hxa Hxt Hwa Hwt Hy).
    split; [|split]; intros Hgap.
    + apply inReach_true in Hgap. by rewrite Hgap.
    + destruct (inReach 120 _) eqn:E; [|done]. apply inReach_true in E. lia.
    + destruct (inReach 120 _) eqn:E; [|done]. apply inReach_true in E. lia.
Qed.

(** C2.  In both variants every reachable state has both fighters well
    formed, in particular 0 <= health <= maxHealth; [update] and
    [attack] take well-formed fighters to well-formed fighters, so the
    bound holds before and after each call; a landed attack whose
    damage exceeds the target's health leaves it at exactly 0; and
    after [update] the abscissa lies in [0, canvas.width - width] and
    position.y + height is at most canvas.height: in exact arithmetic
    after the update of any well-formed fighter, and in binary64 in
    every reachable state of both pages. *)
Theorem health_and_position_invariants :
  (forall (num : Type) (N : JSNum num),
      (forall imgs (w : Base.World num),
          Base.reachable imgs w ->
          base_wellFormed (Base.player w) /\ base_wellFormed (Base.enemy w))
      /\ (forall imgs (w : Enhanced.World num),
             Enhanced.reachable imgs w ->
             enh_wellFormed (Enhanced.player w)
             /\ enh_wellFormed (Enhanced.enemy w))
      /\ (forall (f f' : Base.Fighter num) p out,
             base_wellFormed f -> Base.update f p = Ok (f', out) ->
             base_wellFormed f')
      /\ (forall (f f' : Enhanced.Fighter num) p out,
             enh_wellFormed f -> Enhanced.update f p = Ok (f', out) ->
             enh_wellFormed f')
      /\ (forall (a t : Base.Fighter num),
             base_wellFormed a -> base_wellFormed t ->
             base_wellFormed (Base.attack a t).1
             /\ base_wellFormed (Base.attack a t).2)
      /\ (forall now (a t : Enhanced.Fighter num),
             enh_wellFormed a -> enh_wellFormed t ->
             enh_wellFormed (Enhanced.attack now a t).1
             /\ enh_wellFormed (Enhanced.attack now a t).2)
      /\ (forall (a t : Base.Fighter num),
             (Base.attackCooldown a <= 0)%Z ->
             Base.hits (ofZ 100) a t = true ->
             (Base.health t < Base.attackDamage a)%Z ->
             Base.health (Base.attack a t).2 = 0%Z)
      /\ (forall now (a t : Enhanced.Fighter num),
             eligible a ->
             Enhanced.hits (ofZ 120) a t = true ->
             (Enhanced.health t < Enhanced.attackDamage a)%Z ->
             Enhanced.health (Enhanced.attack now a t).2 = 0%Z))
  /\ (forall (f f' : Base.Fighter Q) p out,
         base_wellFormed f -> Base.update f p = Ok (f', out) ->
         (0 <= x (Base.position f')
               <= inject_Z canvas_width - Base.width f'
          /\ y (Base.position f') + Base.height f'
             <= inject_Z canvas_height)%Q)
  /\ (forall (f f' : Enhanced.Fighter Q) p out,
         enh_wellFormed f -> Enhanced.update f p = Ok (f', out) ->
         (0 <= x (Enhanced.position f')
               <= inject_Z canvas_width - Enhanced.width f'
          /\ y (Enhanced.position f') + Enhanced.height f'
             <= inject_Z canvas_height)%Q)
  /\ (forall imgs (w : Base.World float),
         Base.reachable imgs w ->
         base_inBounds (Base.player w) = true
         /\ base_inBounds (Base.enemy w) = true)
  /\ (forall imgs (w : Enhanced.World float),
         Enhanced.reachable imgs w ->
         enh_inBounds (Enhanced.player w) = true
         /\ enh_inBounds (Enhanced.enemy w) = true).
Proof.
  split_and!.
  - intros num N. split_and!.
    + apply base_reachable_wf.
    + apply enh_reachable_wf.
    + intros f f' p out Hwf Hup. rewrite (base_update_ok _ _ _ _ Hup).
      eapply base_sameBody_wf; [apply base_tick_body|done].
    + intros f f' p out Hwf Hup. rewrite (enh_update_ok _ _ _ _ Hup).
      eapply enh_sameBody_wf; [apply enh_tick_body|done].
    + apply base_attack_wf.
    + intros now. apply enh_attack_wf.
    + intros a t Hcd Hhit Hover.
      rewrite (base_attack_ready a t Hcd), Hhit. simpl.
      by apply afterHit_overkill.
    + intros now a t Hel Hhit Hover.
      rewrite (enh_attack_ready now a t Hel), Hhit. simpl.
      by apply afterHit_overkill.
  - intros f f' p out (_ & _ & Hw & Hh) Hup.
    rewrite (base_update_ok _ _ _ _ Hup).
    destruct (base_tick_kept f) as (_ & _ & _ & -> & -> & _).
    rewrite base_tick_position.
    destruct (base_physics_position f) as [-> ->].
    split; [apply clampedX_range | apply groundedY_range].
    rewrite Hw. unfold canvas_width. simpl.
    change (inject_Z 50) with 50%Q. change (inject_Z 1024) with 1024%Q. lra.
  - intros f f' p out (_ & _ & Hw & Hh & _) Hup.
    rewrite (enh_update_ok _ _ _ _ Hup).
    destruct (enh_tick_kept f) as (_ & _ & _ & -> & -> & _).
    rewrite enh_tick_position.
    destruct (enh_physics_position f) as [-> ->].
    split; [apply clampedX_range | apply groundedY_range].
    rewrite Hw. unfold canvas_width. simpl.
    change (inject_Z 50) with 50%Q. change (inject_Z 1024) with 1024%Q. lra.
  - intros imgs w Hreach.
    destruct (base_reachable_onGrid imgs w Hreach) as [Hp He].
    split; by apply base_onGrid_inBounds.
  - intros imgs w Hreach.
    destruct (enh_reachable_onGrid imgs w Hreach) as [Hp He].
    split; by apply enh_onGrid_inBounds.
Qed.

Lemma landedIsNotAbove_exact : landedIsNotAbove (num:=Q).
Proof. by vm_compute. Qed.

Lemma landedIsNotAbove_binary64 : landedIsNotAbove (num:=float).
Proof. by vm_compute. Qed.

(** C6, as the code has it.  A fighter 150 high that is above the
    ground ([position.y + height < canvas.height]) before and after
    each of [n] consecutive updates ends with the vertical velocity
    obtained from its initial one by adding the constant 0.7 [n] times,
    one addition per tick, in the arithmetic of the program; every
    further tick in the air adds 0.7 again, at any [n]: there is no
    cap.  In exact arithmetic that sum is 0.7 * n above the initial
    velocity; in binary64 it is the rounded running sum, which is not
    always the double 0.7 * n. *)
Theorem gravity_accumulates_without_cap :
  (forall (num : Type) (N : JSNum num),
      landedIsNotAbove (num:=num) ->
      (forall (n : nat) (f : Base.Fighter num),
          idleOk (Base.animations f) ->
          Base.height f = ofZ 150 ->
          base_above_for n f = true ->
          exists f', base_updates n f = Ok f'
                     /\ y (Base.velocity f')
                        = accumulate n (y (Base.velocity f)))
      /\ (forall (n : nat) (f : Enhanced.Fighter num),
             idleOk (Enhanced.animations f) ->
             Enhanced.height f = ofZ 150 ->
             enh_above_for n f = true ->
             exists f', enh_updates n f = Ok f'
                        /\ y (Enhanced.velocity f')
                           = accumulate n (y (Enhanced.velocity f)))
      /\ (forall (n : nat) (v : num),
             accumulate (S n) v = nadd (accumulate n v) gravity))
  /\ landedIsNotAbove (num:=Q)
  /\ landedIsNotAbove (num:=float)
  /\ (forall (n : nat) (v : Q),
         (accumulate n v == v + (7 # 10) * inject_Z (Z.of_nat n))%Q).
Proof.
  split_and!.
  - intros num N Hland. split_and!.
    + intros n f Hidle Hh Habove. apply base_gravity_run; [done|].
      by apply base_above_airborne.
    + intros n f Hidle Hh Habove. apply enh_gravity_run; [done|].
      by apply enh_above_airborne.
    + apply accumulate_S.
  - apply landedIsNotAbove_exact.
  - apply landedIsNotAbove_binary64.
  - apply accumulate_exact.
Qed.

(** ** The code run on concrete inputs *)

Lemma sampleAnims_idleOk : idleOk sampleAnims.
Proof. split; eexists _, _; split; vm_compute; reflexivity. Qed.

(** The keys the controller builds, "attackright" and "attackleft", are
    not keys of the sprite sheets of the page, whose attack animations
    are "attackRight" and "attackLeft": the placeholder is synthesized
    on the first attack decision. *)
Example controller_keys_are_absent (imgs : gmap string Image) (who : string)
    (duration : Z) (d : Direction) :
  spriteSheet imgs who duration !! ("attack" +:+ dirString d) = None.
Proof. destruct d; vm_compute; reflexivity. Qed.

(** C1, counterexample.  Two fighters on the ground exactly
    attackRange apart edge to edge (attacker at x = 100, width 50,
    facing right; target at x = 250 in the base variant, x = 270 in the
    enhanced one): the attack is eligible, the boxes overlap
    vertically, and the target's health does not change. *)
Lemma attack_at_exact_range_misses :
  ~ (forall (a t : Base.Fighter Q),
        (Base.attackCooldown a <= 0)%Z ->
        base_overlapY a t ->
        (base_gap a t == 100)%Q ->
        Base.health (Base.attack a t).2
        = afterHit (Base.health t) (Base.attackDamage a))
  /\ ~ (forall (now : Z) (a t : Enhanced.Fighter Q),
           eligible a ->
           enh_overlapY a t ->
           (enh_gap a t == 120)%Q ->
           Enhanced.health (Enhanced.attack now a t).2
           = afterHit (Enhanced.health t) (Enhanced.attackDamage a)).
Proof.
  split; intros Hclaim.
  - specialize (Hclaim (base_sample 100 426) (base_sample 250 426)).
    assert (Hbad : (100 = 90)%Z); [|discriminate].
    apply Hclaim; vm_compute; try split; congruence.
  - specialize (Hclaim 0%Z (enh_sample 100 426) (enh_sample 270 426)).
    assert (Hbad : (200 = 185)%Z); [|discriminate].
    apply Hclaim; vm_compute; try split; congruence.
Qed.

(** The same inputs in binary64, with the scenarios of the spec: a
    target at x = 200 is hit, at x = 250 and x = 260 it is not. *)
Example exact_range_in_binary64 :
  Base.health (Base.attack (base_sample (num:=float) 100 426)
                           (base_sample 200 426)).2 = 90
  /\ Base.health (Base.attack (base_sample (num:=float) 100 426)
                              (base_sample 249 426)).2 = 90
  /\ Base.health (Base.attack (base_sample (num:=float) 100 426)
                              (base_sample 250 426)).2 = 100
  /\ Base.health (Base.attack (base_sample (num:=float) 100 426)
                              (base_sample 260 426)).2 = 100
  /\ Enhanced.health (Enhanced.attack 0 (enh_sample (num:=float) 100 426)
                                      (enh_sample 269 426)).2 = 185
  /\ Enhanced.health (Enhanced.attack 0 (enh_sample (num:=float) 100 426)
                                      (enh_sample 270 426)).2 = 200.
Proof. by vm_compute. Qed.

(** Health underflow: a target with 10 health left, struck by an
    attack of the enhanced variant (damage 15), is left at exactly 0. *)
Example overkill_clamps_at_zero :
  let target := Enhanced.set_health 10 (enh_sample (num:=float) 200 426) in
  Enhanced.health (Enhanced.attack 0 (enh_sample 100 426) target).2 = 0.
Proof. by vm_compute. Qed.

(** The enemy as the controller leaves it plays the empty placeholder:
    after five updates the frame counter is NaN (1 % 0), nothing has
    thrown, and [draw] still issues the idle frame. *)
Example placeholder_frame_becomes_NaN :
  Enhanced.currentFrame (enh_after 5 (enemyAfterDecision (num:=float))) = NaN
  /\ Enhanced.draw (enh_after 5 (enemyAfterDecision (num:=float)))
     = Ok [Enhanced.drawFrame (enh_after 5 enemyAfterDecision) sampleImage].
Proof. by vm_compute. Qed.

(** C5, counterexample.  A base fighter that is attacking with one
    tick of cooldown left: the update that brings the cooldown to 0
    returns with isAttacking still set. *)
Lemma base_tick_reaching_zero_keeps_isAttacking :
  ~ (forall (f f' : Base.Fighter float) p out,
        Base.update f p = Ok (f', out) ->
        Base.isAttacking f = true ->
        (0 < Base.attackCooldown f)%Z ->
        Base.attackCooldown f' = 0%Z ->
        Base.isAttacking f' = false).
Proof.
  intros Hclaim.
  assert (Hbad : Base.isAttacking (Base.tick (base_attacking (num:=float) 1))
                 = false); [|by vm_compute in Hbad].
  eapply (Hclaim (base_attacking 1) _ true); by vm_compute.
Qed.

(** C6, counterexample.  A fighter high above the ground with zero
    vertical velocity stays above it for six updates; its vertical
    velocity is then the running sum 4.2000000000000002, not the
    product 0.7 * 6 = 4.1999999999999993. *)
Lemma gravity_sum_is_not_the_product :
  ~ (forall (n : nat) (f : Base.Fighter float),
        idleOk (Base.animations f) ->
        Base.height f = ofZ 150 ->
        base_above_for n f = true ->
        y (Base.velocity f) = ofZ 0 ->
        exists f', base_updates n f = Ok f'
                   /\ y (Base.velocity f')
                      = nmul gravity (ofZ (Z.of_nat n)))
  /\ ~ (forall (n : nat) (f : Enhanced.Fighter float),
           idleOk (Enhanced.animations f) ->
           Enhanced.height f = ofZ 150 ->
           enh_above_for n f = true ->
           y (Enhanced.velocity f) = ofZ 0 ->
           exists f', enh_updates n f = Ok f'
                      /\ y (Enhanced.velocity f')
                         = nmul gravity (ofZ (Z.of_nat n))).
Proof.
  split; intros Hclaim.
  - destruct (Hclaim 6%nat (base_sample 100 (-1000)))
      as (f' & Hrun & Hv).
    + apply sampleAnims_idleOk.
    + reflexivity.
    + by vm_compute.
    + by vm_compute.
    + vm_compute in Hrun. injection Hrun as <-.
      apply (f_equal (fun v => PrimFloat.eqb v (nmul gravity (ofZ 6)))) in Hv.
      by vm_compute in Hv.
  - destruct (Hclaim 6%nat (enh_sample 100 (-1000)))
      as (f' & Hrun & Hv).
    + apply sampleAnims_idleOk.
    + reflexivity.
    + by vm_compute.
    + by vm_compute.
    + vm_compute in Hrun. injection Hrun as <-.
      apply (f_equal (fun v => PrimFloat.eqb v (nmul gravity (ofZ 6)))) in Hv.
      by vm_compute in Hv.
Qed.

(** ** The theorems at concrete inputs *)

(** C1 at a gap of 99 (hit) and of 100 (miss), base variant, of 119
    and 120, enhanced variant, and at a gap of -100, the target wholly
    behind the attacker's front edge (miss). *)
Lemma attack_range_boundary_witness :
  (Base.health (Base.attack (base_sample (num:=Q) 100 426)
                            (base_sample 249 426)).2 = 90
   /\ Base.health (Base.attack (base_sample (num:=Q) 100 426)
                               (base_sample 250 426)).2 = 100
   /\ Base.health (Base.attack (base_sample (num:=Q) 300 426)
                               (base_sample 250 426)).2 = 100)
  /\ (Enhanced.health (Enhanced.attack 0 (enh_sample (num:=Q) 100 426)
                                       (enh_sample 269 426)).2 = 185
      /\ Enhanced.health (Enhanced.attack 0 (enh_sample (num:=Q) 100 426)
                                          (enh_sample 270 426)).2 = 200
      /\ Enhanced.health (Enhanced.attack 0 (enh_sample (num:=Q) 300 426)
                                          (enh_sample 250 426)).2 = 200)
  /\ (Base.health (Base.attack (base_sample (num:=float) 100 426)
                               (base_sample 249 426)).2 = 90
      /\ Base.health (Base.attack (base_sample (num:=float) 100 426)
                                  (base_sample 250 426)).2 = 100
      /\ Base.health (Base.attack (base_sample (num:=float) 300 426)
                                  (base_sample 250 426)).2 = 100)
  /\ (Enhanced.health (Enhanced.attack 0 (enh_sample (num:=float) 100 426)
                                       (enh_sample 269 426)).2 = 185
      /\ Enhanced.health (Enhanced.attack 0 (enh_sample (num:=float) 100 426)
                                          (enh_sample 270 426)).2 = 200
      /\ Enhanced.health (Enhanced.attack 0 (enh_sample (num:=float) 300 426)
                                          (enh_sample 250 426)).2 = 200).
Proof.
  destruct attack_range_boundary as (Hbase & Henh & Hbase64 & Henh64).
  split; [|split; [|split]]; (split; [|split]).
  - apply (Hbase (base_sample 100 426) (base_sample 249 426));
      vm_compute; try split; congruence.
  - apply (proj1 (proj2 (Hbase (base_sample 100 426) (base_sample 250 426)
                           ltac:(vm_compute; congruence)
                           ltac:(vm_compute; split; congruence)))).
    vm_compute. congruence.
  - apply (proj2 (proj2 (Hbase (base_sample 300 426) (base_sample 250 426)
                           ltac:(vm_compute; congruence)
                           ltac:(vm_compute; split; congruence)))).
    vm_compute. congruence.
  - apply (Henh 0 (enh_sample 100 426) (enh_sample 269 426));
      vm_compute; try split; congruence.
  - apply (proj1 (proj2 (Henh 0 (enh_sample 100 426) (enh_sample 270 426)
                           ltac:(vm_compute; split; congruence)
                           ltac:(vm_compute; split; congruence)))).
    vm_compute. congruence.
  - apply (proj2 (proj2 (Henh 0 (enh_sample 300 426) (enh_sample 250 426)
                           ltac:(vm_compute; split; congruence)
                           ltac:(vm_compute; split; congruence)))).
    vm_compute. congruence.
  - apply (Hbase64 (base_sample 100 426) (base_sample 249 426) 100 249);
      vm_compute; try split; congruence.
  - apply (proj1 (proj2 (Hbase64 (base_sample 100 426) (base_sample 250 426)
                           100 250
                           ltac:(vm_compute; congruence)
                           ltac:(lia) ltac:(lia)
                           ltac:(reflexivity) ltac:(reflexivity)
                           ltac:(reflexivity) ltac:(reflexivity)
                           ltac:(vm_compute; reflexivity)))).
    vm_compute. congruence.
  - apply (proj2 (proj2 (Hbase64 (base_sample 300 426) (base_sample 250 426)
                           300 250
                           ltac:(vm_compute; congruence)
                           ltac:(lia) ltac:(lia)
                           ltac:(reflexivity) ltac:(reflexivity)
                           ltac:(reflexivity) ltac:(reflexivity)
                           ltac:(vm_compute; reflexivity)))).
    vm_compute. congruence.
  - apply (Henh64 0 (enh_sample 100 426) (enh_sample 269 426) 100 269);
      vm_compute; try split; congruence.
  - apply (proj1 (proj2 (Henh64 0 (enh_sample 100 426) (enh_sample 270 426)
                           100 270
                           ltac:(vm_compute; split; congruence)
                           ltac:(lia) ltac:(lia)
                           ltac:(reflexivity) ltac:(reflexivity)
                           ltac:(reflexivity) ltac:(reflexivity)
                           ltac:(vm_compute; reflexivity)))).
    vm_compute. congruence.
  - apply (proj2 (proj2 (Henh64 0 (enh_sample 300 426) (enh_sample 250 426)
                           300 250
                           ltac:(vm_compute; split; congruence)
                           ltac:(lia) ltac:(lia)
                           ltac:(reflexivity) ltac:(reflexivity)
                           ltac:(reflexivity) ltac:(reflexivity)
                           ltac:(vm_compute; reflexivity)))).
    vm_compute. congruence.
Defined.

(** C2 on the state reached by a frame and an attack key, and on a
    fighter that runs into the right edge. *)
Lemma health_and_position_invariants_witness :
  (let w := Base.step (Base.KeyDown " ")
              (Base.step Base.Frame (Base.initWorld (num:=float) sampleLoaded)) in
   base_wellFormed (Base.player w) /\ base_wellFormed (Base.enemy w))
  /\ (let f := Base.set_velocity {| x := 50%Q; y := 0%Q |}
                 (base_sample (num:=Q) 1000 426) in
      (0 <= x (Base.position (Base.tick f))
         <= inject_Z canvas_width - Base.width (Base.tick f)
       /\ y (Base.position (Base.tick f)) + Base.height (Base.tick f)
          <= inject_Z canvas_height)%Q)
  /\ (let w := Enhanced.step (Enhanced.KeyDown "w" 1000)
                 (Enhanced.step (Enhanced.Frame 1000 1000 (fun _ => ofZ 0))
                    (Enhanced.initWorld (num:=float) sampleLoaded)) in
      enh_inBounds (Enhanced.player w) = true
      /\ enh_inBounds (Enhanced.enemy w) = true).
Proof.
  destruct health_and_position_invariants
    as (Hgen & Hbase & Henh & _ & Henh64).
  split; [|split].
  - destruct (Hgen float FloatNum) as (Hreach & _).
    apply (Hreach sampleLoaded).
    apply Base.reach_step, Base.reach_step, Base.reach_init.
  - intros f. eapply (Hbase f (Base.tick f) true).
    + split_and!; vm_compute; congruence.
    + vm_compute. reflexivity.
  - apply (Henh64 sampleLoaded).
    apply Enhanced.reach_step, Enhanced.reach_step, Enhanced.reach_init.
Defined.

(** C3 for an attacker on cooldown (base) and for a dodging attacker
    (enhanced). *)
Lemma attack_on_cooldown_is_noop_witness :
  Base.attack (base_attacking (num:=float) 120) (base_sample 200 426)
  = (base_attacking 120, base_sample 200 426)
  /\ Enhanced.attack 5000 (Enhanced.set_isDodging true (enh_sample (num:=float) 100 426))
       (enh_sample 200 426)
     = (Enhanced.set_isDodging true (enh_sample 100 426), enh_sample 200 426).
Proof.
  destruct (@attack_on_cooldown_is_noop float FloatNum) as [Hbase Henh].
  split.
  - apply Hbase. reflexivity.
  - apply Henh. right. reflexivity.
Defined.

(** C4 on a fresh fighter attacking at 1000, 1100 and 1200 ms, the
    cooldown being run down by [update] in between. *)
Lemma combo_step_and_sequence_witness :
  let target := enh_sample (num:=float) 200 426 in
  let s1 := (Enhanced.attack 1000 (enh_sample 100 426) target).1 in
  let a1 := enh_after 30 s1 in
  let s2 := (Enhanced.attack 1100 a1 target).1 in
  let a2 := enh_after 25 s2 in
  let s3 := (Enhanced.attack 1200 a2 target).1 in
  (Enhanced.comboCount s1, Enhanced.comboCount s2, Enhanced.comboCount s3)
  = (0, 1, 2)
  /\ (Enhanced.attackCooldown s1, Enhanced.attackCooldown s2,
      Enhanced.attackCooldown s3) = (30, 25, 20).
Proof.
  intros target s1 a1 s2 a2 s3.
  destruct (@combo_step_and_sequence float FloatNum) as [_ Hseq].
  apply (Hseq 1000 (enh_sample 100 426) a1 a2 target target target).
  - split; [vm_compute; congruence | reflexivity].
  - left. reflexivity.
  - vm_compute. split_and!; congruence.
  - vm_compute. split_and!; congruence.
Defined.

(** C5 on attacking fighters with one tick of cooldown left. *)
Lemma isAttacking_cleared_when_cooldown_expires_witness :
  (Enhanced.isAttacking (Enhanced.tick (enh_attacking (num:=float) 1)) = false
   /\ Enhanced.canCombo (Enhanced.tick (enh_attacking (num:=float) 1)) = true)
  /\ Base.isAttacking (Base.tick (base_attacking (num:=float) 1)) = true.
Proof.
  destruct (@isAttacking_cleared_when_cooldown_expires float FloatNum)
    as [Henh Hbase].
  split.
  - eapply (Henh (enh_attacking 1) _ true); vm_compute; reflexivity.
  - eapply (Hbase (base_attacking 1) _ true); vm_compute; reflexivity.
Defined.

(** C6 on a fighter released 1426 px above the ground, ten ticks. *)
Lemma gravity_accumulates_without_cap_witness :
  exists f',
    enh_updates 10 (enh_sample (num:=float) 100 (-1000)) = Ok f'
    /\ y (Enhanced.velocity f') = accumulate 10 (ofZ 0).
Proof.
  destruct gravity_accumulates_without_cap as (Hgen & _ & Hland & _).
  destruct (Hgen float FloatNum Hland) as (_ & Henh & _).
  apply (Henh 10%nat (enh_sample 100 (-1000))).
  - split; eexists _, _; split; vm_compute; reflexivity.
  - reflexivity.
  - vm_compute. reflexivity.
Defined.

(** C7 on two fighters whose current animation is missing, one facing
    right and one facing left, which draw the idle frame of their own
    side; and on the enemy as the controller leaves it, whose current
    animation is the synthesized placeholder with an empty frame
    list. *)
Lemma missing_animation_never_faults_witness :
  (Enhanced.draw (enh_facing (num:=float) Right)
   = Ok [Enhanced.drawFrame (enh_facing Right) idleRightImage]
   /\ Enhanced.draw (enh_facing (num:=float) Left)
      = Ok [Enhanced.drawFrame (enh_facing Left) idleLeftImage])
  /\ Enhanced.currentAnimation (enemyAfterDecision (num:=float)) = "attackleft"
  /\ Enhanced.animations (enemyAfterDecision (num:=float)) !! "attackleft"
     = Some (mkAnimation [] (Some 5))
  /\ Enhanced.draw (enemyAfterDecision (num:=float))
     = Ok [Enhanced.drawFrame enemyAfterDecision sampleImage]
  /\ exists out,
       Enhanced.update (enemyAfterDecision (num:=float)) false
       = Ok (Enhanced.tick enemyAfterDecision, out).
Proof.
  destruct (@missing_animation_never_faults float FloatNum) as [Henh _].
  split; [split|].
  - destruct (Henh (enh_facing Right) false)
      as ((a & img & Ha & Himg & Hdraw) & _).
    + split; eexists _, _; split; vm_compute; reflexivity.
    + left. split; [vm_compute; reflexivity|].
      vm_compute. intuition congruence.
    + rewrite Hdraw. vm_compute in Ha. injection Ha as <-.
      vm_compute in Himg. injection Himg as <-. reflexivity.
  - destruct (Henh (enh_facing Left) false)
      as ((a & img & Ha & Himg & Hdraw) & _).
    + split; eexists _, _; split; vm_compute; reflexivity.
    + left. split; [vm_compute; reflexivity|].
      vm_compute. intuition congruence.
    + rewrite Hdraw. vm_compute in Ha. injection Ha as <-.
      vm_compute in Himg. injection Himg as <-. reflexivity.
  - split; [vm_compute; reflexivity|].
    split; [vm_compute; reflexivity|].
    destruct (Henh enemyAfterDecision false)
      as ((a & img & Ha & Himg & Hdraw) & Hup & _).
    + split; eexists _, _; split; vm_compute; reflexivity.
    + right. right. eexists. split; vm_compute; reflexivity.
    + split; [|exact Hup].
      rewrite Hdraw. vm_compute in Ha. injection Ha as <-.
      vm_compute in Himg. injection Himg as <-. reflexivity.
Defined.

(** C8 on a target in the middle of a dodge. *)
Lemma hit_ignores_target_dodge_witness :
  Enhanced.health
    (Enhanced.attack 1000 (enh_sample (num:=float) 100 426)
       (Enhanced.set_isDodging true (enh_sample 200 426))).2 = 185.
Proof.
  destruct (@hit_ignores_target_dodge float FloatNum 1000
              (enh_sample 100 426) (enh_sample 200 426) true)
    as (Hhealth & _).
  - split; [vm_compute; congruence | reflexivity].
  - vm_compute. reflexivity.
  - exact Hhealth.
Defined.

(** C9 on an enemy and a player 60 px apart, both on the ground, with
    two different random supplies. *)
Lemma ai_close_range_always_attacks_witness :
  Enhanced.calls
    (Enhanced.aiUpdate 1000 1000 (fun _ => ofZ 0) Enhanced.newAIController
       (enh_sample (num:=float) 824 426) (enh_sample 764 426))
  = [Enhanced.CallSetAnimation "attackleft"; Enhanced.CallAttack]
  /\ Enhanced.aiUpdate 1000 1000 (fun _ => lit 99 100)
       Enhanced.newAIController
       (enh_sample (num:=float) 824 426) (enh_sample 764 426)
     = Enhanced.aiUpdate 1000 1000 (fun _ => ofZ 0) Enhanced.newAIController
         (enh_sample 824 426) (enh_sample 764 426).
Proof.
  destruct (@ai_close_range_always_attacks float FloatNum 1000 1000
              (fun _ => ofZ 0) (fun _ => lit 99 100) Enhanced.newAIController
              (enh_sample 824 426) (enh_sample 764 426))
    as (_ & Hcalls & _ & _ & Hsame).
  - vm_compute. congruence.
  - vm_compute. reflexivity.
  - vm_compute. reflexivity.
  - split; [exact Hcalls | exact Hsame].
Defined.

(** C10 on one update of a fresh fighter of each variant. *)
Lemma update_and_attack_frame_witness :
  Base.health (Base.tick (base_sample (num:=float) 100 426)) = 100
  /\ Enhanced.health (Enhanced.tick (enh_sample (num:=float) 100 426)) = 200.
Proof.
  destruct (@update_and_attack_frame float FloatNum)
    as (Hbase & _ & Henh & _).
  split.
  - eapply (Hbase (base_sample 100 426) _ true). vm_compute. reflexivity.
  - eapply (Henh (enh_sample 100 426) _ true). vm_compute. reflexivity.
Defined.

(** ** preloadImages: when the callback runs and what it receives *)

Section PreloadFacts.

Lemma preload_run_snoc evs ev (l : Preload.Loader) :
  Preload.run (evs ++ [ev]) l = Preload.fire (Preload.run evs l) ev.
Proof. unfold Preload.run. by rewrite fold_left_app. Qed.

Lemma preload_maybeCallback_fields (l : Preload.Loader) :
  Preload.imagePaths (Preload.maybeCallback l) = Preload.imagePaths l
  /\ Preload.images (Preload.maybeCallback l) = Preload.images l
  /\ Preload.loadedImagesCount (Preload.maybeCallback l)
     = Preload.loadedImagesCount l
  /\ Preload.consoleErrors (Preload.maybeCallback l)
     = Preload.consoleErrors l
  /\ Preload.callbackCalls (Preload.maybeCallback l)
     = Preload.callbackCalls l
       ++ (if Preload.loadedImagesCount l
              =? Z.of_nat (length (Preload.imagePaths l))
           then [Preload.images l] else []).
Proof.
  unfold Preload.maybeCallback. case_match; simpl; split_and!; try done.
  by rewrite app_nil_r.
Qed.

(** One handler run: the counter goes up by one whatever the outcome,
    and the callback is called when it reaches the number of paths. *)
Lemma preload_fire_valid (l : Preload.Loader) ev :
  (Preload.eventIndex ev < length (Preload.imagePaths l))%nat ->
  Preload.imagePaths (Preload.fire l ev) = Preload.imagePaths l
  /\ Preload.loadedImagesCount (Preload.fire l ev)
     = Preload.loadedImagesCount l + 1
  /\ Preload.callbackCalls (Preload.fire l ev)
     = Preload.callbackCalls l
       ++ (if Preload.loadedImagesCount l + 1
              =? Z.of_nat (length (Preload.imagePaths l))
           then [Preload.images (Preload.fire l ev)] else []).
Proof.
  intros Hi. apply lookup_lt_is_Some_2 in Hi as [path Hpath].
  unfold Preload.fire. rewrite Hpath.
  destruct ev as [i w h|i]; unfold Preload.onload, Preload.onerror;
    match goal with
    | |- context [Preload.maybeCallback ?l'] =>
        destruct (preload_maybeCallback_fields l') as (-> & -> & -> & _ & ->)
    end; simpl; done.
Qed.

Lemma preload_run_count paths evs :
  Forall (fun ev => (Preload.eventIndex ev < length paths)%nat) evs ->
  let l := Preload.run evs (Preload.preloadImages paths) in
  Preload.imagePaths l = paths
  /\ Preload.loadedImagesCount l = Z.of_nat (length evs)
  /\ Preload.callbackCalls l
     = if decide (0 < length paths <= length evs)%nat
       then [Preload.images
               (Preload.run (take (length paths) evs)
                            (Preload.preloadImages paths))]
       else [].
Proof.
  induction evs as [|ev evs IH] using rev_ind; intros Hall l.
  - subst l. simpl. split_and!; try done. case_decide; [lia|done].
  - apply Forall_app in Hall as [Hall Hev]. apply Forall_inv in Hev.
    destruct (IH Hall) as (Hp & Hc & Hcalls). subst l.
    rewrite preload_run_snoc.
    set (l := Preload.run evs (Preload.preloadImages paths)) in *.
    destruct (preload_fire_valid l ev) as (Hp' & Hc' & Hcalls');
      [rewrite Hp; exact Hev|].
    rewrite Hp', Hc', Hcalls', Hp, Hc, Hcalls, length_app. simpl.
    split_and!; [done|lia|].
    destruct (Z.eqb_spec (Z.of_nat (length evs) + 1)
                (Z.of_nat (length paths))) as [Heq|Hne].
    + rewrite decide_False by lia. rewrite decide_True by lia. simpl.
      rewrite take_ge by (rewrite length_app; simpl; lia).
      by rewrite preload_run_snoc.
    + rewrite app_nil_r. case_decide.
      * rewrite decide_True by lia. by rewrite take_app_le by lia.
      * by rewrite decide_False by lia.
Qed.

(** X1. Once every image of a non-empty path list has settled, loaded
    or failed and in whatever order, the callback has been called
    exactly once, with the images as they were when the last one
    settled; before that it has not been called, and for an empty path
    list it is never called. *)
Theorem preload_callback_exactly_once :
  forall (paths : list Preload.ImagePath) (evs : list Preload.ImageEvent),
    Forall (fun ev => (Preload.eventIndex ev < length paths)%nat) evs ->
    Preload.callbackCalls (Preload.run evs (Preload.preloadImages paths))
    = if decide (0 < length paths <= length evs)%nat
      then [Preload.images
              (Preload.run (take (length paths) evs)
                           (Preload.preloadImages paths))]
      else [].
Proof. intros paths evs Hall. by apply preload_run_count. Qed.

Lemma preload_fire_images (l : Preload.Loader) ev k :
  Preload.imagePaths (Preload.fire l ev) = Preload.imagePaths l
  /\ Preload.images (Preload.fire l ev) !! k
     = match ev with
       | Preload.Loaded i w h =>
           match Preload.imagePaths l !! i with
           | Some path =>
               if decide (Preload.key path = k)
               then Some (mkImage (Preload.src path) w h)
               else Preload.images l !! k
           | None => Preload.images l !! k
           end
       | Preload.Failed _ => Preload.images l !! k
       end.
Proof.
  unfold Preload.fire.
  destruct ev as [i w h|i]; simpl;
    destruct (Preload.imagePaths l !! i) as [path|]; try done;
    unfold Preload.onload, Preload.onerror;
    match goal with
    | |- context [Preload.maybeCallback ?l'] =>
        destruct (preload_maybeCallback_fields l') as (-> & -> & _)
    end; simpl; try done.
  split; [done|]. case_decide as Hk.
  - by rewrite <- Hk, lookup_insert_eq.
  - by rewrite lookup_insert_ne.
Qed.

Lemma preload_run_paths evs (l : Preload.Loader) :
  Preload.imagePaths (Preload.run evs l) = Preload.imagePaths l.
Proof.
  induction evs as [|ev evs IH] using rev_ind; [done|].
  rewrite preload_run_snoc.
  by destruct (preload_fire_images (Preload.run evs l) ev "") as [-> _].
Qed.

(** X2. The object handed to the callback holds a key exactly when an
    image registered under that key has loaded, and the image it holds
    carries the [src] of such a path: a failed image leaves its key
    absent, so that reading it yields [undefined]. *)
Theorem preload_images_are_the_loaded_ones :
  forall (paths : list Preload.ImagePath) (evs : list Preload.ImageEvent)
         (k : string),
    let images :=
      Preload.images (Preload.run evs (Preload.preloadImages paths)) in
    (is_Some (images !! k)
     <-> exists i w h path,
           In (Preload.Loaded i w h) evs
           /\ paths !! i = Some path /\ Preload.key path = k)
    /\ (forall img,
           images !! k = Some img ->
           exists i w h path,
             In (Preload.Loaded i w h) evs
             /\ paths !! i = Some path /\ Preload.key path = k
             /\ img = mkImage (Preload.src path) w h).
Proof.
  intros paths evs k. simpl.
  induction evs as [|ev evs [IH1 IH2]] using rev_ind.
  - simpl. split.
    + split; [intros [? H]; by rewrite lookup_empty in H|].
      by intros (? & ? & ? & ? & [] & _).
    + intros img H. by rewrite lookup_empty in H.
  - rewrite preload_run_snoc.
    set (l := Preload.run evs (Preload.preloadImages paths)) in *.
    destruct (preload_fire_images l ev k) as [_ ->].
    assert (Hpaths : Preload.imagePaths l = paths)
      by (subst l; by rewrite preload_run_paths).
    rewrite Hpaths.
    assert (Hold : forall i w h path,
               In (Preload.Loaded i w h) evs
               /\ paths !! i = Some path /\ Preload.key path = k ->
               exists i w h path,
                 In (Preload.Loaded i w h) (evs ++ [ev])
                 /\ paths !! i = Some path /\ Preload.key path = k).
    { intros i w h path (Hin & Hp & Hk). exists i, w, h, path.
      split_and!; try done. apply in_or_app. by left. }
    assert (Hsplit : forall i w h,
               In (Preload.Loaded i w h) (evs ++ [ev]) ->
               In (Preload.Loaded i w h) evs \/ ev = Preload.Loaded i w h).
    { intros i w h Hin. apply in_app_or in Hin as [Hin|[Hin|[]]]; auto. }
    destruct ev as [i w h|i].
    + destruct (paths !! i) as [path|] eqn:Hpath;
        [case_decide as Hk|].
      * split.
        -- split; [|by eexists]. intros _. exists i, w, h, path.
           split_and!; try done. apply in_or_app. right. by left.
        -- intros img [= <-]. exists i, w, h, path.
           split_and!; try done. apply in_or_app. right. by left.
      * split.
        -- rewrite IH1. split.
           ++ intros (i' & w' & h' & p' & H'). by eapply Hold.
           ++ intros (i' & w' & h' & p' & Hin & Hp & Hk').
              apply Hsplit in Hin as [Hin|[= -> -> ->]].
              ** by exists i', w', h', p'.
              ** congruence.
        -- intros img Himg.
           destruct (IH2 img Himg) as (i' & w' & h' & p' & Hin & H').
           exists i', w', h', p'. split; [|done].
           apply in_or_app. by left.
      * split.
        -- rewrite IH1. split.
           ++ intros (i' & w' & h' & p' & H'). by eapply Hold.
           ++ intros (i' & w' & h' & p' & Hin & Hp & Hk').
              apply Hsplit in Hin as [Hin|[= -> -> ->]].
              ** by exists i', w', h', p'.
              ** congruence.
        -- intros img Himg.
           destruct (IH2 img Himg) as (i' & w' & h' & p' & Hin & H').
           exists i', w', h', p'. split; [|done].
           apply in_or_app. by left.
    + split.
      * rewrite IH1. split.
        -- intros (i' & w' & h' & p' & H'). by eapply Hold.
        -- intros (i' & w' & h' & p' & Hin & Hp & Hk').
           apply Hsplit in Hin as [Hin|[=]].
           by exists i', w', h', p'.
      * intros img Himg.
        destruct (IH2 img Himg) as (i' & w' & h' & p' & Hin & H').
        exists i', w', h', p'. split; [|done].
        apply in_or_app. by left.
Qed.

End PreloadFacts.

(** ** Every event of the page as a composition of fighter operations

    The page model follows the two fighters.  It leaves out the
    background image, which [animate] draws before the updates and
    whose absence ends the frame there, and the order in which the
    callback starts the loop and registers the key listeners (a first
    frame that throws leaves no listener).  Either way the fighters are
    then as they were and no frame is pending, so that what is proved
    below of the fighters in the reachable states of the model holds of
    the page. *)

Section Principles.
Context {num : Type} `{!JSNum num}.

(** A relation between a fighter before and after that every operation
    of the base page respects holds across every event. *)
Lemma base_step_rel (I : Base.Fighter num -> Prop)
    (R : Base.Fighter num -> Base.Fighter num -> Prop) :
  (forall f, R f f) ->
  (forall f g h, R f g -> R g h -> R f h) ->
  (forall f, I f -> R f (Base.tick f) /\ I (Base.tick f)) ->
  (forall k f, I f -> R f (Base.movementLogic k f)) ->
  (forall f, I f -> R f (Base.jump f)) ->
  (forall a t, I a -> I t ->
     R a (Base.setAnimation
            (attackKey (Base.lastDirection (Base.attack a t).1))
            (Base.attack a t).1)
     /\ R t (Base.attack a t).2) ->
  forall ev (w : Base.World num),
    I (Base.player w) -> I (Base.enemy w) ->
    R (Base.player w) (Base.player (Base.step ev w))
    /\ R (Base.enemy w) (Base.enemy (Base.step ev w)).
Proof.
  intros Hrefl Htrans Htick Hmove Hjump Hatt ev w Hp He.
  destruct ev as [|key|key]; simpl.
  - destruct (Base.frameRequested w); [|by split].
    unfold Base.gameLoop.
    destruct (Base.gameRunning w); simpl; [|by split].
    destruct (Base.update (Base.player w) true) as [[p outp]|] eqn:Hup;
      [|by split].
    apply base_update_ok in Hup. subst p.
    destruct (Htick _ Hp) as [Rp Ip].
    destruct (Base.update (Base.enemy w) false) as [[e oute]|] eqn:Hue;
      [|by split].
    apply base_update_ok in Hue. subst e.
    destruct (Htick _ He) as [Re Ie].
    cbv zeta.
    pose proof (Hmove (Base.keys_player w) _ Ip) as Rp'.
    pose proof (Hmove (Base.keys_enemy w) _ Ie) as Re'.
    case_match; simpl; split; eapply Htrans; eassumption.
  - unfold Base.keydown. cbv zeta.
    repeat (case_match; simpl; try (split; apply Hrefl)).
    + split; [by apply Hjump|apply Hrefl].
    + destruct (Hatt _ _ Hp He) as [Ha Ht].
      match goal with H : Base.attack _ _ = _ |- _ => rewrite H in * end.
      by split.
    + split; [apply Hrefl|by apply Hjump].
    + destruct (Hatt _ _ He Hp) as [Ha Ht].
      match goal with H : Base.attack _ _ = _ |- _ => rewrite H in * end.
      by split.
  - unfold Base.keyup. cbv zeta.
    repeat (case_match; simpl; try (split; apply Hrefl)).
Qed.

(** A property of a fighter that the constructor establishes and every
    operation of the base page keeps holds in every reachable state. *)
Lemma base_reachable_inv (P : Base.Fighter num -> Prop) imgs :
  P (Base.player (Base.initWorld imgs)) ->
  P (Base.enemy (Base.initWorld imgs)) ->
  (forall f, P f -> P (Base.tick f)) ->
  (forall k f, P f -> P (Base.movementLogic k f)) ->
  (forall f, P f -> P (Base.jump f)) ->
  (forall a t, P a -> P t ->
     P (Base.setAnimation
          (attackKey (Base.lastDirection (Base.attack a t).1))
          (Base.attack a t).1)
     /\ P (Base.attack a t).2) ->
  forall w, Base.reachable imgs w -> P (Base.player w) /\ P (Base.enemy w).
Proof.
  intros Hp0 He0 Htick Hmove Hjump Hatt w Hw.
  induction Hw as [|w ev _ [Hp He]]; [done|].
  destruct (base_step_rel P (fun f g => P f -> P g)) with (ev := ev) (w := w);
    auto.
  intros a t Ha Ht. destruct (Hatt a t Ha Ht). auto.
Qed.

(** The same for the enhanced page, where the two fighters are driven
    differently: the player by the keys, the enemy by the controller. *)
Lemma enh_step_rel (Ip Ie : Enhanced.Fighter num -> Prop)
    (Rp Re : Enhanced.Fighter num -> Enhanced.Fighter num -> Prop) :
  (forall f, Rp f f) -> (forall f g h, Rp f g -> Rp g h -> Rp f h) ->
  (forall f, Re f f) -> (forall f g h, Re f g -> Re g h -> Re f h) ->
  (forall f, Ip f -> Rp f (Enhanced.tick f) /\ Ip (Enhanced.tick f)) ->
  (forall f, Ie f -> Re f (Enhanced.tick f) /\ Ie (Enhanced.tick f)) ->
  (forall k f, Ip f ->
     Rp f (Enhanced.movementLogic k f) /\ Ip (Enhanced.movementLogic k f)) ->
  (forall f, Ip f -> Rp f (Enhanced.jump f)) ->
  (forall f, Ip f -> Rp f (Enhanced.dodge f)) ->
  (forall now p e, Ip p -> Ie e ->
     Rp p (Enhanced.setAnimation
             (attackKey (Enhanced.lastDirection (Enhanced.attack now p e).1))
             (Enhanced.attack now p e).1)
     /\ Re e (Enhanced.attack now p e).2) ->
  (forall now attackNow random ai e p, Ie e -> Ip p ->
     let r := Enhanced.aiUpdate now attackNow random ai e p in
     Re e (Enhanced.fighter_after r)
     /\ Re e (Enhanced.setAnimation
                (idleKey (Enhanced.lastDirection (Enhanced.fighter_after r)))
                (Enhanced.fighter_after r))
     /\ Rp p (Enhanced.target_after r)) ->
  forall ev (w : Enhanced.World num),
    Ip (Enhanced.player w) -> Ie (Enhanced.enemy w) ->
    Rp (Enhanced.player w) (Enhanced.player (Enhanced.step ev w))
    /\ Re (Enhanced.enemy w) (Enhanced.enemy (Enhanced.step ev w)).
Proof.
  intros Hreflp Htransp Hrefle Htranse Htickp Hticke Hmove Hjump Hdodge
    Hatt Hai ev w Hp He.
  destruct ev as [now attackNow random|key now|key]; simpl.
  - destruct (Enhanced.frameRequested w); [|by split].
    unfold Enhanced.animate.
    destruct (Enhanced.update (Enhanced.player w) true) as [[p outp]|] eqn:Hup;
      [|by split].
    apply enh_update_ok in Hup. subst p.
    destruct (Htickp _ Hp) as [Rp1 Ip1].
    destruct (Enhanced.update (Enhanced.enemy w) false) as [[e oute]|] eqn:Hue;
      [|by split].
    apply enh_update_ok in Hue. subst e.
    destruct (Hticke _ He) as [Re1 Ie1].
    cbv zeta.
    destruct (Hmove (Enhanced.keys_player w) _ Ip1) as [Rp2 Ip2].
    destruct (Hai now attackNow random (Enhanced.enemyAI w) _ _ Ie1 Ip2)
      as (Re3 & Re4 & Rp3).
    simpl. split.
    + eapply Htransp; [exact Rp1|]. eapply Htransp; [exact Rp2|exact Rp3].
    + case_match; (eapply Htranse; [exact Re1|]); assumption.
  - unfold Enhanced.keydown. cbv zeta.
    repeat (case_match; simpl; try (split; (apply Hreflp || apply Hrefle))).
    + split; [by apply Hjump|apply Hrefle].
    + destruct (Hatt now _ _ Hp He) as [Ha Ht].
      match goal with H : Enhanced.attack _ _ _ = _ |- _ => rewrite H in * end.
      by split.
    + split; [by apply Hdodge|apply Hrefle].
  - unfold Enhanced.keyup. cbv zeta.
    repeat (case_match; simpl; try (split; (apply Hreflp || apply Hrefle))).
Qed.

Lemma enh_reachable_inv (P E : Enhanced.Fighter num -> Prop) imgs :
  P (Enhanced.player (Enhanced.initWorld imgs)) ->
  E (Enhanced.enemy (Enhanced.initWorld imgs)) ->
  (forall f, P f -> P (Enhanced.tick f)) ->
  (forall f, E f -> E (Enhanced.tick f)) ->
  (forall k f, P f -> P (Enhanced.movementLogic k f)) ->
  (forall f, P f -> P (Enhanced.jump f)) ->
  (forall f, P f -> P (Enhanced.dodge f)) ->
  (forall now p e, P p -> E e ->
     P (Enhanced.setAnimation
          (attackKey (Enhanced.lastDirection (Enhanced.attack now p e).1))
          (Enhanced.attack now p e).1)
     /\ E (Enhanced.attack now p e).2) ->
  (forall now attackNow random ai e p, E e -> P p ->
     let r := Enhanced.aiUpdate now attackNow random ai e p in
     E (Enhanced.fighter_after r)
     /\ E (Enhanced.setAnimation
             (idleKey (Enhanced.lastDirection (Enhanced.fighter_after r)))
             (Enhanced.fighter_after r))
     /\ P (Enhanced.target_after r)) ->
  forall w, Enhanced.reachable imgs w ->
    P (Enhanced.player w) /\ E (Enhanced.enemy w).
Proof.
  intros Hp0 He0 Htickp Hticke Hmove Hjump Hdodge Hatt Hai w Hw.
  induction Hw as [|w ev _ [Hp He]]; [done|].
  destruct (enh_step_rel P E (fun f g => P f -> P g) (fun f g => E f -> E g))
    with (ev := ev) (w := w); auto.
  - intros now p e Hp' He'. destruct (Hatt now p e Hp' He'). auto.
  - intros now attackNow random ai e p He' Hp'.
    destruct (Hai now attackNow random ai e p He' Hp') as (? & ? & ?).
    auto.
Qed.

End Principles.

(** ** The timers over the reachable states *)

Section Timers.
Context {num : Type} `{!JSNum num}.

Local Ltac fields := repeat case_match; by split_and!.

Lemma base_steered_refl (f : Base.Fighter num) : base_steered f f.
Proof. by split_and!. Qed.

Lemma base_steered_trans (f g h : Base.Fighter num) :
  base_steered f g -> base_steered g h -> base_steered f h.
Proof. unfold base_steered. intros. destruct_and!. by split_and!; etrans. Qed.

Lemma enh_steered_refl (f : Enhanced.Fighter num) : enh_steered f f.
Proof. by split_and!. Qed.

Lemma enh_steered_trans (f g h : Enhanced.Fighter num) :
  enh_steered f g -> enh_steered g h -> enh_steered f h.
Proof. unfold enh_steered. intros. destruct_and!. by split_and!; etrans. Qed.

Lemma base_setAnimation_steered key (f : Base.Fighter num) :
  base_steered f (Base.setAnimation key f).
Proof. unfold Base.setAnimation. fields. Qed.

Lemma base_movementLogic_steered k (f : Base.Fighter num) :
  base_steered f (Base.movementLogic k f).
Proof.
  unfold Base.movementLogic, Base.setAnimation, Base.setVelocityX. fields.
Qed.

Lemma base_jump_steered (f : Base.Fighter num) : base_steered f (Base.jump f).
Proof. unfold Base.jump, Base.setAnimation, Base.setVelocityY. fields. Qed.

Lemma enh_setAnimation_steered key (f : Enhanced.Fighter num) :
  enh_steered f (Enhanced.setAnimation key f).
Proof. unfold Enhanced.setAnimation. fields. Qed.

Lemma enh_movementLogic_steered k (f : Enhanced.Fighter num) :
  enh_steered f (Enhanced.movementLogic k f).
Proof.
  unfold Enhanced.movementLogic, Enhanced.setAnimation,
    Enhanced.setVelocityX.
  fields.
Qed.

Lemma enh_jump_steered (f : Enhanced.Fighter num) :
  enh_steered f (Enhanced.jump f).
Proof.
  unfold Enhanced.jump, Enhanced.setAnimation, Enhanced.setVelocityY. fields.
Qed.

Lemma enh_setVelocityX_steered v (f : Enhanced.Fighter num) :
  enh_steered f (Enhanced.setVelocityX v f).
Proof. by split_and!. Qed.

Lemma enh_setVelocityY_steered v (f : Enhanced.Fighter num) :
  enh_steered f (Enhanced.setVelocityY v f).
Proof. by split_and!. Qed.

Lemma enh_set_lastDirection_steered d (f : Enhanced.Fighter num) :
  enh_steered f (Enhanced.set_lastDirection d f).
Proof. by split_and!. Qed.

(** In its movement branch the controller only steers its fighter and
    leaves the target alone. *)
Lemma enh_moveBranch_steered now random d dx adx drawn ai
    (fighter target : Enhanced.Fighter num) :
  let r := Enhanced.moveBranch now random d dx adx drawn ai fighter target in
  enh_steered fighter (Enhanced.fighter_after r)
  /\ Enhanced.target_after r = target.
Proof.
  unfold Enhanced.moveBranch. cbv zeta.
  match goal with
  | |- context [Enhanced.set_lastDirection d ?g] =>
      assert (Hg : enh_steered fighter (Enhanced.set_lastDirection d g))
  end.
  { match goal with
    | |- enh_steered _
           (Enhanced.set_lastDirection d (Enhanced.setAnimation ?K ?F)) =>
        assert (HF : enh_steered fighter F)
          by (unfold Enhanced.setVelocityX, Enhanced.setVelocityY; fields);
        eapply enh_steered_trans; [exact HF|];
        eapply enh_steered_trans; [apply (enh_setAnimation_steered K F)|];
        apply enh_set_lastDirection_steered
    end. }
  match type of Hg with
  | enh_steered _ ?g => generalize dependent g
  end.
  intros g Hg.
  repeat case_match; simpl; (split; [|done]); try exact Hg.
  all: eapply enh_steered_trans; [exact Hg|].
  all: eapply enh_steered_trans; [|apply enh_setAnimation_steered].
  all: eapply enh_steered_trans;
    [apply enh_setVelocityY_steered|apply enh_setVelocityX_steered].
Qed.

Lemma enh_steered_combat (f g : Enhanced.Fighter num) :
  enh_steered f g ->
  enh_combat_kept f g /\ Enhanced.comboCount g = Enhanced.comboCount f.
Proof. unfold enh_steered. intros. destruct_and!. by split_and!. Qed.

Lemma enh_ensureAnimation_combat key (f : Enhanced.Fighter num) :
  enh_combat_kept f (Enhanced.ensureAnimation key f).
Proof. unfold Enhanced.ensureAnimation. fields. Qed.

Lemma base_timersOk_kept (f g : Base.Fighter num) :
  base_steered f g -> base_timersOk f -> base_timersOk g.
Proof.
  unfold base_steered, base_timersOk.
  intros (_ & _ & _ & _ & _ & _ & _ & _ & -> & -> & _). done.
Qed.

Lemma enh_timersOk_kept (f g : Enhanced.Fighter num) :
  enh_combat_kept f g -> Enhanced.comboCount g = Enhanced.comboCount f ->
  enh_timersOk f -> enh_timersOk g.
Proof.
  unfold enh_combat_kept, enh_timersOk.
  intros (-> & -> & -> & -> & -> & _) ->. done.
Qed.

Lemma enh_timersOk_steered (f g : Enhanced.Fighter num) :
  enh_steered f g -> enh_timersOk f -> enh_timersOk g.
Proof.
  intros Hs. destruct (enh_steered_combat f g Hs). by apply enh_timersOk_kept.
Qed.

(** *** One tick *)

Lemma base_timersOk_tick (f : Base.Fighter num) :
  base_timersOk f -> base_timersOk (Base.tick f).
Proof.
  intros [Hcd Hflag]. unfold base_timersOk.
  destruct (base_tick_cooldown f) as [-> ->].
  destruct (Z.gtb_spec (Base.attackCooldown f) 0); split; try lia.
  intros _. apply Hflag. lia.
Qed.

Lemma enh_cooldownsTick_dodge (g : Enhanced.Fighter num) :
  Enhanced.dodgeCooldown (Enhanced.cooldownsTick g)
  = (if Enhanced.dodgeCooldown g >? 0 then Enhanced.dodgeCooldown g - 1
     else Enhanced.dodgeCooldown g)
  /\ Enhanced.dodgeDuration (Enhanced.cooldownsTick g)
     = Enhanced.dodgeDuration g
  /\ Enhanced.isDodging (Enhanced.cooldownsTick g) = Enhanced.isDodging g.
Proof.
  unfold Enhanced.cooldownsTick. cbv zeta.
  destruct (Enhanced.attackCooldown g >? 0); simpl;
    destruct (Enhanced.dodgeCooldown g >? 0); by split_and!.
Qed.

Lemma enh_resetAttackState_dodge (g : Enhanced.Fighter num) :
  Enhanced.dodgeCooldown (Enhanced.resetAttackState g)
  = Enhanced.dodgeCooldown g
  /\ Enhanced.dodgeDuration (Enhanced.resetAttackState g)
     = Enhanced.dodgeDuration g
  /\ Enhanced.isDodging (Enhanced.resetAttackState g) = Enhanced.isDodging g.
Proof. unfold Enhanced.resetAttackState. by case_match. Qed.

Lemma enh_dodgeTick_dodge (g : Enhanced.Fighter num) :
  let ends :=
    (Enhanced.isDodging g && (Enhanced.dodgeDuration g - 1 <=? 0))%bool in
  Enhanced.isDodging (Enhanced.dodgeTick g)
  = (Enhanced.isDodging g && negb (Enhanced.dodgeDuration g - 1 <=? 0))%bool
  /\ Enhanced.dodgeDuration (Enhanced.dodgeTick g)
     = (if Enhanced.isDodging g then Enhanced.dodgeDuration g - 1
        else Enhanced.dodgeDuration g)
  /\ Enhanced.dodgeCooldown (Enhanced.dodgeTick g)
     = (if ends then 45 else Enhanced.dodgeCooldown g)
  /\ (ends = true ->
      x (Enhanced.velocity (Enhanced.dodgeTick g)) = ofZ 0
      /\ Enhanced.currentAnimation (Enhanced.dodgeTick g)
         = idleKey (Enhanced.lastDirection g))
  /\ (ends = false ->
      Enhanced.velocity (Enhanced.dodgeTick g) = Enhanced.velocity g
      /\ Enhanced.currentAnimation (Enhanced.dodgeTick g)
         = Enhanced.currentAnimation g).
Proof.
  unfold Enhanced.dodgeTick, Enhanced.setAnimation, Enhanced.setVelocityX.
  destruct (Enhanced.isDodging g) eqn:E; [|by split_and!].
  cbv zeta. simpl.
  destruct (Enhanced.dodgeDuration g - 1 <=? 0) eqn:E'; simpl;
    [|by split_and!].
  case_match; simpl; by split_and!.
Qed.

(** The dodge bookkeeping of one tick. *)
Lemma enh_tick_dodge (f : Enhanced.Fighter num) :
  let ends :=
    (Enhanced.isDodging f && (Enhanced.dodgeDuration f - 1 <=? 0))%bool in
  Enhanced.isDodging (Enhanced.tick f)
  = (Enhanced.isDodging f && negb (Enhanced.dodgeDuration f - 1 <=? 0))%bool
  /\ Enhanced.dodgeDuration (Enhanced.tick f)
     = (if Enhanced.isDodging f then Enhanced.dodgeDuration f - 1
        else Enhanced.dodgeDuration f)
  /\ Enhanced.dodgeCooldown (Enhanced.tick f)
     = (if ends then 45
        else if Enhanced.dodgeCooldown f >? 0
             then Enhanced.dodgeCooldown f - 1
             else Enhanced.dodgeCooldown f).
Proof.
  change (Enhanced.tick f)
    with (Enhanced.dodgeTick
            (Enhanced.resetAttackState
               (Enhanced.cooldownsTick (enh_physics f)))).
  destruct (enh_physics_combat f) as (_ & _ & Hdg & Hdc & Hdd & _).
  destruct (enh_dodgeTick_dodge
              (Enhanced.resetAttackState
                 (Enhanced.cooldownsTick (enh_physics f))))
    as (-> & -> & -> & _).
  destruct (enh_resetAttackState_dodge
              (Enhanced.cooldownsTick (enh_physics f)))
    as (-> & -> & ->).
  destruct (enh_cooldownsTick_dodge (enh_physics f)) as (-> & -> & ->).
  by rewrite Hdg, Hdc, Hdd.
Qed.

Lemma enh_timersOk_tick (f : Enhanced.Fighter num) :
  enh_timersOk f -> enh_timersOk (Enhanced.tick f).
Proof.
  intros (Hcd & Hflag & Hdc & Hcc & Hdodge). unfold enh_timersOk.
  destruct (enh_tick_cooldown f) as (Ecd & Eatt & _).
  destruct (enh_tick_dodge f) as (Edg & Edd & Edc).
  destruct (enh_tick_kept f) as (_ & _ & _ & _ & _ & _ & _ & Ecc & _).
  rewrite Ecd, Eatt, Edg, Edd, Edc, Ecc. clear Ecd Eatt Edg Edd Edc Ecc.
  assert (Hcases :
    (Enhanced.isAttacking f = true /\ 0 < Enhanced.attackCooldown f
     /\ Enhanced.isDodging f = false)
    \/ (Enhanced.isAttacking f = false /\ Enhanced.attackCooldown f = 0
        /\ Enhanced.isDodging f = false)
    \/ (Enhanced.isAttacking f = false /\ Enhanced.attackCooldown f = 0
        /\ Enhanced.isDodging f = true
        /\ 1 <= Enhanced.dodgeDuration f <= 15
        /\ Enhanced.dodgeCooldown f = 0)).
  { destruct (Enhanced.isAttacking f) eqn:Hatt.
    - left. split; [done|]. split; [by apply Hflag|].
      destruct (Enhanced.isDodging f); [|done].
      by destruct Hdodge as (_ & _ & ?).
    - assert (Enhanced.attackCooldown f = 0).
      { destruct (Z.lt_ge_cases 0 (Enhanced.attackCooldown f)) as [Hlt|?];
          [|lia].
        apply Hflag in Hlt. congruence. }
      destruct (Enhanced.isDodging f); [|by right; left].
      right. right. destruct Hdodge as (? & ? & _); [done|].
      split_and!; first [done|lia]. }
  clear Hflag Hdodge.
  destruct Hcases as [(-> & Hpos & ->)|[(-> & -> & ->)|(-> & -> & -> & Hdd & ->)]];
    simpl;
    repeat match goal with
           | |- context [Z.gtb ?a ?b] => destruct (Z.gtb_spec a b)
           | |- context [Z.leb ?a ?b] => destruct (Z.leb_spec a b)
           end; simpl; try lia;
    split_and!; try lia; try done;
    try (split; intros; first [lia|done]);
    try (intros; split_and!; first [lia|done]).
Qed.

(** *** The handlers *)

Lemma enh_timersOk_dodge (f : Enhanced.Fighter num) :
  enh_timersOk f -> enh_timersOk (Enhanced.dodge f).
Proof.
  intros Hf. unfold Enhanced.dodge.
  destruct ((Enhanced.dodgeCooldown f <=? 0) && negb (Enhanced.isAttacking f))
    eqn:Hc; [|done].
  apply andb_true_iff in Hc as [Hdc Hna].
  apply Z.leb_le in Hdc. apply negb_true_iff in Hna.
  cbv zeta.
  eapply enh_timersOk_steered; [apply enh_setAnimation_steered|].
  destruct Hf as (Hcd & Hflag & Hdc' & Hcc & Hdodge).
  unfold enh_timersOk. simpl. split_and!; try done; try lia.
  intros _. split_and!; first [lia|done].
Qed.

Lemma base_timersOk_attack (a t : Base.Fighter num) :
  base_timersOk a -> base_timersOk t ->
  base_timersOk (Base.attack a t).1 /\ base_timersOk (Base.attack a t).2.
Proof.
  intros Ha Ht.
  destruct (Z.lt_ge_cases 0 (Base.attackCooldown a)) as [Hcd|Hcd].
  - by rewrite (base_attack_blocked a t Hcd).
  - rewrite (base_attack_ready a t Hcd). simpl. split.
    + unfold base_timersOk. simpl. split; [lia|done].
    + by destruct (Base.hits (ofZ 100) a t).
Qed.

Lemma enh_timersOk_attack now (a t : Enhanced.Fighter num) :
  enh_timersOk a -> enh_timersOk t ->
  enh_timersOk (Enhanced.attack now a t).1
  /\ enh_timersOk (Enhanced.attack now a t).2.
Proof.
  intros Ha Ht.
  destruct (Z.lt_ge_cases 0 (Enhanced.attackCooldown a)) as [Hcd|Hcd];
    [|destruct (Enhanced.isDodging a) eqn:Hdodge].
  - by rewrite (enh_attack_blocked now a t (or_introl Hcd)).
  - by rewrite (enh_attack_blocked now a t (or_intror Hdodge)).
  - rewrite (enh_attack_ready now a t (conj Hcd Hdodge)). simpl. split.
    + destruct Ha as (Hcda & Hflag & Hdc & Hcc & _).
      pose proof (nextCombo_range now a ltac:(lia)).
      unfold enh_timersOk. simpl. rewrite Hdodge.
      split_and!; try lia; try done.
    + by destruct (Enhanced.hits (ofZ 120) a t).
Qed.

Lemma enh_timersOk_aiUpdate now attackNow random ai
    (fighter target : Enhanced.Fighter num) :
  enh_timersOk fighter -> enh_timersOk target ->
  let r := Enhanced.aiUpdate now attackNow random ai fighter target in
  enh_timersOk (Enhanced.fighter_after r)
  /\ enh_timersOk (Enhanced.target_after r).
Proof.
  intros Hf Ht. unfold Enhanced.aiUpdate.
  destruct (now <? Enhanced.nextActionTime ai); [done|]. cbv zeta.
  match goal with |- context [if ?c then _ else _] => destruct c end.
  - unfold Enhanced.attackBranch.
    set (k := "attack" +:+ dirString _).
    set (f1 := Enhanced.ensureAnimation k (Enhanced.setAnimation k fighter)).
    assert (Hf1 : enh_timersOk f1).
    { eapply enh_timersOk_kept;
        [apply enh_ensureAnimation_combat
        |apply enh_ensureAnimation_body|].
      by eapply enh_timersOk_steered; [apply enh_setAnimation_steered|]. }
    destruct (enh_timersOk_attack attackNow f1 target Hf1 Ht) as [Ha' Ht'].
    destruct (Enhanced.attack attackNow f1 target) as [f2 t2]. simpl in *.
    split; [|done].
    by eapply enh_timersOk_steered; [apply enh_setVelocityX_steered|].
  - match goal with
    | |- context [Enhanced.moveBranch ?a ?b ?c ?d ?e ?g ?h ?i ?j] =>
        destruct (enh_moveBranch_steered a b c d e g h i j) as [Hb ->]
    end.
    split; [|done]. by eapply enh_timersOk_steered.
Qed.

(** X3. In every state the base page can reach, each fighter's attack
    cooldown lies between 0 and 120 and [isAttacking] is set whenever
    the cooldown is running. *)
Theorem base_timers_invariant imgs (w : Base.World num) :
  Base.reachable imgs w ->
  base_timersOk (Base.player w) /\ base_timersOk (Base.enemy w).
Proof.
  apply (base_reachable_inv base_timersOk).
  - by split.
  - by split.
  - apply base_timersOk_tick.
  - intros k f. apply base_timersOk_kept, base_movementLogic_steered.
  - intros f. apply base_timersOk_kept, base_jump_steered.
  - intros a t Ha Ht. destruct (base_timersOk_attack a t Ha Ht) as [Ha' Ht'].
    split; [|done].
    by eapply base_timersOk_kept; [apply base_setAnimation_steered|].
Qed.

(** X4. In every state the enhanced page can reach, for each fighter:
    the attack cooldown lies between 0 and 30 and [isAttacking] is set
    exactly while it is running; the dodge cooldown lies between 0 and
    45; the combo counter is 0, 1 or 2; and a dodging fighter has 1 to
    15 updates of dodge left, no dodge cooldown, and is not attacking. *)
Theorem enh_timers_invariant imgs (w : Enhanced.World num) :
  Enhanced.reachable imgs w ->
  enh_timersOk (Enhanced.player w) /\ enh_timersOk (Enhanced.enemy w).
Proof.
  apply (enh_reachable_inv enh_timersOk enh_timersOk).
  - unfold Enhanced.initWorld, Enhanced.resetGame. simpl.
    eapply enh_timersOk_steered; [apply enh_setAnimation_steered|].
    unfold enh_timersOk. simpl. split_and!; try lia; try done.
  - unfold Enhanced.initWorld, Enhanced.resetGame. simpl.
    eapply enh_timersOk_steered; [apply enh_setAnimation_steered|].
    unfold enh_timersOk. simpl. split_and!; try lia; try done.
  - apply enh_timersOk_tick.
  - apply enh_timersOk_tick.
  - intros k f. apply enh_timersOk_steered, enh_movementLogic_steered.
  - intros f. apply enh_timersOk_steered, enh_jump_steered.
  - apply enh_timersOk_dodge.
  - intros now p e Hp He.
    destruct (enh_timersOk_attack now p e Hp He) as [Ha' Ht'].
    split; [|done].
    by eapply enh_timersOk_steered; [apply enh_setAnimation_steered|].
  - intros now attackNow random ai e p He Hp.
    destruct (enh_timersOk_aiUpdate now attackNow random ai e p He Hp)
      as [Hf Ht].
    split_and!; try done.
    by eapply enh_timersOk_steered; [apply enh_setAnimation_steered|].
Qed.

End Timers.

(** ** Runs of updates: how long an attack and a dodge last *)

Section Countdown.
Context {num : Type} `{!JSNum num}.

Lemma base_updates_ticks (n : nat) :
  forall f f' : Base.Fighter num,
    base_updates n f = Ok f' -> f' = base_ticks n f.
Proof.
  induction n as [|n IH]; intros f f' H; simpl in H.
  - by injection H as <-.
  - destruct (Base.update f false) as [[f1 out]|] eqn:Hu; [|done].
    apply base_update_ok in Hu. subst f1.
    rewrite (IH _ _ H). unfold base_ticks. by rewrite Nat.iter_succ_r.
Qed.

Lemma enh_updates_ticks (n : nat) :
  forall f f' : Enhanced.Fighter num,
    enh_updates n f = Ok f' -> f' = enh_ticks n f.
Proof.
  induction n as [|n IH]; intros f f' H; simpl in H.
  - by injection H as <-.
  - destruct (Enhanced.update f false) as [[f1 out]|] eqn:Hu; [|done].
    apply enh_update_ok in Hu. subst f1.
    rewrite (IH _ _ H). unfold enh_ticks. by rewrite Nat.iter_succ_r.
Qed.

Lemma enh_ticks_add (n m : nat) (f : Enhanced.Fighter num) :
  enh_ticks (n + m) f = enh_ticks n (enh_ticks m f).
Proof. unfold enh_ticks. by rewrite Nat.iter_add. Qed.

(** The base cooldown runs down by one per update and stops at zero;
    the flag outlives it by one update. *)
Lemma base_ticks_cooldown (n : nat) (f : Base.Fighter num) :
  0 <= Base.attackCooldown f ->
  Base.attackCooldown (base_ticks n f)
  = Z.max 0 (Base.attackCooldown f - Z.of_nat n)
  /\ Base.isAttacking (base_ticks n f)
     = (if Z.of_nat n <=? Base.attackCooldown f then Base.isAttacking f
        else false).
Proof.
  intros Hcd. induction n as [|n [IHcd IHatt]].
  - change (base_ticks 0 f) with f. change (Z.of_nat 0) with 0.
    split; [lia|]. destruct (Z.leb_spec 0 (Base.attackCooldown f)); [done|lia].
  - change (base_ticks (S n) f) with (Base.tick (base_ticks n f)).
    destruct (base_tick_cooldown (base_ticks n f)) as [-> ->].
    rewrite IHcd, IHatt.
    destruct (Z.gtb_spec (Z.max 0 (Base.attackCooldown f - Z.of_nat n)) 0);
      destruct (Z.leb_spec (Z.of_nat n) (Base.attackCooldown f));
      destruct (Z.leb_spec (Z.of_nat (S n)) (Base.attackCooldown f));
      try lia; split; try done; lia.
Qed.

(** The enhanced cooldown, for a fighter whose attack is running. *)
Lemma enh_ticks_cooldown (n : nat) (f : Enhanced.Fighter num) :
  Enhanced.isDodging f = false ->
  Enhanced.isAttacking f = true ->
  0 < Enhanced.attackCooldown f ->
  Enhanced.attackCooldown (enh_ticks n f)
  = Z.max 0 (Enhanced.attackCooldown f - Z.of_nat n)
  /\ Enhanced.isAttacking (enh_ticks n f)
     = (Z.of_nat n <? Enhanced.attackCooldown f)
  /\ Enhanced.isDodging (enh_ticks n f) = false
  /\ (Enhanced.attackCooldown f <= Z.of_nat n ->
      Enhanced.canCombo (enh_ticks n f) = true).
Proof.
  intros Hdg Hatt Hcd. induction n as [|n (IHcd & IHatt & IHdg & IHcc)].
  - change (enh_ticks 0 f) with f. change (Z.of_nat 0) with 0.
    split_and!; [lia| |done|lia].
    rewrite Hatt. symmetry. apply Z.ltb_lt. lia.
  - change (enh_ticks (S n) f) with (Enhanced.tick (enh_ticks n f)).
    destruct (enh_tick_cooldown (enh_ticks n f)) as (-> & -> & -> & Hd).
    rewrite IHcd, IHatt.
    split_and!; [| | by apply Hd|].
    + destruct (Z.gtb_spec (Z.max 0 (Enhanced.attackCooldown f - Z.of_nat n))
                  0); lia.
    + destruct (Z.gtb_spec (Z.max 0 (Enhanced.attackCooldown f - Z.of_nat n))
                  0);
        destruct (Z.ltb_spec (Z.of_nat n) (Enhanced.attackCooldown f));
        destruct (Z.ltb_spec (Z.of_nat (S n)) (Enhanced.attackCooldown f));
        try lia; simpl; try done.
      all: match goal with
           | |- context [Z.leb ?a ?b] => destruct (Z.leb_spec a b)
           end; try done; lia.
    + intros Hn.
      destruct (Z.gtb_spec (Z.max 0 (Enhanced.attackCooldown f - Z.of_nat n))
                  0);
        destruct (Z.ltb_spec (Z.of_nat n) (Enhanced.attackCooldown f));
        try lia; simpl.
      * match goal with
        | |- context [Z.leb ?a ?b] => destruct (Z.leb_spec a b)
        end; [done|lia].
      * rewrite andb_false_r. apply IHcc. lia.
Qed.

(** X5. In the base variant an attack that goes through blocks the
    attacker for exactly 120 updates: after [n] updates the cooldown is
    [120 - n], or 0 from the 120th on; every call of [attack] during the
    first 119 does nothing at all, and from the 120th on a call goes
    through again.  The [isAttacking] flag stays up for 121 updates. *)
Theorem base_attack_blocks_for_120_updates :
  forall (a t a' : Base.Fighter num) (n : nat),
    Base.attackCooldown a <= 0 ->
    base_updates n (Base.attack a t).1 = Ok a' ->
    Base.attackCooldown a' = Z.max 0 (120 - Z.of_nat n)
    /\ Base.isAttacking a' = (Z.of_nat n <=? 120)
    /\ (forall t', (n < 120)%nat -> Base.attack a' t' = (a', t'))
    /\ (forall t', (120 <= n)%nat ->
          (Base.attack a' t').1
          = Base.set_attackCooldown 120 (Base.set_isAttacking true a')).
Proof.
  intros a t a' n Hready Hrun.
  apply base_updates_ticks in Hrun. subst a'.
  rewrite (base_attack_ready a t Hready). simpl.
  set (a1 := Base.set_attackCooldown 120 (Base.set_isAttacking true a)).
  destruct (base_ticks_cooldown n a1) as [Ecd Eatt]; [simpl; lia|].
  simpl in Ecd, Eatt. split_and!; [done|by rewrite Eatt; case_match| |].
  - intros t' Hn. apply base_attack_blocked. rewrite Ecd. lia.
  - intros t' Hn. rewrite base_attack_ready; [done|]. rewrite Ecd. lia.
Qed.

(** X6. In the enhanced variant an attack that goes through sets a
    cooldown [c] of 30, 25 or 20 updates by the combo step; after [n]
    updates the cooldown is [c - n], or 0 from the c-th on, and
    [isAttacking] is set exactly during the first [c - 1]; every call
    of [attack] before the c-th update does nothing, and at the c-th
    the fighter is eligible again with the combo window open. *)
Theorem enh_attack_blocks_for_its_cooldown :
  forall (now : Z) (a t a' : Enhanced.Fighter num) (n : nat),
    eligible a ->
    0 <= Enhanced.comboCount a ->
    let c := Enhanced.attackCooldown (Enhanced.attack now a t).1 in
    enh_updates n (Enhanced.attack now a t).1 = Ok a' ->
    (c = 30 \/ c = 25 \/ c = 20)
    /\ Enhanced.attackCooldown a' = Z.max 0 (c - Z.of_nat n)
    /\ Enhanced.isAttacking a' = (Z.of_nat n <? c)
    /\ (forall now' t', Z.of_nat n < c ->
          Enhanced.attack now' a' t' = (a', t'))
    /\ (c <= Z.of_nat n -> eligible a' /\ Enhanced.canCombo a' = true).
Proof.
  intros now a t a' n Hready Hcombo c Hrun.
  apply enh_updates_ticks in Hrun. subst a'. subst c.
  rewrite (enh_attack_ready now a t Hready). simpl.
  pose proof (nextCombo_range now a Hcombo) as Hrange.
  destruct (enh_ticks_cooldown n (struck now a))
    as (Ecd & Eatt & Edg & Ecc); [by destruct Hready|done|simpl; lia|].
  simpl in Ecd, Eatt, Ecc. split_and!; [lia|done|done| |].
  - intros now' t' Hn. apply enh_attack_blocked. left. rewrite Ecd. lia.
  - intros Hn. split; [split; [rewrite Ecd; lia|done]|by apply Ecc].
Qed.

(** *** The dodge *)

Lemma enh_tick_dodge_end (f : Enhanced.Fighter num) :
  Enhanced.isDodging f = true ->
  Enhanced.dodgeDuration f - 1 <= 0 ->
  x (Enhanced.velocity (Enhanced.tick f)) = ofZ 0
  /\ Enhanced.currentAnimation (Enhanced.tick f)
     = idleKey (Enhanced.lastDirection f).
Proof.
  intros Hdg Hdd.
  change (Enhanced.tick f)
    with (Enhanced.dodgeTick
            (Enhanced.resetAttackState
               (Enhanced.cooldownsTick (enh_physics f)))).
  set (g := Enhanced.resetAttackState
              (Enhanced.cooldownsTick (enh_physics f))).
  assert (Hg : Enhanced.isDodging g = Enhanced.isDodging f
               /\ Enhanced.dodgeDuration g = Enhanced.dodgeDuration f).
  { subst g.
    destruct (enh_physics_combat f) as (_ & _ & Hdg' & _ & Hdd' & _).
    destruct (enh_resetAttackState_dodge
                (Enhanced.cooldownsTick (enh_physics f)))
      as (_ & -> & ->).
    by destruct (enh_cooldownsTick_dodge (enh_physics f)) as (_ & -> & ->). }
  assert (Hdir : Enhanced.lastDirection g = Enhanced.lastDirection f).
  { assert (Hk : enh_kept f g).
    { subst g. eapply enh_kept_trans; [|apply enh_resetAttackState_kept].
      eapply enh_kept_trans; [|apply enh_cooldownsTick_kept].
      unfold enh_physics.
      eapply enh_kept_trans; [|apply enh_groundOrGravity_kept].
      eapply enh_kept_trans; [|apply enh_screenBoundaries_kept].
      eapply enh_kept_trans; [|apply enh_integrate_kept].
      apply enh_advanceFrame_kept. }
    by destruct Hk as (_ & _ & _ & _ & _ & _ & ? & _). }
  destruct Hg as [Hg1 Hg2].
  destruct (enh_dodgeTick_dodge g) as (_ & _ & _ & Hend & _).
  rewrite Hg1, Hg2, Hdg, Hdir in Hend. simpl in Hend.
  apply Hend. apply Z.leb_le. lia.
Qed.

Lemma enh_ticks_dodging (n : nat) (f : Enhanced.Fighter num) :
  Enhanced.isDodging f = true ->
  Enhanced.dodgeCooldown f <= 0 ->
  Z.of_nat n < Enhanced.dodgeDuration f ->
  Enhanced.isDodging (enh_ticks n f) = true
  /\ Enhanced.dodgeDuration (enh_ticks n f)
     = Enhanced.dodgeDuration f - Z.of_nat n
  /\ Enhanced.dodgeCooldown (enh_ticks n f) = Enhanced.dodgeCooldown f.
Proof.
  intros Hdg Hdc. induction n as [|n IH]; intros Hn.
  - change (enh_ticks 0 f) with f. change (Z.of_nat 0) with 0.
    split_and!; [done|lia|done].
  - destruct IH as (IHdg & IHdd & IHdc); [lia|].
    change (enh_ticks (S n) f) with (Enhanced.tick (enh_ticks n f)).
    destruct (enh_tick_dodge (enh_ticks n f)) as (-> & -> & ->).
    rewrite IHdg, IHdd, IHdc. simpl.
    destruct (Z.leb_spec (Enhanced.dodgeDuration f - Z.of_nat n - 1) 0);
      [lia|]. simpl.
    destruct (Z.gtb_spec (Enhanced.dodgeCooldown f) 0); [lia|].
    split_and!; [done|lia|done].
Qed.

Lemma enh_ticks_dodgeCooldown (n : nat) (f : Enhanced.Fighter num) :
  Enhanced.isDodging f = false ->
  0 <= Enhanced.dodgeCooldown f ->
  Enhanced.isDodging (enh_ticks n f) = false
  /\ Enhanced.dodgeCooldown (enh_ticks n f)
     = Z.max 0 (Enhanced.dodgeCooldown f - Z.of_nat n).
Proof.
  intros Hdg Hdc. induction n as [|n [IHdg IHdc]].
  - change (enh_ticks 0 f) with f. change (Z.of_nat 0) with 0.
    split; [done|lia].
  - change (enh_ticks (S n) f) with (Enhanced.tick (enh_ticks n f)).
    destruct (enh_tick_dodge (enh_ticks n f)) as (-> & _ & ->).
    rewrite IHdg, IHdc. simpl. split; [done|].
    destruct (Z.gtb_spec (Z.max 0 (Enhanced.dodgeCooldown f - Z.of_nat n)) 0);
      lia.
Qed.

Lemma enh_ticks_notAttacking (n : nat) (f : Enhanced.Fighter num) :
  Enhanced.isAttacking f = false ->
  Enhanced.isAttacking (enh_ticks n f) = false.
Proof.
  intros Hatt. induction n as [|n IH]; [done|].
  change (enh_ticks (S n) f) with (Enhanced.tick (enh_ticks n f)).
  destruct (enh_tick_cooldown (enh_ticks n f)) as (_ & -> & _).
  rewrite IH. by case_match.
Qed.

Lemma enh_ticks_lastDirection (n : nat) (f : Enhanced.Fighter num) :
  Enhanced.lastDirection (enh_ticks n f) = Enhanced.lastDirection f.
Proof.
  induction n as [|n IH]; [done|].
  change (enh_ticks (S n) f) with (Enhanced.tick (enh_ticks n f)).
  destruct (enh_tick_kept (enh_ticks n f))
    as (_ & _ & _ & _ & _ & _ & -> & _).
  exact IH.
Qed.

(** X7. A dodge that starts (no dodge cooldown, not attacking) lasts
    15 updates: during the first 14 the fighter is dodging, cannot
    attack, and a further press of the dodge key restarts the count at
    15; the 15th update ends the dodge, stops the fighter and shows the
    idle animation of its facing; the dodge key then does nothing for
    45 more updates and works again from the 60th on. *)
Theorem dodge_lasts_15_updates_then_45_of_cooldown :
  forall (f f' : Enhanced.Fighter num) (n : nat),
    Enhanced.dodgeCooldown f <= 0 ->
    Enhanced.isAttacking f = false ->
    enh_updates n (Enhanced.dodge f) = Ok f' ->
    ((n < 15)%nat ->
       Enhanced.isDodging f' = true
       /\ Enhanced.dodgeDuration f' = 15 - Z.of_nat n
       /\ (forall now t, Enhanced.attack now f' t = (f', t))
       /\ Enhanced.dodgeDuration (Enhanced.dodge f') = 15)
    /\ (n = 15%nat ->
          x (Enhanced.velocity f') = ofZ 0
          /\ Enhanced.currentAnimation f'
             = idleKey (Enhanced.lastDirection f))
    /\ ((15 <= n)%nat ->
          Enhanced.isDodging f' = false
          /\ Enhanced.dodgeCooldown f' = Z.max 0 (60 - Z.of_nat n))
    /\ ((15 <= n < 60)%nat -> Enhanced.dodge f' = f')
    /\ ((60 <= n)%nat -> Enhanced.isDodging (Enhanced.dodge f') = true).
Proof.
  intros f f' n Hdc Hatt Hrun.
  apply enh_updates_ticks in Hrun. subst f'.
  assert (Hd : Enhanced.dodge f
               = Enhanced.setAnimation (runKey (Enhanced.lastDirection f))
                   (Enhanced.setVelocityX
                      (if isRight (Enhanced.lastDirection f)
                       then Enhanced.dodgeSpeed f
                       else nopp (Enhanced.dodgeSpeed f))
                      (Enhanced.set_dodgeDuration 15
                         (Enhanced.set_isDodging true f)))).
  { unfold Enhanced.dodge.
    rewrite (proj2 (Z.leb_le _ _) Hdc), Hatt. reflexivity. }
  set (d := Enhanced.dodge f) in *.
  assert (Hfields : Enhanced.isDodging d = true
                    /\ Enhanced.dodgeDuration d = 15
                    /\ Enhanced.dodgeCooldown d = Enhanced.dodgeCooldown f
                    /\ Enhanced.isAttacking d = false
                    /\ Enhanced.lastDirection d = Enhanced.lastDirection f).
  { rewrite Hd. unfold Enhanced.setAnimation. repeat case_match; simpl; by split_and!. }
  clearbody d. clear Hd.
  destruct Hfields as (Hdg & Hdd & Hdc' & Hatt' & Hdir).
  pose proof (enh_ticks_notAttacking n d Hatt') as Hna.
  assert (Hduring : forall m, (m < 15)%nat ->
            Enhanced.isDodging (enh_ticks m d) = true
            /\ Enhanced.dodgeDuration (enh_ticks m d) = 15 - Z.of_nat m
            /\ Enhanced.dodgeCooldown (enh_ticks m d) <= 0).
  { intros m Hm.
    destruct (enh_ticks_dodging m d) as (? & ? & ?); [done|lia|lia|].
    split_and!; [done|lia|lia]. }
  assert (Hend : Enhanced.isDodging (enh_ticks 15 d) = false
                 /\ Enhanced.dodgeCooldown (enh_ticks 15 d) = 45
                 /\ x (Enhanced.velocity (enh_ticks 15 d)) = ofZ 0
                 /\ Enhanced.currentAnimation (enh_ticks 15 d)
                    = idleKey (Enhanced.lastDirection f)).
  { destruct (Hduring 14%nat) as (H1 & H2 & H3); [lia|].
    change (enh_ticks 15 d) with (Enhanced.tick (enh_ticks 14 d)).
    destruct (enh_tick_dodge (enh_ticks 14 d)) as (-> & _ & ->).
    destruct (enh_tick_dodge_end (enh_ticks 14 d)) as [-> ->];
      [done|rewrite H2; lia|].
    rewrite H1, H2, enh_ticks_lastDirection, Hdir. by split_and!. }
  destruct Hend as (Hend1 & Hend2 & Hend3 & Hend4).
  assert (Hafter : (15 <= n)%nat ->
            Enhanced.isDodging (enh_ticks n d) = false
            /\ Enhanced.dodgeCooldown (enh_ticks n d)
               = Z.max 0 (60 - Z.of_nat n)).
  { intros Hn. replace n with ((n - 15) + 15)%nat by lia.
    rewrite enh_ticks_add.
    destruct (enh_ticks_dodgeCooldown (n - 15) (enh_ticks 15 d))
      as [-> ->]; [done|lia|].
    split; [done|]. rewrite Hend2. lia. }
  split_and!.
  - intros Hn. destruct (Hduring n Hn) as (H1 & H2 & H3).
    split_and!; [done|done| |].
    + intros now t. apply enh_attack_blocked. by right.
    + unfold Enhanced.dodge.
      rewrite (proj2 (Z.leb_le _ _) H3), Hna. simpl.
      unfold Enhanced.setAnimation. by case_match.
  - intros ->. by split.
  - exact Hafter.
  - intros Hn. destruct Hafter as [_ Hc]; [lia|].
    unfold Enhanced.dodge.
    destruct (Z.leb_spec (Enhanced.dodgeCooldown (enh_ticks n d)) 0);
      [lia|done].
  - intros Hn. destruct Hafter as [_ Hc]; [lia|].
    unfold Enhanced.dodge.
    destruct (Z.leb_spec (Enhanced.dodgeCooldown (enh_ticks n d)) 0);
      [|lia].
    rewrite Hna. simpl. unfold Enhanced.setAnimation. by case_match.
Qed.

End Countdown.

(** ** What the controller does to the two fighters, and when *)

Section Controller.
Context {num : Type} `{!JSNum num}.

Lemma enh_attack_cases now (a t : Enhanced.Fighter num) :
  Enhanced.attack now a t = (a, t)
  \/ Enhanced.attack now a t
     = (struck now a,
        if Enhanced.hits (ofZ 120) a t
        then Enhanced.set_health
               (afterHit (Enhanced.health t) (Enhanced.attackDamage a)) t
        else t).
Proof.
  destruct (Z.lt_ge_cases 0 (Enhanced.attackCooldown a)) as [Hcd|Hcd];
    [|destruct (Enhanced.isDodging a) eqn:Hdodge].
  - left. by apply enh_attack_blocked; left.
  - left. by apply enh_attack_blocked; right.
  - right. by apply enh_attack_ready.
Qed.

Lemma base_attack_cases (a t : Base.Fighter num) :
  Base.attack a t = (a, t)
  \/ Base.attack a t
     = (Base.set_attackCooldown 120 (Base.set_isAttacking true a),
        if Base.hits (ofZ 100) a t
        then Base.set_health
               (afterHit (Base.health t) (Base.attackDamage a)) t
        else t).
Proof.
  destruct (Z.lt_ge_cases 0 (Base.attackCooldown a)) as [Hcd|Hcd].
  - left. by apply base_attack_blocked.
  - right. by apply base_attack_ready.
Qed.

(** The attack branch: the fighter handed to [attack] is the
    controller's fighter but for its animation bookkeeping. *)
Lemma enh_attackBranch_effect now attackNow d drawn ai
    (fighter target : Enhanced.Fighter num) :
  let r := Enhanced.attackBranch now attackNow d drawn ai fighter target in
  Enhanced.position (Enhanced.fighter_after r) = Enhanced.position fighter
  /\ Enhanced.health (Enhanced.fighter_after r) = Enhanced.health fighter
  /\ Enhanced.lastDirection (Enhanced.fighter_after r)
     = Enhanced.lastDirection fighter
  /\ (Enhanced.target_after r = target
      \/ Enhanced.target_after r
         = Enhanced.set_health
             (afterHit (Enhanced.health target)
                       (Enhanced.attackDamage fighter)) target).
Proof.
  unfold Enhanced.attackBranch.
  set (k := "attack" +:+ dirString d).
  set (f1 := Enhanced.ensureAnimation k (Enhanced.setAnimation k fighter)).
  assert (Hbody : enh_sameBody fighter f1).
  { eapply enh_sameBody_trans;
      [apply enh_setAnimation_body | apply enh_ensureAnimation_body]. }
  assert (Hkin : enh_sameKin fighter f1).
  { eapply enh_sameKin_trans;
      [apply enh_setAnimation_kin | apply enh_ensureAnimation_kin]. }
  assert (Hdir : Enhanced.lastDirection f1 = Enhanced.lastDirection fighter).
  { subst f1. unfold Enhanced.ensureAnimation, Enhanced.setAnimation.
    by repeat case_match. }
  destruct Hbody as (Hh & _ & Hd & _), Hkin as (Hp & _).
  destruct (enh_attack_cases attackNow f1 target) as [E|E]; rewrite E;
    simpl; rewrite ?Hh, ?Hp, ?Hd, ?Hdir; split_and!; try done; try by left.
  destruct (Enhanced.hits (ofZ 120) f1 target); [by right|by left].
Qed.

Lemma enh_aiUpdate_effect now attackNow random ai
    (fighter target : Enhanced.Fighter num) :
  let r := Enhanced.aiUpdate now attackNow random ai fighter target in
  Enhanced.position (Enhanced.fighter_after r) = Enhanced.position fighter
  /\ Enhanced.health (Enhanced.fighter_after r) = Enhanced.health fighter
  /\ (Enhanced.target_after r = target
      \/ Enhanced.target_after r
         = Enhanced.set_health
             (afterHit (Enhanced.health target)
                       (Enhanced.attackDamage fighter)) target).
Proof.
  unfold Enhanced.aiUpdate.
  destruct (now <? Enhanced.nextActionTime ai);
    [by split_and!; try left|]. cbv zeta.
  match goal with |- context [if ?c then _ else _] => destruct c end.
  - match goal with
    | |- context [Enhanced.attackBranch ?a ?b ?c ?d ?e ?g ?h] =>
        destruct (enh_attackBranch_effect a b c d e g h) as (? & ? & _ & ?)
    end.
    by split_and!.
  - match goal with
    | |- context [Enhanced.moveBranch ?a ?b ?c ?d ?e ?g ?h ?i ?j] =>
        destruct (enh_moveBranch_steered a b c d e g h i j) as [Hb ->]
    end.
    destruct Hb as (? & _ & _ & _ & _ & _ & ? & _).
    split_and!; try done. by left.
Qed.

(** X8. A call of the controller's [update] never moves a fighter and
    never changes the health of its own fighter; the target it leaves
    either untouched or with its health lowered, not below zero, by the
    attack damage of the controller's fighter, all else equal. *)
Theorem ai_update_only_steers_and_strikes :
  forall (now attackNow : Z) (random : nat -> num)
         (ai : Enhanced.AIController num)
         (fighter target : Enhanced.Fighter num),
    let r := Enhanced.aiUpdate now attackNow random ai fighter target in
    Enhanced.position (Enhanced.fighter_after r) = Enhanced.position fighter
    /\ Enhanced.health (Enhanced.fighter_after r) = Enhanced.health fighter
    /\ (Enhanced.target_after r = target
        \/ Enhanced.target_after r
           = Enhanced.set_health
               (Z.max 0 (Enhanced.health target
                         - Enhanced.attackDamage fighter)) target).
Proof. intros. apply enh_aiUpdate_effect. Qed.

Lemma enh_moveBranch_gate now random d dx adx drawn ai
    (fighter target : Enhanced.Fighter num) :
  let r := Enhanced.moveBranch now random d dx adx drawn ai fighter target in
  Enhanced.ai_after r = Enhanced.set_gate (now + 100) ai
  /\ ~ In Enhanced.CallAttack (Enhanced.calls r).
Proof.
  unfold Enhanced.moveBranch. cbv zeta.
  repeat match goal with
         | |- context [Enhanced.set_lastDirection d ?g] =>
             generalize (Enhanced.set_lastDirection d g); intros ?
         end.
  repeat case_match; simpl; (split; [done|]); intros Hin;
    repeat (destruct Hin as [Hin|Hin]; [done|]); done.
Qed.

(** X9. The pacing of the controller.  Before [nextActionTime] a call
    of [update] does nothing at all.  Otherwise it either attacks, and
    will act again 50 ms later, or moves without attacking and leaves
    the target alone, and will act again 100 ms later, also when it
    jumps.  The difficulty, the state, the combo step, the attack
    patterns and the fatigue are never written. *)
Theorem ai_controller_pacing :
  forall (now attackNow : Z) (random : nat -> num)
         (ai : Enhanced.AIController num)
         (fighter target : Enhanced.Fighter num),
    let r := Enhanced.aiUpdate now attackNow random ai fighter target in
    (now < Enhanced.nextActionTime ai ->
       r = Enhanced.mkAIResult ai fighter target [] 0)
    /\ (Enhanced.nextActionTime ai <= now ->
          (Enhanced.ai_after r
           = Enhanced.set_gate (now + 50)
               (Enhanced.set_ai_attackCooldown 5 ai)
           /\ In Enhanced.CallAttack (Enhanced.calls r))
          \/ (Enhanced.ai_after r = Enhanced.set_gate (now + 100) ai
              /\ ~ In Enhanced.CallAttack (Enhanced.calls r)
              /\ Enhanced.target_after r = target))
    /\ Enhanced.difficulty (Enhanced.ai_after r) = Enhanced.difficulty ai
    /\ Enhanced.state (Enhanced.ai_after r) = Enhanced.state ai
    /\ Enhanced.comboStep (Enhanced.ai_after r) = Enhanced.comboStep ai
    /\ Enhanced.attackPatterns (Enhanced.ai_after r)
       = Enhanced.attackPatterns ai
    /\ Enhanced.fatigue (Enhanced.ai_after r) = Enhanced.fatigue ai.
Proof.
  intros now attackNow random ai fighter target r. subst r.
  unfold Enhanced.aiUpdate.
  destruct (Z.ltb_spec now (Enhanced.nextActionTime ai)) as [Hlt|Hge].
  { split_and!; try done. lia. }
  cbv zeta.
  match goal with |- context [if ?c then _ else _] => destruct c end.
  - unfold Enhanced.attackBranch.
    destruct (Enhanced.attack _ _ _) as [f2 t2]. simpl.
    split_and!; try done; [lia|]. intros _. left. split; [done|].
    right. by left.
  - match goal with
    | |- context [Enhanced.moveBranch ?a ?b ?c ?d ?e ?g ?h ?i ?j] =>
        destruct (enh_moveBranch_gate a b c d e g h i j) as [Hg Hc];
        destruct (enh_moveBranch_steered a b c d e g h i j) as [_ Ht]
    end.
    rewrite Hg. split_and!; try done; [lia|]. intros _. right.
    by split_and!.
Qed.

(** *** Health only goes down *)

Lemma base_health_step ev (w : Base.World num) :
  base_wellFormed (Base.player w) -> base_wellFormed (Base.enemy w) ->
  Base.health (Base.player (Base.step ev w)) <= Base.health (Base.player w)
  /\ Base.health (Base.enemy (Base.step ev w)) <= Base.health (Base.enemy w).
Proof.
  apply (base_step_rel base_wellFormed
           (fun f g => Base.health g <= Base.health f)).
  - intros f. lia.
  - intros f g h. lia.
  - intros f Hf. pose proof (base_tick_body f) as Hb. split.
    + destruct Hb as (-> & _). lia.
    + by eapply base_sameBody_wf.
  - intros k f _. destruct (base_movementLogic_body k f) as (-> & _). lia.
  - intros f _. destruct (base_jump_body f) as (-> & _). lia.
  - intros a t Ha Ht.
    destruct (base_setAnimation_body
                (attackKey (Base.lastDirection (Base.attack a t).1))
                (Base.attack a t).1) as (-> & _).
    destruct (base_attack_cases a t) as [E|E]; rewrite E; simpl;
      [lia|].
    split; [lia|].
    destruct (Base.hits (ofZ 100) a t); simpl; [|lia].
    apply afterHit_le; [apply Ht|apply Ha].
Qed.

Lemma enh_health_step ev (w : Enhanced.World num) :
  enh_wellFormed (Enhanced.player w) -> enh_wellFormed (Enhanced.enemy w) ->
  Enhanced.health (Enhanced.player (Enhanced.step ev w))
  <= Enhanced.health (Enhanced.player w)
  /\ Enhanced.health (Enhanced.enemy (Enhanced.step ev w))
     <= Enhanced.health (Enhanced.enemy w).
Proof.
  apply (enh_step_rel enh_wellFormed enh_wellFormed
           (fun f g => Enhanced.health g <= Enhanced.health f)
           (fun f g => Enhanced.health g <= Enhanced.health f)).
  - intros f. lia.
  - intros f g h. lia.
  - intros f. lia.
  - intros f g h. lia.
  - intros f Hf. pose proof (enh_tick_body f) as Hb. split.
    + destruct Hb as (-> & _). lia.
    + by eapply enh_sameBody_wf.
  - intros f Hf. pose proof (enh_tick_body f) as Hb. split.
    + destruct Hb as (-> & _). lia.
    + by eapply enh_sameBody_wf.
  - intros k f Hf. pose proof (enh_movementLogic_body k f) as Hb. split.
    + destruct Hb as (-> & _). lia.
    + by eapply enh_sameBody_wf.
  - intros f _. destruct (enh_jump_body f) as (-> & _). lia.
  - intros f _. destruct (enh_dodge_body f) as (-> & _). lia.
  - intros now a t Ha Ht.
    destruct (enh_setAnimation_body
                (attackKey (Enhanced.lastDirection (Enhanced.attack now a t).1))
                (Enhanced.attack now a t).1) as (-> & _).
    destruct (enh_attack_cases now a t) as [E|E]; rewrite E; simpl;
      [lia|].
    split; [lia|].
    destruct (Enhanced.hits (ofZ 120) a t); simpl; [|lia].
    apply afterHit_le; [apply Ht|apply Ha].
  - intros now attackNow random ai e p He Hp r.
    destruct (enh_aiUpdate_effect now attackNow random ai e p)
      as (_ & Hh & Ht).
    fold r in Hh, Ht.
    destruct (enh_setAnimation_body
                (idleKey (Enhanced.lastDirection (Enhanced.fighter_after r)))
                (Enhanced.fighter_after r)) as (-> & _).
    rewrite Hh. split_and!; [lia|lia|].
    destruct Ht as [->| ->]; simpl; [lia|].
    apply afterHit_le; [apply Hp|apply He].
Qed.

(** X10. No event of either page ever raises a fighter's health: from
    any reachable state, a frame, a key press or a key release leaves
    each fighter with at most the health it had. *)
Theorem health_never_increases :
  (forall imgs (w : Base.World num) ev,
      Base.reachable imgs w ->
      Base.health (Base.player (Base.step ev w))
      <= Base.health (Base.player w)
      /\ Base.health (Base.enemy (Base.step ev w))
         <= Base.health (Base.enemy w))
  /\ (forall imgs (w : Enhanced.World num) ev,
         Enhanced.reachable imgs w ->
         Enhanced.health (Enhanced.player (Enhanced.step ev w))
         <= Enhanced.health (Enhanced.player w)
         /\ Enhanced.health (Enhanced.enemy (Enhanced.step ev w))
            <= Enhanced.health (Enhanced.enemy w)).
Proof.
  split; intros imgs w ev Hw.
  - destruct (base_reachable_wf imgs w Hw). by apply base_health_step.
  - destruct (enh_reachable_wf imgs w Hw). by apply enh_health_step.
Qed.

End Controller.

(** ** The frame counter stays inside the frame array *)

Section Frames.
Context {num : Type} `{!JSNum num}.

Local Ltac fields := repeat case_match; by split_and!.

Lemma spriteSheet_framesOk imgs who d : framesOk (spriteSheet imgs who d).
Proof.
  intros k a Hk. unfold spriteSheet in Hk.
  apply elem_of_list_to_map_2 in Hk.
  repeat (apply elem_of_cons in Hk as [[= _ ->]|Hk]; [done|]).
  by apply elem_of_nil in Hk.
Qed.

Lemma frameInRange_reset anims key :
  framesOk anims -> frameInRange anims key (Int 0).
Proof.
  intros Hok a Ha. exists 0. split; [done|].
  specialize (Hok key a Ha). destruct (frames a); [done|]. simpl. lia.
Qed.

Lemma frameInRange_next anims key frame a :
  anims !! key = Some a ->
  frameInRange anims key frame ->
  frameInRange anims key
    (jsint_rem (jsint_succ frame) (Z.of_nat (length (frames a)))).
Proof.
  intros Ha Hin a' Ha'. rewrite Ha in Ha'. injection Ha' as <-.
  destruct (Hin a Ha) as (c & -> & Hc). simpl.
  destruct (Z.eqb_spec (Z.of_nat (length (frames a))) 0); [lia|].
  exists (Z.rem (c + 1) (Z.of_nat (length (frames a)))). split; [done|].
  apply Z.rem_bound_pos; lia.
Qed.

Lemma base_sameAnim_trans (f g h : Base.Fighter num) :
  base_sameAnim f g -> base_sameAnim g h -> base_sameAnim f h.
Proof. unfold base_sameAnim. intros. destruct_and!. by split_and!; etrans. Qed.

Lemma enh_sameAnim_trans (f g h : Enhanced.Fighter num) :
  enh_sameAnim f g -> enh_sameAnim g h -> enh_sameAnim f h.
Proof. unfold enh_sameAnim. intros. destruct_and!. by split_and!; etrans. Qed.

Lemma base_frameValid_kept (f g : Base.Fighter num) :
  base_sameAnim f g -> base_frameValid f -> base_frameValid g.
Proof. unfold base_sameAnim, base_frameValid. by intros (-> & -> & ->). Qed.

Lemma enh_frameValid_kept (f g : Enhanced.Fighter num) :
  enh_sameAnim f g -> enh_frameValid f -> enh_frameValid g.
Proof. unfold enh_sameAnim, enh_frameValid. by intros (-> & -> & ->). Qed.

Lemma base_frameValid_setAnimation key (f : Base.Fighter num) :
  base_frameValid f -> base_frameValid (Base.setAnimation key f).
Proof.
  intros [Hok Hin]. unfold Base.setAnimation. case_match; [done|].
  split; [done|]. by apply frameInRange_reset.
Qed.

Lemma enh_frameValid_setAnimation key (f : Enhanced.Fighter num) :
  enh_frameValid f -> enh_frameValid (Enhanced.setAnimation key f).
Proof.
  intros [Hok Hin]. unfold Enhanced.setAnimation. case_match; [done|].
  split; [done|]. by apply frameInRange_reset.
Qed.

Lemma base_frameValid_advanceFrame (f : Base.Fighter num) :
  base_frameValid f -> base_frameValid (Base.advanceFrame f).
Proof.
  intros [Hok Hin]. unfold Base.advanceFrame. cbv zeta. simpl.
  destruct (Base.animations f !! Base.currentAnimation f) as [a|] eqn:Ha;
    [|done].
  case_match; [|done]. split; [done|]. simpl.
  by apply frameInRange_next.
Qed.

Lemma enh_frameValid_advanceFrame (f : Enhanced.Fighter num) :
  enh_frameValid f -> enh_frameValid (Enhanced.advanceFrame f).
Proof.
  intros [Hok Hin]. unfold Enhanced.advanceFrame. cbv zeta. simpl.
  destruct (Enhanced.animations f !! Enhanced.currentAnimation f)
    as [a|] eqn:Ha; [|done].
  case_match; [|done]. split; [done|]. simpl.
  by apply frameInRange_next.
Qed.

Lemma base_frameValid_tick (f : Base.Fighter num) :
  base_frameValid f -> base_frameValid (Base.tick f).
Proof.
  intros Hf. apply base_frameValid_advanceFrame in Hf.
  revert Hf. apply base_frameValid_kept. unfold Base.tick.
  eapply base_sameAnim_trans with (g := Base.integrate _); [by split_and!|].
  eapply base_sameAnim_trans with (g := Base.screenBoundaries _).
  { unfold Base.screenBoundaries. fields. }
  eapply base_sameAnim_trans with (g := Base.groundOrGravity _).
  { unfold Base.groundOrGravity. fields. }
  unfold Base.attackCooldownTick. fields.
Qed.

Lemma enh_frameValid_tick (f : Enhanced.Fighter num) :
  enh_frameValid f -> enh_frameValid (Enhanced.tick f).
Proof.
  intros Hf. apply enh_frameValid_advanceFrame in Hf. unfold Enhanced.tick.
  assert (Hg : enh_frameValid
                 (Enhanced.resetAttackState
                    (Enhanced.cooldownsTick
                       (Enhanced.groundOrGravity
                          (Enhanced.screenBoundaries
                             (Enhanced.integrate
                                (Enhanced.advanceFrame f))))))).
  { revert Hf. apply enh_frameValid_kept.
    eapply enh_sameAnim_trans with (g := Enhanced.integrate _);
      [by split_and!|].
    eapply enh_sameAnim_trans with (g := Enhanced.screenBoundaries _).
    { unfold Enhanced.screenBoundaries. fields. }
    eapply enh_sameAnim_trans with (g := Enhanced.groundOrGravity _).
    { unfold Enhanced.groundOrGravity. fields. }
    eapply enh_sameAnim_trans with (g := Enhanced.cooldownsTick _).
    { unfold Enhanced.cooldownsTick. fields. }
    unfold Enhanced.resetAttackState. fields. }
  revert Hg. generalize (Enhanced.resetAttackState
    (Enhanced.cooldownsTick
       (Enhanced.groundOrGravity
          (Enhanced.screenBoundaries
             (Enhanced.integrate (Enhanced.advanceFrame f)))))).
  intros g Hg. unfold Enhanced.dodgeTick.
  destruct (Enhanced.isDodging g); [|done]. cbv zeta. simpl.
  case_match; [|by eapply enh_frameValid_kept; [|exact Hg]].
  apply enh_frameValid_setAnimation.
  by eapply enh_frameValid_kept; [|exact Hg].
Qed.

Lemma base_frameValid_movementLogic k (f : Base.Fighter num) :
  base_frameValid f -> base_frameValid (Base.movementLogic k f).
Proof.
  intros Hf. unfold Base.movementLogic.
  repeat case_match; cbv zeta;
    repeat match goal with
           | |- base_frameValid (Base.set_lastDirection ?d ?g) =>
               apply (base_frameValid_kept g); [by split_and!|]
           | |- base_frameValid (Base.setAnimation ?k ?g) =>
               apply base_frameValid_setAnimation
           | |- base_frameValid (Base.setVelocityX ?v ?g) =>
               apply (base_frameValid_kept g); [by split_and!|]
           end; done.
Qed.

Lemma enh_frameValid_movementLogic k (f : Enhanced.Fighter num) :
  enh_frameValid f -> enh_frameValid (Enhanced.movementLogic k f).
Proof.
  intros Hf. unfold Enhanced.movementLogic.
  repeat case_match; cbv zeta;
    repeat match goal with
           | |- enh_frameValid (Enhanced.set_lastDirection ?d ?g) =>
               apply (enh_frameValid_kept g); [by split_and!|]
           | |- enh_frameValid (Enhanced.setAnimation ?k ?g) =>
               apply enh_frameValid_setAnimation
           | |- enh_frameValid (Enhanced.setVelocityX ?v ?g) =>
               apply (enh_frameValid_kept g); [by split_and!|]
           end; done.
Qed.

Lemma base_frameValid_jump (f : Base.Fighter num) :
  base_frameValid f -> base_frameValid (Base.jump f).
Proof.
  intros Hf. unfold Base.jump. case_match; [|done].
  apply base_frameValid_setAnimation.
  by apply (base_frameValid_kept f); [split_and!|].
Qed.

Lemma enh_frameValid_jump (f : Enhanced.Fighter num) :
  enh_frameValid f -> enh_frameValid (Enhanced.jump f).
Proof.
  intros Hf. unfold Enhanced.jump. case_match; [|done].
  apply enh_frameValid_setAnimation.
  by apply (enh_frameValid_kept f); [split_and!|].
Qed.

Lemma enh_frameValid_dodge (f : Enhanced.Fighter num) :
  enh_frameValid f -> enh_frameValid (Enhanced.dodge f).
Proof.
  intros Hf. unfold Enhanced.dodge. case_match; [|done]. cbv zeta.
  apply enh_frameValid_setAnimation.
  by apply (enh_frameValid_kept f); [split_and!|].
Qed.

Lemma base_frameValid_attack (a t : Base.Fighter num) :
  base_frameValid a -> base_frameValid t ->
  base_frameValid (Base.attack a t).1 /\ base_frameValid (Base.attack a t).2.
Proof.
  intros Ha Ht. destruct (base_attack_cases a t) as [E|E]; rewrite E; simpl;
    [done|].
  split; [by apply (base_frameValid_kept a); [split_and!|]|].
  case_match; [|done]. by apply (base_frameValid_kept t); [split_and!|].
Qed.

Lemma enh_frameValid_attack now (a t : Enhanced.Fighter num) :
  (enh_frameValid a -> enh_frameValid (Enhanced.attack now a t).1)
  /\ (enh_frameValid t -> enh_frameValid (Enhanced.attack now a t).2).
Proof.
  destruct (enh_attack_cases now a t) as [E|E]; rewrite E; simpl; [done|].
  split; intros H.
  - by apply (enh_frameValid_kept a); [split_and!|].
  - case_match; [|done]. by apply (enh_frameValid_kept t); [split_and!|].
Qed.

(** X11. The frame counter never leaves the frame array.  In every
    reachable state of the base page, for each fighter, and in every
    reachable state of the enhanced page, for the player: every
    animation has at least one frame slot and, if the current animation
    key names an animation, [currentFrame] is an integer index into its
    frames (never NaN, never out of range). *)
Theorem current_frame_stays_in_range :
  (forall imgs (w : Base.World num),
      Base.reachable imgs w ->
      base_frameValid (Base.player w) /\ base_frameValid (Base.enemy w))
  /\ (forall imgs (w : Enhanced.World num),
         Enhanced.reachable imgs w -> enh_frameValid (Enhanced.player w)).
Proof.
  split; intros imgs w Hw.
  - revert w Hw. apply (base_reachable_inv base_frameValid).
    + split; [apply spriteSheet_framesOk|].
      apply frameInRange_reset, spriteSheet_framesOk.
    + split; [apply spriteSheet_framesOk|].
      apply frameInRange_reset, spriteSheet_framesOk.
    + apply base_frameValid_tick.
    + apply base_frameValid_movementLogic.
    + apply base_frameValid_jump.
    + intros a t Ha Ht. destruct (base_frameValid_attack a t Ha Ht).
      split; [|done]. by apply base_frameValid_setAnimation.
  - revert w Hw.
    enough (forall w, Enhanced.reachable imgs w ->
              enh_frameValid (Enhanced.player w) /\ True) as H
      by (intros w Hw; by destruct (H w Hw)).
    apply (enh_reachable_inv enh_frameValid (fun _ => True)); try done.
    + unfold Enhanced.initWorld, Enhanced.resetGame. cbv zeta.
      cbn [Enhanced.player].
      apply enh_frameValid_setAnimation.
      split; [apply spriteSheet_framesOk|].
      apply frameInRange_reset, spriteSheet_framesOk.
    + apply enh_frameValid_tick.
    + apply enh_frameValid_movementLogic.
    + apply enh_frameValid_jump.
    + apply enh_frameValid_dodge.
    + intros now p e Hp _. split; [|done].
      apply enh_frameValid_setAnimation. by apply enh_frameValid_attack.
    + intros now attackNow random ai e p _ Hp r. split_and!; try done.
      destruct (enh_aiUpdate_effect now attackNow random ai e p)
        as (_ & _ & Ht).
      fold r in Ht. destruct Ht as [->| ->]; [done|].
      by apply (enh_frameValid_kept p); [split_and!|].
Qed.

End Frames.

(** ** The frame clock *)

Section Clock.
Context {num : Type} `{!JSNum num}.

Local Ltac fields := repeat case_match; by split_and!.

Lemma div_succ (m d : Z) :
  0 <= m -> 0 < d ->
  (m + 1) / d = (if Z.rem (m + 1) d =? 0 then m / d + 1 else m / d).
Proof.
  intros Hm Hd. rewrite Z.rem_mod_nonneg by lia.
  destruct (Z.eqb_spec ((m + 1) mod d) 0) as [E|E];
    Z.div_mod_to_equations; nia.
Qed.

Lemma base_sameShow_trans (f g h : Base.Fighter num) :
  base_sameShow f g -> base_sameShow g h -> base_sameShow f h.
Proof.
  unfold base_sameShow, base_sameAnim. intros. destruct_and!.
  by split_and!; etrans.
Qed.

Lemma enh_sameShow_trans (f g h : Enhanced.Fighter num) :
  enh_sameShow f g -> enh_sameShow g h -> enh_sameShow f h.
Proof.
  unfold enh_sameShow, enh_sameAnim. intros. destruct_and!.
  by split_and!; etrans.
Qed.

Lemma base_tick_sameShow (f : Base.Fighter num) :
  base_sameShow (Base.advanceFrame f) (Base.tick f).
Proof.
  unfold Base.tick.
  eapply base_sameShow_trans with (g := Base.integrate _);
    [by split_and!|].
  eapply base_sameShow_trans with (g := Base.screenBoundaries _).
  { unfold Base.screenBoundaries. fields. }
  eapply base_sameShow_trans with (g := Base.groundOrGravity _).
  { unfold Base.groundOrGravity. fields. }
  unfold Base.attackCooldownTick. fields.
Qed.

Lemma enh_tick_sameShow (f : Enhanced.Fighter num) :
  Enhanced.isDodging f = false ->
  enh_sameShow (Enhanced.advanceFrame f) (Enhanced.tick f).
Proof.
  intros Hdg. unfold Enhanced.tick.
  set (g := Enhanced.resetAttackState _).
  assert (Hg : enh_sameShow (Enhanced.advanceFrame f) g
               /\ Enhanced.isDodging g = false).
  { subst g. split.
    - eapply enh_sameShow_trans with (g := Enhanced.integrate _);
        [by split_and!|].
      eapply enh_sameShow_trans with (g := Enhanced.screenBoundaries _).
      { unfold Enhanced.screenBoundaries. fields. }
      eapply enh_sameShow_trans with (g := Enhanced.groundOrGravity _).
      { unfold Enhanced.groundOrGravity. fields. }
      eapply enh_sameShow_trans with (g := Enhanced.cooldownsTick _).
      { unfold Enhanced.cooldownsTick. fields. }
      unfold Enhanced.resetAttackState. fields.
    - destruct (enh_resetAttackState_dodge
                  (Enhanced.cooldownsTick
                     (Enhanced.groundOrGravity
                        (Enhanced.screenBoundaries
                           (Enhanced.integrate (Enhanced.advanceFrame f))))))
        as (_ & _ & ->).
      destruct (enh_cooldownsTick_dodge
                  (Enhanced.groundOrGravity
                     (Enhanced.screenBoundaries
                        (Enhanced.integrate (Enhanced.advanceFrame f)))))
        as (_ & _ & ->).
      destruct (enh_physics_combat f) as (_ & _ & Hd & _).
      exact (eq_trans Hd Hdg). }
  destruct Hg as [Hshow Hnd]. clearbody g.
  unfold Enhanced.dodgeTick. by rewrite Hnd.
Qed.

(** One update on the clock: the counter of updates goes up by one,
    and the frame index moves on, modulo the number of frames, when the
    counter reaches a multiple of the hold. *)
Lemma base_advanceFrame_clock (f : Base.Fighter num) a c :
  Base.animations f !! Base.currentAnimation f = Some a ->
  Base.currentFrame f = Int c ->
  0 <= c < Z.of_nat (length (frames a)) ->
  0 < holdOf a (Base.framesHold f) ->
  let g := Base.advanceFrame f in
  Base.animations g = Base.animations f
  /\ Base.currentAnimation g = Base.currentAnimation f
  /\ Base.framesHold g = Base.framesHold f
  /\ Base.framesElapsed g = Base.framesElapsed f + 1
  /\ Base.currentFrame g
     = Int (if Z.rem (Base.framesElapsed f + 1) (holdOf a (Base.framesHold f))
               =? 0
            then (c + 1) mod Z.of_nat (length (frames a)) else c).
Proof.
  intros Ha Hc Hrange Hhold g. subst g.
  unfold Base.advanceFrame. cbv zeta. simpl. rewrite Ha.
  fold (holdOf a (Base.framesHold f)).
  unfold holdOf in *. simpl.
  set (d := match frameDuration a with
            | Some d => if d =? 0 then Base.framesHold f else d
            | None => Base.framesHold f
            end) in *.
  destruct (Z.eqb_spec d 0); [lia|]. unfold jsint_is0.
  destruct (Z.rem (Base.framesElapsed f + 1) d =? 0); simpl;
    [|by split_and!].
  rewrite Hc. simpl.
  destruct (Z.eqb_spec (Z.of_nat (length (frames a))) 0); [lia|].
  rewrite Z.rem_mod_nonneg by lia. by split_and!.
Qed.

Lemma enh_advanceFrame_clock (f : Enhanced.Fighter num) a c :
  Enhanced.animations f !! Enhanced.currentAnimation f = Some a ->
  Enhanced.currentFrame f = Int c ->
  0 <= c < Z.of_nat (length (frames a)) ->
  0 < holdOf a (Enhanced.framesHold f) ->
  let g := Enhanced.advanceFrame f in
  Enhanced.animations g = Enhanced.animations f
  /\ Enhanced.currentAnimation g = Enhanced.currentAnimation f
  /\ Enhanced.framesHold g = Enhanced.framesHold f
  /\ Enhanced.framesElapsed g = Enhanced.framesElapsed f + 1
  /\ Enhanced.currentFrame g
     = Int (if Z.rem (Enhanced.framesElapsed f + 1)
                 (holdOf a (Enhanced.framesHold f)) =? 0
            then (c + 1) mod Z.of_nat (length (frames a)) else c).
Proof.
  intros Ha Hc Hrange Hhold g. subst g.
  unfold Enhanced.advanceFrame. cbv zeta. simpl. rewrite Ha.
  unfold holdOf in *. simpl.
  set (d := match frameDuration a with
            | Some d => if d =? 0 then Enhanced.framesHold f else d
            | None => Enhanced.framesHold f
            end) in *.
  destruct (Z.eqb_spec d 0); [lia|]. unfold jsint_is0.
  destruct (Z.rem (Enhanced.framesElapsed f + 1) d =? 0); simpl;
    [|by split_and!].
  rewrite Hc. simpl.
  destruct (Z.eqb_spec (Z.of_nat (length (frames a))) 0); [lia|].
  rewrite Z.rem_mod_nonneg by lia. by split_and!.
Qed.

Lemma clock_step (c e d m L : Z) :
  0 <= c -> 0 <= e -> 0 <= m -> 0 < d -> 0 < L ->
  (if Z.rem (e + m + 1) d =? 0
   then ((c + ((e + m) / d - e / d)) mod L + 1) mod L
   else (c + ((e + m) / d - e / d)) mod L)
  = (c + ((e + (m + 1)) / d - e / d)) mod L.
Proof.
  intros Hc He Hm Hd HL.
  replace (e + (m + 1)) with (e + m + 1) by lia.
  rewrite (div_succ (e + m) d) by lia.
  destruct (Z.rem (e + m + 1) d =? 0); [|done].
  rewrite Z.add_mod_idemp_l by lia. f_equal. lia.
Qed.

(** X20. The frame clock.  While the animation key is not changed, the
    index of the frame shown after [n] updates is the index before plus
    the number of multiples of the hold that the counter of updates
    [framesElapsed] has passed, modulo the number of frames; the hold
    is the animation's [frameDuration] or, without one, [framesHold];
    the counter goes up by one per update.  Stated as long as the
    counter stays within 2^53, where [framesElapsed++] is exact on the
    number the program holds.  For the base fighter, and for the
    enhanced fighter while it is not dodging. *)
Theorem frame_index_follows_the_update_counter :
  (forall (f : Base.Fighter num) (a : Animation) (c : Z) (n : nat),
      Base.animations f !! Base.currentAnimation f = Some a ->
      Base.currentFrame f = Int c ->
      0 <= c < Z.of_nat (length (frames a)) ->
      0 < holdOf a (Base.framesHold f) ->
      0 <= Base.framesElapsed f ->
      Base.framesElapsed f + Z.of_nat n <= 2 ^ 53 ->
      let e := Base.framesElapsed f in
      let d := holdOf a (Base.framesHold f) in
      Base.framesElapsed (base_ticks n f) = e + Z.of_nat n
      /\ Base.currentAnimation (base_ticks n f) = Base.currentAnimation f
      /\ Base.currentFrame (base_ticks n f)
         = Int ((c + ((e + Z.of_nat n) / d - e / d))
                mod Z.of_nat (length (frames a))))
  /\ (forall (f : Enhanced.Fighter num) (a : Animation) (c : Z) (n : nat),
         Enhanced.isDodging f = false ->
         Enhanced.animations f !! Enhanced.currentAnimation f = Some a ->
         Enhanced.currentFrame f = Int c ->
         0 <= c < Z.of_nat (length (frames a)) ->
         0 < holdOf a (Enhanced.framesHold f) ->
         0 <= Enhanced.framesElapsed f ->
         Enhanced.framesElapsed f + Z.of_nat n <= 2 ^ 53 ->
         let e := Enhanced.framesElapsed f in
         let d := holdOf a (Enhanced.framesHold f) in
         Enhanced.framesElapsed (enh_ticks n f) = e + Z.of_nat n
         /\ Enhanced.currentAnimation (enh_ticks n f)
            = Enhanced.currentAnimation f
         /\ Enhanced.currentFrame (enh_ticks n f)
            = Int ((c + ((e + Z.of_nat n) / d - e / d))
                   mod Z.of_nat (length (frames a)))).
Proof.
  split.
  - intros f a c n Ha Hc Hrange Hhold He _ e d.
    enough (Base.framesElapsed (base_ticks n f) = e + Z.of_nat n
            /\ Base.currentAnimation (base_ticks n f)
               = Base.currentAnimation f
            /\ Base.currentFrame (base_ticks n f)
               = Int ((c + ((e + Z.of_nat n) / d - e / d))
                      mod Z.of_nat (length (frames a)))
            /\ Base.animations (base_ticks n f) = Base.animations f
            /\ Base.framesHold (base_ticks n f) = Base.framesHold f)
      as (? & ? & ? & _) by by split_and!.
    induction n as [|n (IHe & IHk & IHc & IHa & IHh)].
    + change (base_ticks 0 f) with f. change (Z.of_nat 0) with 0.
      rewrite !Z.add_0_r, Z.sub_diag, Z.add_0_r, Z.mod_small by lia.
      by split_and!.
    + change (base_ticks (S n) f) with (Base.tick (base_ticks n f)).
      set (g := base_ticks n f) in *.
      destruct (base_tick_sameShow g)
        as ((Hanims & Hkey & Hframe) & Helapsed & Hhold').
      assert (Hdiv : 0 <= (e + Z.of_nat n) / d - e / d).
      { pose proof (Z.div_le_mono e (e + Z.of_nat n) d Hhold ltac:(lia)).
        lia. }
      destruct (base_advanceFrame_clock g a
                  ((c + ((e + Z.of_nat n) / d - e / d))
                   mod Z.of_nat (length (frames a))))
        as (Ha' & Hk' & Hh' & He' & Hc').
      * by rewrite IHa, IHk.
      * exact IHc.
      * apply Z.mod_pos_bound. lia.
      * by rewrite IHh.
      * rewrite Helapsed, Hkey, Hframe, Hanims, Hhold', Ha', Hk', Hh', He',
          Hc', IHe, IHk, IHa, IHh.
        split_and!; try done; [lia|].
        f_equal. fold d. rewrite Nat2Z.inj_succ. unfold Z.succ.
        apply clock_step; lia.
  - intros f a c n Hdg Ha Hc Hrange Hhold He _ e d.
    enough (Enhanced.framesElapsed (enh_ticks n f) = e + Z.of_nat n
            /\ Enhanced.currentAnimation (enh_ticks n f)
               = Enhanced.currentAnimation f
            /\ Enhanced.currentFrame (enh_ticks n f)
               = Int ((c + ((e + Z.of_nat n) / d - e / d))
                      mod Z.of_nat (length (frames a)))
            /\ Enhanced.animations (enh_ticks n f) = Enhanced.animations f
            /\ Enhanced.framesHold (enh_ticks n f) = Enhanced.framesHold f
            /\ Enhanced.isDodging (enh_ticks n f) = false)
      as (? & ? & ? & _) by by split_and!.
    induction n as [|n (IHe & IHk & IHc & IHa & IHh & IHd)].
    + change (enh_ticks 0 f) with f. change (Z.of_nat 0) with 0.
      rewrite !Z.add_0_r, Z.sub_diag, Z.add_0_r, Z.mod_small by lia.
      by split_and!.
    + change (enh_ticks (S n) f) with (Enhanced.tick (enh_ticks n f)).
      set (g := enh_ticks n f) in *.
      destruct (enh_tick_sameShow g IHd)
        as ((Hanims & Hkey & Hframe) & Helapsed & Hhold').
      destruct (enh_tick_cooldown g) as (_ & _ & _ & Hdodge).
      assert (Hdiv : 0 <= (e + Z.of_nat n) / d - e / d).
      { pose proof (Z.div_le_mono e (e + Z.of_nat n) d Hhold ltac:(lia)).
        lia. }
      destruct (enh_advanceFrame_clock g a
                  ((c + ((e + Z.of_nat n) / d - e / d))
                   mod Z.of_nat (length (frames a))))
        as (Ha' & Hk' & Hh' & He' & Hc').
      * by rewrite IHa, IHk.
      * exact IHc.
      * apply Z.mod_pos_bound. lia.
      * by rewrite IHh.
      * rewrite Helapsed, Hkey, Hframe, Hanims, Hhold', Ha', Hk', Hh', He',
          Hc', IHe, IHk, IHa, IHh.
        split_and!; try done; [lia| |by apply Hdodge].
        f_equal. fold d. rewrite Nat2Z.inj_succ. unfold Z.succ.
        apply clock_step; lia.
Qed.

End Clock.

(** ** Facing and the hit test, in exact arithmetic *)

Section Facing.
Local Open Scope Q_scope.

Lemma base_behind_misses (r : Q) (a t : Base.Fighter Q) :
  Base.width a == Base.width t -> base_behind a t ->
  Base.hits r a t = false.
Proof.
  intros Hw Hb. destruct (Base.hits r a t) eqn:E; [|done].
  apply base_hits_iff in E as [[Hgap _] _].
  unfold base_behind, base_gap in *.
  destruct (isRight (Base.lastDirection a)); lra.
Qed.

Lemma enh_behind_misses (r : Q) (a t : Enhanced.Fighter Q) :
  Enhanced.width a == Enhanced.width t -> enh_behind a t ->
  Enhanced.hits r a t = false.
Proof.
  intros Hw Hb. destruct (Enhanced.hits r a t) eqn:E; [|done].
  apply enh_hits_iff in E as [[Hgap _] _].
  unfold enh_behind, enh_gap in *.
  destruct (isRight (Enhanced.lastDirection a)); lra.
Qed.

Lemma enh_attackBranch_calls now attackNow d drawn ai
    (fighter target : Enhanced.Fighter Q) :
  In Enhanced.CallAttack
     (Enhanced.calls
        (Enhanced.attackBranch now attackNow d drawn ai fighter target)).
Proof.
  unfold Enhanced.attackBranch.
  destruct (Enhanced.attack _ _ _). simpl. right. by left.
Qed.

(** X12. An attack reaches only forward.  If the target's left edge is
    not ahead of the attacker's on the side the attacker faces, the
    attack leaves the target untouched, whatever the distance: in both
    variants, and for the controller, which attacks without turning its
    fighter, so that after such an attack the target is still behind. *)
Theorem attack_never_hits_a_target_behind :
  (forall (a t : Base.Fighter Q),
      Base.width a == Base.width t -> base_behind a t ->
      (Base.attack a t).2 = t)
  /\ (forall (now : Z) (a t : Enhanced.Fighter Q),
         Enhanced.width a == Enhanced.width t -> enh_behind a t ->
         (Enhanced.attack now a t).2 = t)
  /\ (forall (now attackNow : Z) (random : nat -> Q)
             (ai : Enhanced.AIController Q)
             (fighter target : Enhanced.Fighter Q),
         Enhanced.width fighter == Enhanced.width target ->
         enh_behind fighter target ->
         let r := Enhanced.aiUpdate now attackNow random ai fighter target in
         Enhanced.target_after r = target
         /\ (In Enhanced.CallAttack (Enhanced.calls r) ->
             enh_behind (Enhanced.fighter_after r) (Enhanced.target_after r))).
Proof.
  split_and!.
  - intros a t Hw Hb. destruct (base_attack_cases a t) as [E|E]; rewrite E;
      [done|].
    simpl. by rewrite base_behind_misses.
  - intros now a t Hw Hb.
    destruct (enh_attack_cases now a t) as [E|E]; rewrite E; [done|].
    simpl. by rewrite enh_behind_misses.
  - intros now attackNow random ai fighter target Hw Hb r. subst r.
    unfold Enhanced.aiUpdate.
    destruct (now <? Enhanced.nextActionTime ai)%Z;
      [by split; [|intros []]|].
    cbv zeta.
    match goal with |- context [if ?c then _ else _] => destruct c end.
    + match goal with
      | |- context [Enhanced.attackBranch ?a ?b ?c ?d ?e ?g ?h] =>
          destruct (enh_attackBranch_effect a b c d e g h)
            as (Hp & _ & Hd & _);
          assert (Ht : Enhanced.target_after
                         (Enhanced.attackBranch a b c d e g h) = target)
      end.
      { unfold Enhanced.attackBranch.
        set (k := "attack" +:+ dirString _).
        set (f1 := Enhanced.ensureAnimation k
                     (Enhanced.setAnimation k fighter)).
        assert (Hkin : enh_sameKin fighter f1).
        { eapply enh_sameKin_trans;
            [apply enh_setAnimation_kin | apply enh_ensureAnimation_kin]. }
        assert (Hdir : Enhanced.lastDirection f1
                       = Enhanced.lastDirection fighter).
        { subst f1. unfold Enhanced.ensureAnimation, Enhanced.setAnimation.
          by repeat case_match. }
        destruct Hkin as (Hp1 & _ & Hw1 & _).
        assert (Hmiss : Enhanced.hits (ofZ 120) f1 target = false).
        { apply enh_behind_misses; [by rewrite Hw1|].
          unfold enh_behind. by rewrite Hdir, Hp1. }
        destruct (enh_attack_cases attackNow f1 target) as [E|E]; rewrite E;
          [done|].
        by rewrite Hmiss. }
      split; [done|]. intros _. unfold enh_behind. by rewrite Ht, Hp, Hd.
    + match goal with
      | |- context [Enhanced.moveBranch ?a ?b ?c ?d ?e ?g ?h ?i ?j] =>
          destruct (enh_moveBranch_gate a b c d e g h i j) as [_ Hc];
          destruct (enh_moveBranch_steered a b c d e g h i j) as [_ Ht]
      end.
      split; [done|]. intros Hin. by destruct Hc.
Qed.

End Facing.

(** ** The controller far from its target, in exact arithmetic *)

Section Chase.
Local Open Scope Q_scope.

(** X17. A controller that acts while its fighter stands on the ground
    200 px or more from the target always jumps: it does not attack, it
    consults no random number, and it sets the vertical velocity to
    -22.  It calls [setAnimation] twice: first with "runRight" when it
    has set the horizontal velocity to the right (5, boosted to 9) or
    with "runLeft" when to the left (-5, boosted to -9), then with
    "jumpRight" when the target is to the right and "jumpLeft"
    otherwise; it leaves the fighter facing the target and the target
    alone. *)
Theorem controller_far_from_target_always_jumps :
  forall (now attackNow : Z) (random : nat -> Q)
         (ai : Enhanced.AIController Q)
         (fighter target : Enhanced.Fighter Q),
    (Enhanced.nextActionTime ai <= now)%Z ->
    inject_Z canvas_height
    <= y (Enhanced.position fighter) + Enhanced.height fighter ->
    200 <= Qabs (x (Enhanced.position target)
                 - x (Enhanced.position fighter)) ->
    let r := Enhanced.aiUpdate now attackNow random ai fighter target in
    let targetIsRight :=
      Qltb 0 (x (Enhanced.position target)
              - x (Enhanced.position fighter)) in
    let jumpAnim := if targetIsRight then "jumpRight" else "jumpLeft" in
    y (Enhanced.velocity (Enhanced.fighter_after r)) = ofZ (-22)
    /\ Enhanced.randomDraws r = 0%nat
    /\ ((Enhanced.calls r
         = [Enhanced.CallSetAnimation "runRight";
            Enhanced.CallSetAnimation jumpAnim]
         /\ x (Enhanced.velocity (Enhanced.fighter_after r)) == 9)
        \/ (Enhanced.calls r
            = [Enhanced.CallSetAnimation "runLeft";
               Enhanced.CallSetAnimation jumpAnim]
            /\ x (Enhanced.velocity (Enhanced.fighter_after r)) == -9))
    /\ Enhanced.lastDirection (Enhanced.fighter_after r)
       = (if targetIsRight then Right else Left)
    /\ Enhanced.target_after r = target.
Proof.
  intros now attackNow random ai fighter target Hgate Hground Hfar r
    targetIsRight jumpAnim.
  subst r jumpAnim targetIsRight. unfold Enhanced.aiUpdate.
  destruct (Z.ltb_spec now (Enhanced.nextActionTime ai)); [lia|]. cbv zeta.
  set (dx := x (Enhanced.position target) - x (Enhanced.position fighter))
    in *.
  change (nabs (x (Enhanced.position target) - x (Enhanced.position fighter))%js)
    with (Qabs dx).
  assert (H150 : Qltb (Qabs dx) (inject_Z 150) = false)
    by (apply Qltb_false; change (inject_Z 150) with 150; lra).
  assert (H200 : Qltb (Qabs dx) (inject_Z 200) = false)
    by (apply Qltb_false; change (inject_Z 200) with 200; lra).
  assert (H80 : Qltb (inject_Z 80) (Qabs dx) = true)
    by (apply Qltb_true; change (inject_Z 80) with 80; lra).
  change ((Qabs dx <? ofZ 150)%js) with (Qltb (Qabs dx) (inject_Z 150)).
  change ((Qabs dx <? ofZ 200)%js) with (Qltb (Qabs dx) (inject_Z 200)).
  rewrite H150, H200. cbn [andb orb negb].
  unfold Enhanced.moveBranch. cbv zeta.
  change ((Qabs dx >? ofZ 80)%js) with (Qltb (inject_Z 80) (Qabs dx)).
  rewrite H80. cbn [orb].
  change ((dx >? ofZ 0)%js) with (Qltb 0 dx).
  (* the fighter once the chase velocity is set *)
  match goal with
  | |- context [Enhanced.setAnimation
                  (if (x (Enhanced.velocity ?F) >? ofZ 0)%js
                   then "runRight" else "runLeft") ?F] =>
      set (chaser := F)
  end.
  assert (Hchaser : enh_steered fighter chaser
                    /\ (x (Enhanced.velocity chaser) = ofZ 5
                        \/ x (Enhanced.velocity chaser) = nopp (ofZ 5))).
  { subst chaser. unfold Enhanced.setVelocityX, Enhanced.setVelocityY.
    repeat case_match; simpl; (split; [by split_and!|]); auto. }
  clearbody chaser. destruct Hchaser as [Hsteer Hvx].
  match goal with
  | |- context [Enhanced.set_lastDirection ?D
                  (Enhanced.setAnimation _ chaser)] => set (d := D)
  end.
  assert (Hfacing : d = if Qltb 0 dx then Right else Left) by reflexivity.
  assert (Hjump : jumpKey d
                  = if Qltb 0 dx then "jumpRight" else "jumpLeft")
    by (rewrite Hfacing; by destruct (Qltb 0 dx)).
  clearbody d.
  assert (Hresult :
    forall runAnim,
      let g := Enhanced.set_lastDirection d
                 (Enhanced.setAnimation runAnim chaser) in
      Enhanced.position g = Enhanced.position fighter
      /\ Enhanced.height g = Enhanced.height fighter
      /\ Enhanced.lastDirection g = d
      /\ x (Enhanced.velocity g) = x (Enhanced.velocity chaser)).
  { intros runAnim g. subst g.
    destruct (enh_setAnimation_steered runAnim chaser)
      as (Hp & _ & _ & _ & _ & Hh & _).
    destruct (enh_setAnimation_kin runAnim chaser) as (_ & Hv & _).
    destruct Hsteer as (Hp' & _ & _ & _ & _ & Hh' & _).
    simpl. rewrite Hp, Hh, Hv, Hp', Hh'. by split_and!. }
  destruct Hvx as [Hvx|Hvx]; rewrite Hvx;
    [change ((ofZ 5 >? ofZ 0)%js) with true
    |change ((nopp (ofZ 5) >? ofZ 0)%js) with false]; cbv iota;
    match goal with
    | |- context [Enhanced.set_lastDirection d
                    (Enhanced.setAnimation ?K chaser)] =>
        destruct (Hresult K) as (Hp & Hh & Hd & Hv);
        generalize dependent (Enhanced.set_lastDirection d
                                (Enhanced.setAnimation K chaser))
    end;
    intros g Hp Hh Hd Hv;
    rewrite Hp, Hh;
    change ((y (Enhanced.position fighter) + Enhanced.height fighter
             >=? ofZ canvas_height)%js)
      with (Qle_bool (inject_Z canvas_height)
              (y (Enhanced.position fighter) + Enhanced.height fighter));
    rewrite (proj2 (Qle_bool_iff _ _) Hground); cbv iota;
    cbn [Enhanced.fighter_after Enhanced.target_after Enhanced.calls
         Enhanced.randomDraws];
    match goal with
    | |- context [Enhanced.velocity (Enhanced.setAnimation ?K ?F)] =>
        destruct (enh_setAnimation_kin K F) as (_ & -> & _);
        destruct (enh_setAnimation_kept K F)
          as (_ & _ & _ & _ & _ & _ & -> & _)
    end;
    cbn [Enhanced.setVelocityX Enhanced.setVelocityY Enhanced.set_velocity
         Enhanced.velocity Enhanced.lastDirection x y];
    rewrite Hd, Hv, Hvx, Hjump.
  - split_and!; try reflexivity; [|exact Hfacing].
    left. split; [reflexivity|]. simpl. reflexivity.
  - split_and!; try reflexivity; [|exact Hfacing].
    right. split; [reflexivity|]. simpl. reflexivity.
Qed.

End Chase.

(** ** The velocities the controller sets *)

Section ControllerVelocity.
Context {num : Type} `{!JSNum num}.
Local Open Scope js_scope.

Lemma enh_setAnimation_vx key (f : Enhanced.Fighter num) :
  x (Enhanced.velocity (Enhanced.setAnimation key f))
  = x (Enhanced.velocity f).
Proof. by destruct (enh_setAnimation_kin key f) as (_ & -> & _). Qed.

Lemma enh_moveBranch_vx now random d dx adx drawn ai
    (fighter target : Enhanced.Fighter num) :
  let r := Enhanced.moveBranch now random d dx adx drawn ai fighter target in
  In (x (Enhanced.velocity (Enhanced.fighter_after r)))
     [ofZ 5; - ofZ 5; ofZ 5 * lit 18 10; - ofZ 5 * lit 18 10].
Proof.
  unfold Enhanced.moveBranch. cbv zeta.
  match goal with
  | |- context [Enhanced.set_lastDirection d ?g] =>
      assert (Hg : x (Enhanced.velocity (Enhanced.set_lastDirection d g))
                   = ofZ 5
                   \/ x (Enhanced.velocity (Enhanced.set_lastDirection d g))
                      = - ofZ 5)
  end.
  { change (x (Enhanced.velocity (Enhanced.set_lastDirection d ?g)))
      with (x (Enhanced.velocity g)).
    rewrite enh_setAnimation_vx.
    unfold Enhanced.setVelocityX, Enhanced.setVelocityY.
    repeat case_match; simpl; auto. }
  match type of Hg with
  | x (Enhanced.velocity ?g) = _ \/ _ => generalize dependent g
  end.
  intros g Hg.
  repeat case_match; simpl; rewrite ?enh_setAnimation_vx; simpl;
    destruct Hg as [-> | ->]; auto.
Qed.

Lemma enh_aiUpdate_vx now attackNow random ai
    (fighter target : Enhanced.Fighter num) :
  (Enhanced.nextActionTime ai <= now)%Z ->
  let r := Enhanced.aiUpdate now attackNow random ai fighter target in
  In (x (Enhanced.velocity (Enhanced.fighter_after r)))
     [ofZ 3; ofZ (-3); ofZ 5; - ofZ 5; ofZ 5 * lit 18 10;
      - ofZ 5 * lit 18 10].
Proof.
  intros Hgate. unfold Enhanced.aiUpdate.
  destruct (Z.ltb_spec now (Enhanced.nextActionTime ai)); [lia|]. cbv zeta.
  match goal with |- context [if ?c then _ else _] => destruct c end.
  - unfold Enhanced.attackBranch.
    destruct (Enhanced.attack _ _ _) as [f2 t2]. simpl.
    case_match; auto.
  - match goal with
    | |- context [Enhanced.moveBranch ?a ?b ?c ?d ?e ?g ?h ?i ?j] =>
        pose proof (enh_moveBranch_vx a b c d e g h i j) as Hv
    end.
    simpl in Hv. simpl. tauto.
Qed.

End ControllerVelocity.

(** X13. Whenever the controller acts (the time gate is open) it
    leaves its fighter with a horizontal velocity that is not zero: 3
    or -3 after an attack, 5 or -5 after a move, 9 or -9 after a jump.
    The test [enemy.velocity.x === 0] that follows in the frame loop is
    therefore false in every frame in which the controller acted.  In
    exact arithmetic and in binary64. *)
Theorem controller_never_leaves_its_fighter_at_rest :
  (forall (now attackNow : Z) (random : nat -> Q)
          (ai : Enhanced.AIController Q)
          (fighter target : Enhanced.Fighter Q),
      (Enhanced.nextActionTime ai <= now)%Z ->
      let r := Enhanced.aiUpdate now attackNow random ai fighter target in
      neqb (x (Enhanced.velocity (Enhanced.fighter_after r))) (ofZ 0) = false)
  /\ (forall (now attackNow : Z) (random : nat -> float)
             (ai : Enhanced.AIController float)
             (fighter target : Enhanced.Fighter float),
         (Enhanced.nextActionTime ai <= now)%Z ->
         let r := Enhanced.aiUpdate now attackNow random ai fighter target in
         neqb (x (Enhanced.velocity (Enhanced.fighter_after r))) (ofZ 0)
         = false).
Proof.
  split; intros now attackNow random ai fighter target Hgate r;
    pose proof (enh_aiUpdate_vx now attackNow random ai fighter target Hgate)
      as Hv; fold r in Hv; cbv zeta in Hv;
    repeat (destruct Hv as [<-|Hv]; [reflexivity|]); destruct Hv.
Qed.

(** ** A jump, update by update, in binary64 *)

Lemma jumpFlight_check :
  forallb (fun n => inFlight (jumpFlight n)) (seq 1 58) = true.
Proof. vm_compute. reflexivity. Qed.

Lemma jumpFlight_lands : jumpFlight 59 = (ofZ 426, ofZ 0).
Proof. vm_compute. reflexivity. Qed.

Lemma jumpFlight_inFlight (n : nat) :
  (1 <= n <= 58)%nat -> inFlight (jumpFlight n) = true.
Proof.
  intros Hn.
  exact (proj1 (forallb_forall _ _) jumpFlight_check n
           (proj2 (in_seq 58 1 n) ltac:(lia))).
Qed.

Lemma base_tick_vertical (f : Base.Fighter float) :
  Base.height f = ofZ 150 ->
  base_vertical (Base.tick f) = tickY (base_vertical f)
  /\ Base.height (Base.tick f) = ofZ 150.
Proof.
  intros Hh.
  destruct (base_tick_kept f) as (_ & _ & _ & _ & Hh' & _).
  destruct (base_tick_velocity f) as [_ Hvy].
  pose proof (base_tick_position f) as Hpos.
  destruct (base_physics_position f) as [_ Hy].
  unfold base_vertical, tickY. rewrite Hpos, Hy, Hvy, Hh', Hh.
  split; reflexivity.
Qed.

Lemma enh_tick_vertical (f : Enhanced.Fighter float) :
  Enhanced.height f = ofZ 150 ->
  enh_vertical (Enhanced.tick f) = tickY (enh_vertical f)
  /\ Enhanced.height (Enhanced.tick f) = ofZ 150.
Proof.
  intros Hh.
  destruct (enh_tick_kept f) as (_ & _ & _ & _ & Hh' & _).
  destruct (enh_tick_velocity f) as [_ Hvy].
  pose proof (enh_tick_position f) as Hpos.
  destruct (enh_physics_position f) as [_ Hy].
  unfold enh_vertical, tickY. rewrite Hpos, Hy, Hvy, Hh', Hh.
  split; reflexivity.
Qed.

Lemma base_ticks_vertical (n : nat) (f : Base.Fighter float) :
  Base.height f = ofZ 150 ->
  base_vertical (base_ticks n f) = Nat.iter n tickY (base_vertical f)
  /\ Base.height (base_ticks n f) = ofZ 150.
Proof.
  intros Hh. induction n as [|n [IHv IHh]].
  - split; [reflexivity|exact Hh].
  - change (base_ticks (S n) f) with (Base.tick (base_ticks n f)).
    destruct (base_tick_vertical (base_ticks n f) IHh) as [Hv Hh'].
    split; [|exact Hh']. rewrite Hv, IHv. reflexivity.
Qed.

Lemma enh_ticks_vertical (n : nat) (f : Enhanced.Fighter float) :
  Enhanced.height f = ofZ 150 ->
  enh_vertical (enh_ticks n f) = Nat.iter n tickY (enh_vertical f)
  /\ Enhanced.height (enh_ticks n f) = ofZ 150.
Proof.
  intros Hh. induction n as [|n [IHv IHh]].
  - split; [reflexivity|exact Hh].
  - change (enh_ticks (S n) f) with (Enhanced.tick (enh_ticks n f)).
    destruct (enh_tick_vertical (enh_ticks n f) IHh) as [Hv Hh'].
    split; [|exact Hh']. rewrite Hv, IHv. reflexivity.
Qed.

Lemma base_jump_vertical (f : Base.Fighter float) :
  y (Base.position f) = ofZ 426 -> Base.height f = ofZ 150 ->
  base_vertical (Base.jump f) = (ofZ 426, ofZ (-20))
  /\ Base.height (Base.jump f) = ofZ 150.
Proof.
  intros Hy Hh. unfold Base.jump. rewrite Hy, Hh.
  change (nle (ofZ canvas_height) (nadd (ofZ 426) (ofZ 150))) with true.
  cbv iota.
  destruct (base_setAnimation_kin
              (jumpKey (Base.lastDirection f))
              (Base.setVelocityY (ofZ (-20)) f)) as (Hp & Hv & _ & Hh').
  unfold base_vertical. rewrite Hp, Hv, Hh'. simpl. rewrite Hy.
  split; [reflexivity|exact Hh].
Qed.

Lemma enh_jump_vertical (f : Enhanced.Fighter float) :
  y (Enhanced.position f) = ofZ 426 -> Enhanced.height f = ofZ 150 ->
  enh_vertical (Enhanced.jump f) = (ofZ 426, ofZ (-20))
  /\ Enhanced.height (Enhanced.jump f) = ofZ 150.
Proof.
  intros Hy Hh. unfold Enhanced.jump. rewrite Hy, Hh.
  change (nle (ofZ canvas_height) (nadd (ofZ 426) (ofZ 150))) with true.
  cbv iota.
  destruct (enh_setAnimation_kin
              (jumpKey (Enhanced.lastDirection f))
              (Enhanced.setVelocityY (ofZ (-20)) f)) as (Hp & Hv & _ & Hh' & _).
  unfold enh_vertical. rewrite Hp, Hv, Hh'. simpl. rewrite Hy.
  split; [reflexivity|exact Hh].
Qed.

(** X14. A jump lasts 59 updates.  A fighter 150 high standing on the
    ground (position.y = 426) that takes the jump key is in the air
    after each of the next 58 updates, never above the top of the
    canvas, and the jump key does nothing to it there (no double jump);
    the 59th update puts it back on the ground with no vertical
    velocity.  In binary64, for both variants. *)
Theorem jump_lasts_59_updates :
  (forall (f : Base.Fighter float) (n : nat),
      y (Base.position f) = ofZ 426 -> Base.height f = ofZ 150 ->
      let g := base_ticks n (Base.jump f) in
      ((1 <= n <= 58)%nat ->
         Base.jump g = g /\ nle (ofZ 0) (y (Base.position g)) = true)
      /\ (n = 59%nat ->
            y (Base.position g) = ofZ 426 /\ y (Base.velocity g) = ofZ 0))
  /\ (forall (f : Enhanced.Fighter float) (n : nat),
         y (Enhanced.position f) = ofZ 426 -> Enhanced.height f = ofZ 150 ->
         let g := enh_ticks n (Enhanced.jump f) in
         ((1 <= n <= 58)%nat ->
            Enhanced.jump g = g
            /\ nle (ofZ 0) (y (Enhanced.position g)) = true)
         /\ (n = 59%nat ->
               y (Enhanced.position g) = ofZ 426
               /\ y (Enhanced.velocity g) = ofZ 0)).
Proof.
  split; intros f n Hy Hh g.
  - destruct (base_jump_vertical f Hy Hh) as [Hv0 Hh0].
    destruct (base_ticks_vertical n (Base.jump f) Hh0) as [Hv Hh'].
    fold g in Hv, Hh'. clearbody g. rewrite Hv0 in Hv.
    change (Nat.iter n tickY (ofZ 426, ofZ (-20))) with (jumpFlight n) in Hv.
    split.
    + intros Hn. pose proof (jumpFlight_inFlight n Hn) as Hfl.
      rewrite <- Hv in Hfl. unfold inFlight, base_vertical in Hfl.
      cbn [fst snd] in Hfl. apply andb_true_iff in Hfl as [Hair Htop].
      apply negb_true_iff in Hair.
      split; [|exact Htop]. unfold Base.jump. rewrite Hh'.
      change (nle (ofZ canvas_height)
                (nadd (y (Base.position g)) (ofZ 150)) = false) in Hair.
      change (y (Base.position g) + ofZ 150 >=? ofZ canvas_height)%js
        with (nle (ofZ canvas_height) (nadd (y (Base.position g)) (ofZ 150))).
      rewrite Hair. reflexivity.
    + intros ->. rewrite jumpFlight_lands in Hv.
      unfold base_vertical in Hv. injection Hv as Hp Hvel.
      split; assumption.
  - destruct (enh_jump_vertical f Hy Hh) as [Hv0 Hh0].
    destruct (enh_ticks_vertical n (Enhanced.jump f) Hh0) as [Hv Hh'].
    fold g in Hv, Hh'. clearbody g. rewrite Hv0 in Hv.
    change (Nat.iter n tickY (ofZ 426, ofZ (-20))) with (jumpFlight n) in Hv.
    split.
    + intros Hn. pose proof (jumpFlight_inFlight n Hn) as Hfl.
      rewrite <- Hv in Hfl. unfold inFlight, enh_vertical in Hfl.
      cbn [fst snd] in Hfl. apply andb_true_iff in Hfl as [Hair Htop].
      apply negb_true_iff in Hair.
      split; [|exact Htop]. unfold Enhanced.jump. rewrite Hh'.
      change (nle (ofZ canvas_height)
                (nadd (y (Enhanced.position g)) (ofZ 150)) = false) in Hair.
      change (y (Enhanced.position g) + ofZ 150 >=? ofZ canvas_height)%js
        with (nle (ofZ canvas_height)
                (nadd (y (Enhanced.position g)) (ofZ 150))).
      rewrite Hair. reflexivity.
    + intros ->. rewrite jumpFlight_lands in Hv.
      unfold enh_vertical in Hv. injection Hv as Hp Hvel.
      split; assumption.
Qed.

(** ** Once the frame loop has stopped *)

Section Stopped.
Context {num : Type} `{!JSNum num}.

Lemma base_jump_kin (f : Base.Fighter num) :
  Base.position (Base.jump f) = Base.position f.
Proof. unfold Base.jump, Base.setAnimation. by repeat case_match. Qed.

Lemma enh_jump_kin (f : Enhanced.Fighter num) :
  Enhanced.position (Enhanced.jump f) = Enhanced.position f.
Proof. unfold Enhanced.jump, Enhanced.setAnimation. by repeat case_match. Qed.

Lemma enh_dodge_kin (f : Enhanced.Fighter num) :
  Enhanced.position (Enhanced.dodge f) = Enhanced.position f.
Proof. unfold Enhanced.dodge, Enhanced.setAnimation. by repeat case_match. Qed.

(** X15. Once no frame is pending (the game is over, or an update has
    thrown), no event schedules one again and no event moves a fighter:
    whatever the key handlers still do, positions are frozen for good. *)
Theorem stopped_loop_never_restarts_and_nothing_moves :
  (forall (w : Base.World num) ev,
      Base.frameRequested w = false ->
      Base.frameRequested (Base.step ev w) = false
      /\ Base.position (Base.player (Base.step ev w))
         = Base.position (Base.player w)
      /\ Base.position (Base.enemy (Base.step ev w))
         = Base.position (Base.enemy w))
  /\ (forall (w : Enhanced.World num) ev,
         Enhanced.frameRequested w = false ->
         Enhanced.frameRequested (Enhanced.step ev w) = false
         /\ Enhanced.position (Enhanced.player (Enhanced.step ev w))
            = Enhanced.position (Enhanced.player w)
         /\ Enhanced.position (Enhanced.enemy (Enhanced.step ev w))
            = Enhanced.position (Enhanced.enemy w)).
Proof.
  split; intros w ev Hstop.
  - destruct ev as [|key|key]; simpl.
    + by rewrite Hstop.
    + unfold Base.keydown. cbv zeta.
      repeat (case_match; simpl; try done).
      * by rewrite base_jump_kin.
      * destruct (base_attack_kin (Base.player w) (Base.enemy w))
          as [(Hp & _) (He & _)].
        match goal with H : Base.attack _ _ = _ |- _ => rewrite H in * end.
        destruct (base_setAnimation_kin
                    (attackKey (Base.lastDirection f)) f) as (-> & _).
        by split_and!.
      * by rewrite base_jump_kin.
      * destruct (base_attack_kin (Base.enemy w) (Base.player w))
          as [(He & _) (Hp & _)].
        match goal with H : Base.attack _ _ = _ |- _ => rewrite H in * end.
        destruct (base_setAnimation_kin
                    (attackKey (Base.lastDirection f)) f) as (-> & _).
        by split_and!.
    + unfold Base.keyup. cbv zeta. repeat (case_match; simpl; try done).
  - destruct ev as [now attackNow random|key now|key]; simpl.
    + by rewrite Hstop.
    + unfold Enhanced.keydown. cbv zeta.
      repeat (case_match; simpl; try done).
      * by rewrite enh_jump_kin.
      * destruct (enh_attack_kin now (Enhanced.player w) (Enhanced.enemy w))
          as [(Hp & _) (He & _)].
        match goal with H : Enhanced.attack _ _ _ = _ |- _ => rewrite H in * end.
        destruct (enh_setAnimation_kin
                    (attackKey (Enhanced.lastDirection f)) f) as (-> & _).
        by split_and!.
      * by rewrite enh_dodge_kin.
    + unfold Enhanced.keyup. cbv zeta. repeat (case_match; simpl; try done).
Qed.

End Stopped.

(** ** The health bar, in exact arithmetic *)

Section HealthBar.
Local Open Scope Q_scope.

Lemma health_ratio_range (h m : Z) :
  (0 <= h <= m)%Z -> (0 < m)%Z -> 0 <= inject_Z h / inject_Z m <= 1.
Proof.
  intros Hh Hm.
  assert (Hm' : 0 < inject_Z m)
    by (change 0 with (inject_Z 0); rewrite <- Zlt_Qlt; lia).
  assert (Hh0 : 0 <= inject_Z h)
    by (change 0 with (inject_Z 0); rewrite <- Zle_Qle; lia).
  assert (Hhm : inject_Z h <= inject_Z m) by (rewrite <- Zle_Qle; lia).
  split.
  - apply Qle_shift_div_l; [done|]. lra.
  - apply Qle_shift_div_r; [done|]. lra.
Qed.

Lemma bar_width_range (full r : Q) :
  0 <= full -> 0 <= r <= 1 -> 0 <= full * r <= full.
Proof. intros Hf Hr. nra. Qed.

(** X16. The health bar never leaves its track.  An update that
    returns has drawn, last, a bar 5 high above the sprite, red for the
    player and blue otherwise, whose width is the full width
    [width * scale] times [health / maxHealth]: between 0 and the full
    width, 0 at no health and full at full health.  For both variants,
    for a fighter with 0 <= health <= maxHealth, maxHealth positive and
    a scale that is not negative. *)
Theorem health_bar_stays_on_its_track :
  (forall (f f' : Base.Fighter Q) (isPlayer : bool) out,
      (0 <= Base.health f <= Base.maxHealth f)%Z ->
      (0 < Base.maxHealth f)%Z ->
      0 <= Base.width f * Base.scale f ->
      Base.update f isPlayer = Ok (f', out) ->
      exists cmds w,
        out = cmds ++ [FillRect (if isPlayer then "red" else "blue")
                         (x (Base.position f) + x (Base.offset f))
                         (y (Base.position f) + y (Base.offset f) - 20)
                         w 5]
        /\ 0 <= w <= Base.width f * Base.scale f
        /\ (Base.health f = 0%Z -> w == 0)
        /\ (Base.health f = Base.maxHealth f ->
            w == Base.width f * Base.scale f))
  /\ (forall (f f' : Enhanced.Fighter Q) (isPlayer : bool) out,
         (0 <= Enhanced.health f <= Enhanced.maxHealth f)%Z ->
         (0 < Enhanced.maxHealth f)%Z ->
         0 <= Enhanced.width f * Enhanced.scale f ->
         Enhanced.update f isPlayer = Ok (f', out) ->
         exists cmds w,
           out = cmds ++ [FillRect (if isPlayer then "red" else "blue")
                            (x (Enhanced.position f) + x (Enhanced.offset f))
                            (y (Enhanced.position f) + y (Enhanced.offset f)
                             - 20)
                            w 5]
           /\ 0 <= w <= Enhanced.width f * Enhanced.scale f
           /\ (Enhanced.health f = 0%Z -> w == 0)
           /\ (Enhanced.health f = Enhanced.maxHealth f ->
               w == Enhanced.width f * Enhanced.scale f)).
Proof.
  split; intros f f' isPlayer out Hh Hm Hfull Hup.
  - unfold Base.update in Hup.
    destruct (Base.draw f) as [cmds|]; [|done]. injection Hup as _ <-.
    exists cmds, (Base.width f * Base.scale f
                  * (inject_Z (Base.health f) / inject_Z (Base.maxHealth f))).
    pose proof (health_ratio_range _ _ Hh Hm) as Hr.
    split_and!.
    + reflexivity.
    + by apply bar_width_range.
    + by apply bar_width_range.
    + intros ->. change (inject_Z 0) with 0. field.
      intros H0. assert (0 < inject_Z (Base.maxHealth f))
        by (change 0 with (inject_Z 0); rewrite <- Zlt_Qlt; lia). lra.
    + intros ->. field.
      intros H0. assert (0 < inject_Z (Base.maxHealth f))
        by (change 0 with (inject_Z 0); rewrite <- Zlt_Qlt; lia). lra.
  - unfold Enhanced.update in Hup.
    destruct (Enhanced.draw f) as [cmds|]; [|done]. injection Hup as _ <-.
    exists cmds,
      (Enhanced.width f * Enhanced.scale f
       * (inject_Z (Enhanced.health f) / inject_Z (Enhanced.maxHealth f))).
    pose proof (health_ratio_range _ _ Hh Hm) as Hr.
    split_and!.
    + reflexivity.
    + by apply bar_width_range.
    + by apply bar_width_range.
    + intros ->. change (inject_Z 0) with 0. field.
      intros H0. assert (0 < inject_Z (Enhanced.maxHealth f))
        by (change 0 with (inject_Z 0); rewrite <- Zlt_Qlt; lia). lra.
    + intros ->. field.
      intros H0. assert (0 < inject_Z (Enhanced.maxHealth f))
        by (change 0 with (inject_Z 0); rewrite <- Zlt_Qlt; lia). lra.
Qed.

End HealthBar.

(** ** Sprites that are not there *)

Section Sprites.
Context {num : Type} `{!JSNum num}.

Lemma enh_setAnimation_current key (f : Enhanced.Fighter num) :
  Enhanced.currentAnimation (Enhanced.setAnimation key f) = key
  /\ Enhanced.animations (Enhanced.setAnimation key f)
     = Enhanced.animations f.
Proof. unfold Enhanced.setAnimation. by case_match. Qed.

Lemma enh_ensureAnimation_absent key (f : Enhanced.Fighter num) :
  Enhanced.animations f !! key = None ->
  Enhanced.ensureAnimation key f
  = Enhanced.set_animations
      (<[key := mkAnimation [] (Some 5)]> (Enhanced.animations f)) f.
Proof.
  intros Habs. unfold Enhanced.ensureAnimation. rewrite Habs. cbv zeta.
  simpl. by rewrite lookup_insert_eq.
Qed.

Lemma enh_ensureAnimation_present key (f : Enhanced.Fighter num) a d :
  Enhanced.animations f !! key = Some a -> frameDuration a = Some d ->
  Enhanced.ensureAnimation key f = f.
Proof.
  intros Ha Hd. unfold Enhanced.ensureAnimation. rewrite Ha. cbv zeta.
  by rewrite Ha, Hd.
Qed.

Lemma sheetWithPlaceholders_fresh imgs who duration :
  sheetWithPlaceholders (spriteSheet imgs who duration)
                        (spriteSheet imgs who duration).
Proof.
  intros k. split; [|done]. intros [<-|[<-|[]]]; left.
  - exact (controller_keys_are_absent imgs who duration Right).
  - exact (controller_keys_are_absent imgs who duration Left).
Qed.

Lemma sheetWithPlaceholders_insert sheet anims key :
  In key controllerKeys ->
  sheetWithPlaceholders sheet anims ->
  sheetWithPlaceholders sheet (<[key := placeholder]> anims).
Proof.
  intros Hkey Hsheet k. destruct (Hsheet k) as [Hin Hout].
  destruct (decide (key = k)) as [<-|Hne].
  - split; [|done]. intros _. right. by rewrite lookup_insert_eq.
  - rewrite lookup_insert_ne by done. by split.
Qed.

(** The attack branch on a table that may already hold placeholders. *)
Lemma enh_attackBranch_placeholder sheet now attackNow d drawn ai
    (fighter target : Enhanced.Fighter num) :
  sheetWithPlaceholders sheet (Enhanced.animations fighter) ->
  let f' := Enhanced.fighter_after
              (Enhanced.attackBranch now attackNow d drawn ai fighter target)
  in
  sheetWithPlaceholders sheet (Enhanced.animations f')
  /\ Enhanced.currentAnimation f'
     = match d with Right => "attackright" | Left => "attackleft" end
  /\ Enhanced.animations f' !! Enhanced.currentAnimation f'
     = Some placeholder.
Proof.
  intros Hsheet f'. subst f'. unfold Enhanced.attackBranch.
  match goal with
  | |- context [Enhanced.ensureAnimation ?k _] => set (key := k)
  end.
  assert (Hkey : key = match d with
                       | Right => "attackright" | Left => "attackleft"
                       end) by by destruct d.
  assert (Hin : In key controllerKeys)
    by (rewrite Hkey; destruct d; simpl; tauto).
  destruct (enh_setAnimation_current key fighter) as [Hcur Hanims].
  set (f0 := Enhanced.setAnimation key fighter) in *.
  assert (Hf1 : let f1 := Enhanced.ensureAnimation key f0 in
                Enhanced.currentAnimation f1 = key
                /\ sheetWithPlaceholders sheet (Enhanced.animations f1)
                /\ Enhanced.animations f1 !! key = Some placeholder).
  { assert (Hs0 : sheetWithPlaceholders sheet (Enhanced.animations f0))
      by (rewrite Hanims; exact Hsheet).
    destruct (proj1 (Hs0 key) Hin) as [Habs|Hpre].
    - rewrite (enh_ensureAnimation_absent key f0 Habs). simpl.
      split_and!; [exact Hcur| |by rewrite lookup_insert_eq].
      by apply sheetWithPlaceholders_insert.
    - rewrite (enh_ensureAnimation_present key f0 _ 5 Hpre eq_refl).
      cbv zeta. by split_and!. }
  cbv zeta in Hf1. clearbody f0.
  generalize dependent (Enhanced.ensureAnimation key f0).
  intros f1 (Hc1 & Hs1 & Hl1).
  destruct (enh_attack_cases attackNow f1 target) as [E|E]; rewrite E;
    simpl; rewrite Hc1, <- Hkey; by split_and!.
Qed.

(** X18. The attack animation of the controller is an empty
    placeholder, for the whole match.  The keys it builds,
    "attackright" and "attackleft", are not keys of the page's sprite
    sheets (these are "attackRight" and "attackLeft").  In every state
    the enhanced page can reach, the enemy's table is its sprite sheet
    with nothing or the placeholder (no frames, frame duration 5)
    under these two keys; and whenever the controller attacks with a
    fighter that holds such a table, on the first attack as on any
    later one, it leaves the table such and the fighter on one of the
    two keys, with the placeholder under it: the next [draw] has no
    frame of its own to draw.  In particular for the enemy of any
    reachable state, as the frame loop hands it to the controller. *)
Theorem controller_attack_animation_is_an_empty_placeholder :
  (forall (imgs : gmap string Image) (w : Enhanced.World num),
      Enhanced.reachable imgs w ->
      sheetWithPlaceholders (spriteSheet imgs "levi" 15)
        (Enhanced.animations (Enhanced.enemy w)))
  /\ (forall (sheet : gmap string Animation)
             (now attackNow : Z) (random : nat -> num)
             (ai : Enhanced.AIController num)
             (fighter target : Enhanced.Fighter num),
         sheetWithPlaceholders sheet (Enhanced.animations fighter) ->
         let r := Enhanced.aiUpdate now attackNow random ai fighter target in
         let f' := Enhanced.fighter_after r in
         sheetWithPlaceholders sheet (Enhanced.animations f')
         /\ (In Enhanced.CallAttack (Enhanced.calls r) ->
             (Enhanced.currentAnimation f' = "attackright"
              \/ Enhanced.currentAnimation f' = "attackleft")
             /\ Enhanced.animations f' !! Enhanced.currentAnimation f'
                = Some (mkAnimation [] (Some 5))
             /\ Enhanced.animations f' !! Enhanced.currentAnimation f'
                ≫= (fun a => frame_at (frames a) (Enhanced.currentFrame f'))
                = None))
  /\ (forall (imgs : gmap string Image) (w : Enhanced.World num)
             (now attackNow : Z) (random : nat -> num)
             (target : Enhanced.Fighter num),
         Enhanced.reachable imgs w ->
         let r := Enhanced.aiUpdate now attackNow random (Enhanced.enemyAI w)
                    (Enhanced.tick (Enhanced.enemy w)) target in
         let f' := Enhanced.fighter_after r in
         In Enhanced.CallAttack (Enhanced.calls r) ->
         Enhanced.animations f' !! Enhanced.currentAnimation f'
         = Some (mkAnimation [] (Some 5))).
Proof.
  assert (Hcall : forall (sheet : gmap string Animation)
             (now attackNow : Z) (random : nat -> num)
             (ai : Enhanced.AIController num)
             (fighter target : Enhanced.Fighter num),
         sheetWithPlaceholders sheet (Enhanced.animations fighter) ->
         let r := Enhanced.aiUpdate now attackNow random ai fighter target in
         let f' := Enhanced.fighter_after r in
         sheetWithPlaceholders sheet (Enhanced.animations f')
         /\ (In Enhanced.CallAttack (Enhanced.calls r) ->
             (Enhanced.currentAnimation f' = "attackright"
              \/ Enhanced.currentAnimation f' = "attackleft")
             /\ Enhanced.animations f' !! Enhanced.currentAnimation f'
                = Some (mkAnimation [] (Some 5))
             /\ Enhanced.animations f' !! Enhanced.currentAnimation f'
                ≫= (fun a => frame_at (frames a) (Enhanced.currentFrame f'))
                = None)).
  { intros sheet now attackNow random ai fighter target Hsheet r f'.
    subst f' r. unfold Enhanced.aiUpdate.
    destruct (now <? Enhanced.nextActionTime ai); [by split; [|intros []]|].
    cbv zeta.
    match goal with |- context [if ?c then _ else _] => destruct c end.
    - match goal with
      | |- context [Enhanced.attackBranch ?a ?b ?c ?d ?e ?g ?h] =>
          destruct (enh_attackBranch_placeholder sheet a b c d e g h Hsheet)
            as (Hs & Hc & Hl)
      end.
      split; [exact Hs|]. intros _. split_and!.
      + rewrite Hc. match goal with |- context [match ?d with _ => _ end] =>
                      destruct d end; [by left|by right].
      + exact Hl.
      + rewrite Hl. simpl. apply frame_at_nil.
    - match goal with
      | |- context [Enhanced.moveBranch ?a ?b ?c ?d ?e ?g ?h ?i ?j] =>
          destruct (enh_moveBranch_gate a b c d e g h i j) as [_ Hc];
          destruct (enh_moveBranch_steered a b c d e g h i j) as [Hst _]
      end.
      destruct Hst as (_ & -> & _). split; [exact Hsheet|].
      intros Hin. by destruct Hc. }
  assert (Hreach : forall (imgs : gmap string Image) (w : Enhanced.World num),
      Enhanced.reachable imgs w ->
      sheetWithPlaceholders (spriteSheet imgs "levi" 15)
        (Enhanced.animations (Enhanced.enemy w))).
  { intros imgs.
    enough (forall w, Enhanced.reachable imgs w ->
              True /\ sheetWithPlaceholders (spriteSheet imgs "levi" 15)
                        (Enhanced.animations (Enhanced.enemy w))) as H
      by (intros w Hw; by destruct (H w Hw)).
    apply (enh_reachable_inv (fun _ => True)
             (fun e => sheetWithPlaceholders (spriteSheet imgs "levi" 15)
                         (Enhanced.animations e))); try done.
    - unfold Enhanced.initWorld, Enhanced.resetGame. cbv zeta.
      cbn [Enhanced.enemy].
      match goal with
      | |- context [Enhanced.setAnimation ?K ?F] =>
          destruct (enh_setAnimation_current K F) as [_ ->]
      end.
      simpl. apply sheetWithPlaceholders_fresh.
    - intros f Hf.
      by destruct (enh_tick_kept f) as (_ & _ & _ & _ & _ & -> & _).
    - intros now p e _ He. split; [done|].
      destruct (enh_attack_cases now p e) as [E|E]; rewrite E; [done|].
      simpl. by case_match.
    - intros now attackNow random ai e p He _ r.
      destruct (Hcall _ now attackNow random ai e p He) as [Hs _].
      fold r in Hs. split_and!; [exact Hs| |done].
      match goal with
      | |- context [Enhanced.setAnimation ?K ?F] =>
          destruct (enh_setAnimation_current K F) as [_ ->]
      end.
      exact Hs. }
  split_and!; [exact Hreach|exact Hcall|].
  intros imgs w now attackNow random target Hw r f' Hin.
  destruct (Hcall (spriteSheet imgs "levi" 15) now attackNow random
              (Enhanced.enemyAI w) (Enhanced.tick (Enhanced.enemy w)) target)
    as [_ Hatt].
  - destruct (enh_tick_kept (Enhanced.enemy w))
      as (_ & _ & _ & _ & _ & -> & _).
    by apply Hreach.
  - by destruct (Hatt Hin) as (_ & Hl & _).
Qed.

(** X19. A missing idle sprite halts the page.  If the image
    "eren_idleRight" is not among the loaded images, the first frame
    throws in the player's [update], before anything is changed: both
    fighters are as constructed and no further frame is requested.  For
    both pages. *)
Theorem missing_idle_sprite_halts_the_page :
  (forall (imgs : gmap string Image),
      imgs !! "eren_idleRight" = None ->
      let w := Base.step Base.Frame (Base.initWorld (num:=num) imgs) in
      Base.frameRequested w = false
      /\ Base.player w = Base.player (Base.initWorld imgs)
      /\ Base.enemy w = Base.enemy (Base.initWorld imgs))
  /\ (forall (imgs : gmap string Image) now attackNow random,
         imgs !! "eren_idleRight" = None ->
         let w := Enhanced.step (Enhanced.Frame now attackNow random)
                    (Enhanced.initWorld (num:=num) imgs) in
         Enhanced.frameRequested w = false
         /\ Enhanced.player w = Enhanced.player (Enhanced.initWorld imgs)
         /\ Enhanced.enemy w = Enhanced.enemy (Enhanced.initWorld imgs)).
Proof.
  split.
  - intros imgs Hmiss w. subst w.
    assert (Hdraw : Base.draw (Base.player (Base.initWorld (num:=num) imgs))
                    = Throw TypeError).
    { unfold Base.draw. cbn [Base.initWorld Base.player Base.newFighter
        Base.animations Base.currentAnimation Base.currentFrame
        Base.lastDirection idleKey].
      assert (Hidle : spriteSheet imgs "eren" 775 !! "idleRight"
                      = Some (mkAnimation [imgs !! "eren_idleRight"] None))
        by (vm_compute; reflexivity).
      rewrite Hidle. simpl. rewrite Hmiss. reflexivity. }
    unfold Base.step. cbn [Base.frameRequested Base.initWorld].
    unfold Base.gameLoop. cbn [Base.gameRunning Base.initWorld negb].
    unfold Base.update. rewrite Hdraw. by split_and!.
  - intros imgs now attackNow random Hmiss w. subst w.
    assert (Hp : Enhanced.player (Enhanced.initWorld (num:=num) imgs)
                 = Enhanced.newFighter {| x := ofZ 100; y := ofZ 426 |}
                     {| x := ofZ 0; y := ofZ 0 |}
                     (spriteSheet imgs "eren" 775)
                     (ofZ 2) {| x := ofZ 0; y := ofZ 0 |}).
    { reflexivity. }
    assert (Hdraw : Enhanced.draw
                      (Enhanced.player (Enhanced.initWorld (num:=num) imgs))
                    = Throw TypeError).
    { rewrite Hp. unfold Enhanced.draw.
      cbn [Enhanced.newFighter Enhanced.animations Enhanced.currentAnimation
           Enhanced.currentFrame Enhanced.lastDirection idleKey].
      assert (Hidle : spriteSheet imgs "eren" 775 !! "idleRight"
                      = Some (mkAnimation [imgs !! "eren_idleRight"] None))
        by (vm_compute; reflexivity).
      rewrite Hidle. simpl. rewrite Hmiss. reflexivity. }
    unfold Enhanced.step.
    assert (Hreq : Enhanced.frameRequested
                     (Enhanced.initWorld (num:=num) imgs) = true)
      by reflexivity.
    rewrite Hreq. unfold Enhanced.animate, Enhanced.update.
    rewrite Hdraw. by split_and!.
Qed.

End Sprites.

(** ** The further properties at concrete inputs *)

(** X1 on two paths, the second failing before the first loads. *)
Lemma preload_callback_exactly_once_witness :
  Preload.callbackCalls
    (Preload.run sampleSchedule (Preload.preloadImages samplePaths))
  = [Preload.images
       (Preload.run sampleSchedule (Preload.preloadImages samplePaths))].
Proof.
  exact (preload_callback_exactly_once samplePaths sampleSchedule
           ltac:(repeat constructor)).
Defined.

(** X2 on the same schedule: the key of the loaded image is present. *)
Lemma preload_images_are_the_loaded_ones_witness :
  is_Some
    (Preload.images
       (Preload.run sampleSchedule (Preload.preloadImages samplePaths))
     !! "eren_idleRight").
Proof.
  pose proof (preload_images_are_the_loaded_ones samplePaths sampleSchedule
                "eren_idleRight") as H.
  cbv zeta in H. destruct H as [[_ H] _]. apply H.
  exists 0%nat, 64, 64,
    (Preload.mkImagePath "eren_idleRight" "eren_idleRight.png").
  split; [|split]; [simpl; tauto|reflexivity|reflexivity].
Defined.

(** X3 after a frame and an attack key. *)
Lemma base_timers_invariant_witness :
  let w := Base.step (Base.KeyDown " ") base_started in
  base_timersOk (Base.player w) /\ base_timersOk (Base.enemy w).
Proof.
  apply (base_timers_invariant sampleLoaded).
  apply Base.reach_step, Base.reach_step, Base.reach_init.
Defined.

(** X4 after a frame and a dodge key. *)
Lemma enh_timers_invariant_witness :
  let w := Enhanced.step (Enhanced.KeyDown "s" 1000) enh_started in
  enh_timersOk (Enhanced.player w) /\ enh_timersOk (Enhanced.enemy w).
Proof.
  apply (enh_timers_invariant sampleLoaded).
  apply Enhanced.reach_step, Enhanced.reach_step, Enhanced.reach_init.
Defined.

(** X5, three updates after an attack. *)
Lemma base_attack_blocks_for_120_updates_witness :
  let a' := base_after 3
              (Base.attack (base_sample (num:=float) 100 426)
                           (base_sample 200 426)).1 in
  Base.attackCooldown a' = 117
  /\ Base.attack a' (base_sample 200 426) = (a', base_sample 200 426).
Proof.
  intros a'.
  destruct (base_attack_blocks_for_120_updates
              (base_sample (num:=float) 100 426) (base_sample 200 426) a' 3)
    as (Hcd & _ & Hblocked & _).
  - vm_compute. congruence.
  - vm_compute. reflexivity.
  - split; [exact Hcd|]. apply Hblocked. lia.
Defined.

(** X6, thirty updates after a first attack. *)
Lemma enh_attack_blocks_for_its_cooldown_witness :
  let a' := enh_after 30
              (Enhanced.attack 1000 (enh_sample (num:=float) 100 426)
                               (enh_sample 200 426)).1 in
  Enhanced.attackCooldown a' = 0 /\ eligible a'
  /\ Enhanced.canCombo a' = true.
Proof.
  intros a'.
  destruct (enh_attack_blocks_for_its_cooldown 1000
              (enh_sample (num:=float) 100 426) (enh_sample 200 426) a' 30)
    as (_ & Hcd & _ & _ & Hready).
  - vm_compute. split; congruence.
  - vm_compute. congruence.
  - vm_compute. reflexivity.
  - split; [exact Hcd|]. apply Hready. vm_compute. congruence.
Defined.

(** X7 at the update that ends the dodge. *)
Lemma dodge_lasts_15_updates_then_45_of_cooldown_witness :
  let f' := enh_after 15 (Enhanced.dodge (enh_sample (num:=float) 100 426)) in
  x (Enhanced.velocity f') = ofZ 0
  /\ Enhanced.isDodging f' = false
  /\ Enhanced.dodgeCooldown f' = 45.
Proof.
  intros f'.
  destruct (dodge_lasts_15_updates_then_45_of_cooldown
              (enh_sample (num:=float) 100 426) f' 15)
    as (_ & Hend & Hafter & _).
  - vm_compute. congruence.
  - reflexivity.
  - vm_compute. reflexivity.
  - destruct (Hend eq_refl) as [Hv _].
    destruct (Hafter ltac:(lia)) as [Hd Hc].
    split; [exact Hv|]. split; [exact Hd|exact Hc].
Defined.

(** X9 for a controller whose gate is open. *)
Lemma ai_controller_pacing_witness :
  let r := Enhanced.aiUpdate 1000 1000 (fun _ => ofZ 0)
             Enhanced.newAIController
             (enh_sample (num:=float) 824 426) (enh_sample 764 426) in
  Enhanced.nextActionTime (Enhanced.ai_after r) = 1050
  \/ Enhanced.nextActionTime (Enhanced.ai_after r) = 1100.
Proof.
  intros r.
  destruct (ai_controller_pacing 1000 1000 (fun _ => ofZ 0)
              Enhanced.newAIController
              (enh_sample (num:=float) 824 426) (enh_sample 764 426))
    as (_ & Hopen & _).
  fold r in Hopen.
  destruct Hopen as [[Hgate _]|[Hgate _]].
  - vm_compute. congruence.
  - left. rewrite Hgate. reflexivity.
  - right. rewrite Hgate. reflexivity.
Defined.

(** X10 for an attack key after the first frame. *)
Lemma health_never_increases_witness :
  Base.health (Base.player (Base.step (Base.KeyDown "k") base_started))
  <= Base.health (Base.player base_started)
  /\ Base.health (Base.enemy (Base.step (Base.KeyDown "k") base_started))
     <= Base.health (Base.enemy base_started).
Proof.
  destruct (health_never_increases (num:=float)) as [Hbase _].
  apply (Hbase sampleLoaded).
  apply Base.reach_step, Base.reach_init.
Defined.

(** X11 after a frame and a jump key. *)
Lemma current_frame_stays_in_range_witness :
  let w := Base.step (Base.KeyDown "w") base_started in
  base_frameValid (Base.player w) /\ base_frameValid (Base.enemy w).
Proof.
  destruct (current_frame_stays_in_range (num:=float)) as [Hbase _].
  apply (Hbase sampleLoaded).
  apply Base.reach_step, Base.reach_step, Base.reach_init.
Defined.

(** X12 for a fighter facing right with the target 100 px to its left. *)
Lemma attack_never_hits_a_target_behind_witness :
  (Base.attack (base_sample (num:=Q) 200 426) (base_sample 100 426)).2
  = base_sample 100 426.
Proof.
  destruct attack_never_hits_a_target_behind as (Hbase & _).
  apply Hbase.
  - reflexivity.
  - vm_compute. congruence.
Defined.

(** X13 for an attack decision. *)
Lemma controller_never_leaves_its_fighter_at_rest_witness :
  neqb (x (Enhanced.velocity (enemyAfterDecision (num:=float)))) (ofZ 0)
  = false.
Proof.
  destruct controller_never_leaves_its_fighter_at_rest as (_ & Hfloat).
  apply (Hfloat 1000 1000 (fun _ => ofZ 0) Enhanced.newAIController
           (enh_sample 824 426) (enh_sample 764 426)).
  vm_compute. congruence.
Defined.

(** X14 at the landing. *)
Lemma jump_lasts_59_updates_witness :
  let g := base_ticks 59 (Base.jump (base_sample (num:=float) 100 426)) in
  y (Base.position g) = ofZ 426 /\ y (Base.velocity g) = ofZ 0.
Proof.
  intros g.
  destruct jump_lasts_59_updates as (Hbase & _).
  destruct (Hbase (base_sample 100 426) 59%nat) as (_ & Hland);
    [reflexivity|reflexivity|].
  exact (Hland eq_refl).
Defined.

(** X15 on pages whose first frame threw. *)
Lemma stopped_loop_never_restarts_and_nothing_moves_witness :
  Base.frameRequested (Base.step (Base.KeyDown "w") base_halted) = false
  /\ Enhanced.frameRequested
       (Enhanced.step (Enhanced.Frame 2000 2000 (fun _ => ofZ 0)) enh_halted)
     = false.
Proof.
  destruct (stopped_loop_never_restarts_and_nothing_moves (num:=float))
    as (Hbase & Henh).
  split.
  - apply (Hbase base_halted (Base.KeyDown "w")). reflexivity.
  - apply (Henh enh_halted (Enhanced.Frame 2000 2000 (fun _ => ofZ 0))).
    reflexivity.
Defined.

(** X16 for a fresh fighter at full health. *)
Lemma health_bar_stays_on_its_track_witness :
  let f := base_sample (num:=Q) 100 426 in
  exists cmds w,
    [Base.drawFrame f sampleImage; Base.healthBar f true]
    = cmds ++ [FillRect "red"
                 (x (Base.position f) + x (Base.offset f))%Q
                 (y (Base.position f) + y (Base.offset f) - 20)%Q
                 w 5%Q]
    /\ (0 <= w <= Base.width f * Base.scale f)%Q.
Proof.
  intros f.
  destruct health_bar_stays_on_its_track as (Hbase & _).
  destruct (Hbase f (Base.tick f) true
              [Base.drawFrame f sampleImage; Base.healthBar f true])
    as (cmds & w & Hout & Hrange & _).
  - vm_compute. split; congruence.
  - reflexivity.
  - vm_compute. congruence.
  - reflexivity.
  - exists cmds, w. split; [exact Hout|exact Hrange].
Defined.

(** X17 for the enemy at its start position, the player at its own,
    to the left: the enemy runs and jumps to the left. *)
Lemma controller_far_from_target_always_jumps_witness :
  let r := Enhanced.aiUpdate 1000 1000 (fun _ => 0%Q)
             Enhanced.newAIController
             (enh_sample (num:=Q) 824 426) (enh_sample 100 426) in
  y (Enhanced.velocity (Enhanced.fighter_after r)) = ofZ (-22)
  /\ Enhanced.randomDraws r = 0%nat
  /\ Enhanced.calls r
     = [Enhanced.CallSetAnimation "runLeft";
        Enhanced.CallSetAnimation "jumpLeft"].
Proof.
  intros r.
  destruct (controller_far_from_target_always_jumps 1000 1000 (fun _ => 0%Q)
              Enhanced.newAIController
              (enh_sample 824 426) (enh_sample 100 426))
    as (Hv & Hd & Hcalls & _).
  - vm_compute. congruence.
  - vm_compute. congruence.
  - vm_compute. congruence.
  - split; [exact Hv|]. split; [exact Hd|].
    destruct Hcalls as [[_ Hvx]|[Hc _]].
    + vm_compute in Hvx. congruence.
    + exact Hc.
Defined.

(** X18 for the enemy 60 px to the right of the player, at its second
    attack: its table already holds the placeholder of the first. *)
Lemma controller_attack_animation_is_an_empty_placeholder_witness :
  let player0 := Enhanced.player (Enhanced.initWorld sampleLoaded) in
  let f' := Enhanced.fighter_after
              (Enhanced.aiUpdate 2000 2000 (fun _ => ofZ 0)
                 Enhanced.newAIController enh_enemyStruckOnce player0) in
  Enhanced.animations enh_enemyStruckOnce !! "attackleft"
  = Some (mkAnimation [] (Some 5))
  /\ Enhanced.animations f' !! Enhanced.currentAnimation f'
     = Some (mkAnimation [] (Some 5)).
Proof.
  intros player0 f'.
  destruct (controller_attack_animation_is_an_empty_placeholder (num:=float))
    as (_ & Hcall & _).
  split; [vm_compute; reflexivity|].
  destruct (Hcall (spriteSheet sampleLoaded "levi" 15) 2000 2000
              (fun _ => ofZ 0) Enhanced.newAIController
              enh_enemyStruckOnce player0)
    as [_ Hatt].
  - pose proof (Hcall (spriteSheet sampleLoaded "levi" 15) 1000 1000
                  (fun _ => ofZ 0) Enhanced.newAIController
                  enh_enemyNearby player0
                  (sheetWithPlaceholders_fresh sampleLoaded "levi" 15))
      as Hfirst.
    cbv zeta in Hfirst. exact (proj1 Hfirst).
  - destruct Hatt as (_ & Hlookup & _).
    + vm_compute. right. left. reflexivity.
    + exact Hlookup.
Defined.

(** X19 for a page on which no image has loaded. *)
Lemma missing_idle_sprite_halts_the_page_witness :
  Base.frameRequested base_halted = false
  /\ Base.player base_halted = Base.player (Base.initWorld ∅).
Proof.
  destruct (missing_idle_sprite_halts_the_page (num:=float)) as [Hbase _].
  destruct (Hbase ∅) as (Hreq & Hplayer & _).
  - reflexivity.
  - split; [exact Hreq|exact Hplayer].
Defined.

(** X20 for a two-frame run held 10 updates: the second frame shows
    after 10 updates and the first again after 20. *)
Lemma frame_index_follows_the_update_counter_witness :
  Base.currentFrame (base_ticks 10 base_runner) = Int 1
  /\ Base.currentFrame (base_ticks 20 base_runner) = Int 0.
Proof.
  destruct (frame_index_follows_the_update_counter (num:=float))
    as [Hbase _].
  split.
  - destruct (Hbase base_runner (mkAnimation [None; None] None) 0 10%nat)
      as (_ & _ & Hframe);
      [vm_compute; reflexivity|reflexivity|simpl; lia|vm_compute; reflexivity
      |vm_compute; congruence|vm_compute; congruence|exact Hframe].
  - destruct (Hbase base_runner (mkAnimation [None; None] None) 0 20%nat)
      as (_ & _ & Hframe);
      [vm_compute; reflexivity|reflexivity|simpl; lia|vm_compute; reflexivity
      |vm_compute; congruence|vm_compute; congruence|exact Hframe].
Defined.
